(** * Shareholder data platform: the paginated query engine

    A shallow embedding of the parts of the repository that decide how rows
    are filtered, sorted, paged, replicated and exported, and who may sign
    in:

    - [Backend/index.js]: [COLS], [buildWhere], the [GET /comp] and
      [GET /comp/count] handlers; the account endpoints ([/signup],
      [/login], [/approve], [/remove], [/password/forgot],
      [/password/reset], [/admin/delete/:id]) with [isAllowedDomain],
      [requireAuth] and [requireAdmin];
    - [idb.jsx]: [makeKey], [clearAll], [upsertRows], [getCountFromIDB],
      [getPageFromIDB], [rowMatches];
    - [App.jsx]: the page-load effect with [pageCacheRef],
      [handleSyncToDevice] and [handleDownloadExcel]; [valueOf] with
      [COL_KEYS], [totalPages] and the clamp of the page, [Pager],
      [toggleSort], [clearSort] and [setF].

    Conventions of the model.  JavaScript strings are sequences of 8-bit
    characters (ASCII text); numbers are integers ([Z]) with [NaN] kept
    apart where [parseInt] can produce it; [undefined] is [None].  A row is
    an object whose keys keep their insertion order, hence an association
    list; [req.query], the IndexedDB object store and the page cache are
    finite maps.  Keys are the names of columns; none is a name that every
    object inherits from [Object.prototype].  What belongs to the host and
    not to the repository (the collation of [localeCompare], the [LIKE]
    operator and the ordering of the SQL engine, [JSON.stringify], the
    configured table name, bcrypt, jsonwebtoken and the collation of
    [users.email]) is a section variable.  The account endpoints are taken
    over a database that answers every statement it is sent. *)

From Stdlib Require Import ZArith String Ascii DecimalString DecimalPos.
From stdpp Require Import base strings list gmap sorting.

Local Open Scope Z_scope.

(** ** JavaScript values and the built-ins the code calls *)

Inductive jsval : Type :=
| JNull
| JNum (z : Z)
| JStr (s : string).

#[global] Instance jsval_eq_dec : EqDecision jsval.
Proof. solve_decision. Defined.

Definition jsval_encode (v : jsval) : option (Z + string) :=
  match v with
  | JNull => None
  | JNum z => Some (inl z)
  | JStr s => Some (inr s)
  end.

Definition jsval_decode (x : option (Z + string)) : jsval :=
  match x with
  | None => JNull
  | Some (inl z) => JNum z
  | Some (inr s) => JStr s
  end.

#[global] Instance jsval_countable : Countable jsval.
Proof.
  refine (inj_countable' jsval_encode jsval_decode _).
  intros []; reflexivity.
Defined.

(** The result of [parseInt], [Math.max] and [Math.min]. *)
Inductive jsnum : Type :=
| NaN
| Num (z : Z).

#[global] Instance jsnum_eq_dec : EqDecision jsnum.
Proof. solve_decision. Defined.

Definition Math_max (a b : jsnum) : jsnum :=
  match a, b with
  | Num x, Num y => Num (Z.max x y)
  | _, _ => NaN
  end.

Definition Math_min (a b : jsnum) : jsnum :=
  match a, b with
  | Num x, Num y => Num (Z.min x y)
  | _, _ => NaN
  end.

Definition num_sub (a b : jsnum) : jsnum :=
  match a, b with
  | Num x, Num y => Num (x - y)
  | _, _ => NaN
  end.

Definition num_mul (a b : jsnum) : jsnum :=
  match a, b with
  | Num x, Num y => Num (x * y)
  | _, _ => NaN
  end.

(** [String(n)] for an integer [n]. *)
Definition Number_toString (z : Z) : string :=
  NilZero.string_of_int (Z.to_int z).

(** [String(v)]. *)
Definition String_ (v : jsval) : string :=
  match v with
  | JNull => "null"
  | JNum z => Number_toString z
  | JStr s => s
  end.

(** Truthiness, for [!v], [v && ...] and [v || ...]. *)
Definition truthy (v : jsval) : bool :=
  match v with
  | JNull => false
  | JNum z => negb (z =? 0)
  | JStr s => negb (String.eqb s EmptyString)
  end.

Definition str_truthy (s : string) : bool := negb (String.eqb s EmptyString).

(** [a ?? b] where [a] may be [undefined] ([None]) or [null]. *)
Definition nullish_or (a : option jsval) (b : jsval) : jsval :=
  match a with
  | None | Some JNull => b
  | Some v => v
  end.

Definition is_white (a : ascii) : bool :=
  let n := nat_of_ascii a in
  (Nat.eqb n 9 || Nat.eqb n 10 || Nat.eqb n 11 || Nat.eqb n 12 || Nat.eqb n 13 || Nat.eqb n 32)%bool.

Fixpoint trimStart (s : string) : string :=
  match s with
  | EmptyString => EmptyString
  | String a s' => if is_white a then trimStart s' else s
  end.

Fixpoint trimEnd (s : string) : string :=
  match s with
  | EmptyString => EmptyString
  | String a s' =>
      match trimEnd s' with
      | EmptyString => if is_white a then EmptyString else String a EmptyString
      | t => String a t
      end
  end.

Definition trim (s : string) : string := trimEnd (trimStart s).

Definition lower_ascii (a : ascii) : ascii :=
  let n := nat_of_ascii a in
  if (Nat.leb 65 n && Nat.leb n 90)%bool then ascii_of_nat (n + 32) else a.

Fixpoint toLowerCase (s : string) : string :=
  match s with
  | EmptyString => EmptyString
  | String a s' => String (lower_ascii a) (toLowerCase s')
  end.

Fixpoint startsWith (s t : string) : bool :=
  match t, s with
  | EmptyString, _ => true
  | String b t', String a s' => if Ascii.eqb a b then startsWith s' t' else false
  | String _ _, EmptyString => false
  end.

(** [s.includes(t)]. *)
Fixpoint includes (s t : string) : bool :=
  (startsWith s t ||
   match s with
   | EmptyString => false
   | String _ s' => includes s' t
   end)%bool.

Definition digit_of (a : ascii) : option Z :=
  let n := nat_of_ascii a in
  if (Nat.leb 48 n && Nat.leb n 57)%bool then Some (Z.of_nat n - 48) else None.

Fixpoint digits_acc (s : string) (acc : option Z) : option Z :=
  match s with
  | EmptyString => acc
  | String a s' =>
      match digit_of a with
      | Some d => digits_acc s' (Some (10 * default 0 acc + d))
      | None => acc
      end
  end.

(** [parseInt(s, 10)]: leading white space, an optional sign, then the
    longest run of decimal digits; [NaN] when there is no digit. *)
Definition parseInt (s : string) : jsnum :=
  let s1 := trimStart s in
  let '(neg, s2) :=
    match s1 with
    | String "-" r => (true, r)
    | String "+" r => (false, r)
    | _ => (false, s1)
    end in
  match digits_acc s2 None with
  | None => NaN
  | Some n => Num (if neg then - n else n)
  end.

(** [Array.prototype.includes] on an array of strings. *)
Definition arr_includes (l : list string) (s : string) : bool :=
  existsb (String.eqb s) l.

(** [l.slice(s, e)] with JavaScript's treatment of negative and
    out-of-range indices. *)
Definition js_slice {A} (l : list A) (s e : Z) : list A :=
  let len := Z.of_nat (length l) in
  let k := if s <? 0 then Z.max (len + s) 0 else Z.min s len in
  let f := if e <? 0 then Z.max (len + e) 0 else Z.min e len in
  take (Z.to_nat (Z.max (f - k) 0)) (drop (Z.to_nat k) l).

(** A stable insertion sort driven by a "goes before or ties" test.  It
    stands for [Array.prototype.sort] (stable since ES2019), for the key
    order of an IndexedDB cursor and for SQL's [ORDER BY]. *)
Fixpoint insert_by {A} (leb : A -> A -> bool) (x : A) (l : list A) : list A :=
  match l with
  | [] => [x]
  | y :: l' => if leb x y then x :: l else y :: insert_by leb x l'
  end.

Definition sort_by {A} (leb : A -> A -> bool) (l : list A) : list A :=
  foldr (insert_by leb) [] l.

(** ** Rows *)

(** A row is an object: keys in insertion order, each key once. *)
Definition row : Type := list (string * jsval).

(** [r[k]]; [None] is [undefined]. *)
Fixpoint get (r : row) (k : string) : option jsval :=
  match r with
  | [] => None
  | (k', v) :: r' => if String.eqb k' k then Some v else get r' k
  end.

(** [{...r, [k]: v}]: an existing key keeps its place, a new key goes last. *)
Fixpoint set_field (r : row) (k : string) (v : jsval) : row :=
  match r with
  | [] => [(k, v)]
  | (k', v') :: r' =>
      if String.eqb k' k then (k, v) :: r' else (k', v') :: set_field r' k v
  end.

(** [Object.keys(r)]. *)
Definition keys (r : row) : list string := map fst r.

(** ** One admissible host

    Concrete stand-ins for the host functions, used to run the model on
    examples: MySQL's [LIKE] under a case-insensitive collation ([%] any
    run of characters, [_] any one character), an ordering of cell values
    (NULL first, numbers by value, text by lower-cased code units), a
    code-unit [localeCompare] and a [JSON.stringify] for objects of
    strings without characters that need escaping. *)

Fixpoint like_match (fuel : nat) (p s : string) : bool :=
  match fuel with
  | O => false
  | S fuel' =>
      match p with
      | EmptyString => String.eqb s EmptyString
      | String "%" p' =>
          (like_match fuel' p' s ||
           match s with
           | EmptyString => false
           | String _ s' => like_match fuel' p s'
           end)%bool
      | String "_" p' =>
          match s with
          | EmptyString => false
          | String _ s' => like_match fuel' p' s'
          end
      | String a p' =>
          match s with
          | EmptyString => false
          | String b s' =>
              (Ascii.eqb (lower_ascii a) (lower_ascii b) && like_match fuel' p' s')%bool
          end
      end
  end.

Definition sql_like_ci (pattern : string) (cell : jsval) : bool :=
  match cell with
  | JNull => false
  | v =>
      let s := String_ v in
      like_match (S (String.length pattern + String.length s)) pattern s
  end.

Fixpoint str_leb (s t : string) : bool :=
  match s, t with
  | EmptyString, _ => true
  | String _ _, EmptyString => false
  | String a s', String b t' =>
      let x := nat_of_ascii a in
      let y := nat_of_ascii b in
      if Nat.ltb x y then true else if Nat.ltb y x then false else str_leb s' t'
  end.

Definition sql_leb_ci (a b : jsval) : bool :=
  match a, b with
  | JNull, _ => true
  | _, JNull => false
  | JNum x, JNum y => x <=? y
  | JNum _, JStr _ => true
  | JStr _, JNum _ => false
  | JStr s, JStr t => str_leb (toLowerCase s) (toLowerCase t)
  end.

Definition localeCompare_codeunit (s t : string) : Z :=
  if String.eqb s t then 0 else if str_leb s t then -1 else 1.

Definition dquote : string := String (ascii_of_nat 34) EmptyString.

Definition stringify_plain (o : list (string * string)) : string :=
  "{" +:+
  String.concat ","
    (map (fun kv => dquote +:+ fst kv +:+ dquote +:+ ":" +:+ dquote +:+ snd kv +:+ dquote) o)
  +:+ "}".

(** ** The HTTP interface between the two halves *)

(** [req.query] on the server, [params] on the client: one string per key. *)
Abbreviation query := (gmap string string).

Inductive response (A : Type) : Type :=
| Ok (data : A)
| Fail (status : Z) (error : string).

Arguments Ok {A} data.
Arguments Fail {A} status error.

Section Engine.

(** The SQL engine behind [pool.query] and the process environment. *)
Variable TABLE_NAME : string.
Variable sql_like : string -> jsval -> bool.
Variable sql_leb : jsval -> jsval -> bool.

(** The browser. *)
Variable localeCompare : string -> string -> Z.
Variable JSON_stringify : list (string * string) -> string.

(** ** Backend/index.js *)

Definition COLS : list string :=
  [ "Investor_First_Name";
    "Investor_Middle_Name";
    "Investor_Last_Name";
    "Father_or_Husband_First Name";
    "Father_or_Husband_Middle_Name";
    "Father_or_Husband_Last_Name";
    "Address";
    "Folio_Dpid";
    "Company_Name";
    "No_of_Shares";
    "Valuation";
    "Case" ].

(** One entry of [where] together with its entry of [values]: the text
    [`key` LIKE ?] and the parameter bound to its placeholder. *)
Record like_clause : Type := LikeClause {
  lc_column : string;
  lc_value : string
}.

Definition where_text (c : like_clause) : string :=
  "`" +:+ lc_column c +:+ "` LIKE ?".

Definition buildWhere (q : query) : list like_clause :=
  foldl
    (fun acc key =>
       match q !! key with
       | Some val =>
           if (str_truthy val && negb (String.eqb (trim val) EmptyString))%bool
           then acc ++ [LikeClause key ("%" +:+ val +:+ "%")]
           else acc
       | None => acc
       end)
    [] COLS.

(** The values computed at the top of the [GET /comp] handler. *)
Record comp_plan : Type := CompPlan {
  pl_pageSize : jsnum;
  pl_page : jsnum;
  pl_offset : jsnum;
  pl_sortBy : string;
  pl_sortDir : string;
  pl_where : list like_clause
}.

Definition plan (q : query) : comp_plan :=
  let pageSize :=
    Math_min (Math_max (parseInt (default "20" (q !! "pageSize"))) (Num 1)) (Num 10000) in
  let page := Math_max (parseInt (default "1" (q !! "page"))) (Num 1) in
  let offset := num_mul (num_sub page (Num 1)) pageSize in
  let sortBy :=
    match q !! "sortBy" with
    | Some s => if arr_includes COLS s then s else "Company_Name"
    | None => "Company_Name"
    end in
  let sortDir :=
    match q !! "sortDir" with
    | Some s => if String.eqb (toLowerCase s) "desc" then "DESC" else "ASC"
    | None => "ASC"
    end in
  CompPlan pageSize page offset sortBy sortDir (buildWhere q).

Definition nl : string := String (ascii_of_nat 10) EmptyString.

Definition where_sql (cls : list like_clause) : string :=
  match cls with
  | [] => EmptyString
  | _ => "WHERE " +:+ String.concat " AND " (map where_text cls)
  end.


(** The text handed to [pool.query] by [GET /comp/count]. *)
Definition count_sql (cls : list like_clause) : string :=
  nl +:+ "      SELECT COUNT(*) as count" +:+
  nl +:+ "      FROM " +:+ TABLE_NAME +:+
  nl +:+ "      " +:+ where_sql cls +:+
  nl +:+ "    ".

(** *** What the engine does with such a statement *)

(** The table, in the row order in which the engine meets it when it
    answers a statement. *)
Abbreviation table := (list row).

(** The value of a column in a stored row; a column a row lacks is NULL. *)
Definition cell (r : row) (col : string) : jsval := default JNull (get r col).

Definition satisfies (cls : list like_clause) (r : row) : bool :=
  forallb (fun c => sql_like (lc_value c) (cell r (lc_column c))) cls.

Definition order_leb (col dir : string) (a b : row) : bool :=
  if String.eqb dir "DESC"
  then sql_leb (cell b col) (cell a col)
  else sql_leb (cell a col) (cell b col).

(** [SELECT * ... WHERE ... ORDER BY ... LIMIT ? OFFSET ?].  A [NaN] bound
    to [LIMIT] or [OFFSET] is rejected by the engine: the call throws.  The
    statement orders by one column and nothing else, so rows that tie come
    in the order in which the engine meets them, which is the order of [t]
    for this one statement; what holds of several statements together is
    stated over [server_in], where each has an order of its own. *)
Definition select_page (t : table) (p : comp_plan) : option (list row) :=
  match pl_pageSize p, pl_offset p with
  | Num lim, Num off =>
      Some (take (Z.to_nat lim)
              (drop (Z.to_nat off)
                 (sort_by (order_leb (pl_sortBy p) (pl_sortDir p))
                    (filter (fun r => satisfies (pl_where p) r = true) t))))
  | _, _ => None
  end.

Definition select_count (t : table) (cls : list like_clause) : Z :=
  Z.of_nat (length (filter (fun r => satisfies cls r = true) t)).

(** [app.get("/comp", ...)], for an authenticated request. *)
Definition get_comp (t : table) (q : query) : response (list row) :=
  match select_page t (plan q) with
  | Some rows => Ok rows
  | None => Fail 500 "Failed to fetch comp"
  end.

(** [app.get("/comp/count", ...)], for an authenticated request. *)
Definition get_comp_count (t : table) (q : query) : response Z :=
  Ok (select_count t (buildWhere q)).

(** ** idb.jsx *)

(** The object store [rows] of database [compdb], keyed by [rowKey]. *)
Abbreviation store := (gmap jsval row).

(** [a ?? b] read as "[a] unless it is [undefined] or [null]". *)
Definition nullish (a : option jsval) : option jsval :=
  match a with
  | None | Some JNull => None
  | Some v => Some v
  end.

(** A template hole [${v || d}]. *)
Definition hole_or (v : option jsval) (d : string) : string :=
  match v with
  | Some x => if truthy x then String_ x else d
  | None => d
  end.

Definition makeKey (r : row) (idx : Z) : jsval :=
  match nullish (get r "id") with
  | Some v => v
  | None =>
      match nullish (get r "Folio_Dpid") with
      | Some v => v
      | None =>
          JStr (hole_or (get r "Company_Name") "row" +:+ "-" +:+
                hole_or (get r "Investor_First_Name") EmptyString +:+ "-" +:+
                hole_or (get r "Investor_Last_Name") EmptyString +:+ "-" +:+
                Number_toString idx)
      end
  end.

Definition clearAll (db : store) : store := ∅.

(** The body of the [for] loop of [upsertRows], from index [i] on. *)
Fixpoint upsert_from (i : Z) (rows : list row) (db : store) : store :=
  match rows with
  | [] => db
  | r :: rows' =>
      let k := makeKey r i in
      upsert_from (i + 1) rows' (<[k := set_field r "rowKey" k]> db)
  end.

Definition upsertRows (rows : list row) (db : store) : store :=
  upsert_from 0 rows db.

(** IndexedDB's order on keys: numbers before strings, numbers by value,
    strings by code units. *)
Definition key_leb (a b : jsval) : bool :=
  match a, b with
  | JNum x, JNum y => x <=? y
  | JNum _, _ => true
  | JStr _, JNum _ => false
  | JStr s, JStr t => str_leb s t
  | JStr _, JNull => true
  | JNull, _ => false
  end.

(** The values a cursor opened by [tx.store.openCursor()] walks through. *)
Definition cursor (db : store) : list row :=
  map snd (sort_by (fun a b => key_leb (fst a) (fst b)) (map_to_list db)).

Abbreviation filterset := (list (string * string)).

Fixpoint rowMatches (r : row) (filters : filterset) : bool :=
  match filters with
  | [] => true
  | (k, v) :: rest =>
      if negb (str_truthy v) then rowMatches r rest
      else
        let val := toLowerCase (String_ (nullish_or (get r k) (JStr EmptyString))) in
        if negb (includes val (toLowerCase v)) then false
        else rowMatches r rest
  end.

Definition getCountFromIDB (db : store) (filters : filterset) : Z :=
  foldl (fun count r => if rowMatches r filters then count + 1 else count)
        0 (cursor db).

Record page_request : Type := PageRequest {
  pr_page : Z;
  pr_pageSize : Z;
  pr_sortBy : string;
  pr_sortDir : string;
  pr_filters : filterset
}.

Record page_result : Type := PageResult {
  res_rows : list row;
  res_totalCount : Z
}.

(** The comparator handed to [all.sort]. *)
Definition compare_rows (sortBy sortDir : string) (a b : row) : Z :=
  let va := nullish_or (get a sortBy) (JStr EmptyString) in
  let vb := nullish_or (get b sortBy) (JStr EmptyString) in
  match va, vb with
  | JNum x, JNum y => if String.eqb sortDir "asc" then x - y else y - x
  | _, _ =>
      if String.eqb sortDir "asc"
      then localeCompare (String_ va) (String_ vb)
      else localeCompare (String_ vb) (String_ va)
  end.

(** [all.sort] sorts in place: [sorted] and [all] are the same array, so
    [all.length] is read off the sorted array. *)
Definition getPageFromIDB (db : store) (d : page_request) : page_result :=
  let all :=
    foldl (fun all r => if rowMatches r (pr_filters d) then all ++ [r] else all)
          [] (cursor db) in
  let sorted :=
    sort_by (fun a b => compare_rows (pr_sortBy d) (pr_sortDir d) a b <=? 0) all in
  let start := (pr_page d - 1) * pr_pageSize d in
  let slice := js_slice sorted start (start + pr_pageSize d) in
  PageResult slice (Z.of_nat (length sorted)).

(** ** App.jsx: state, network and the page-load effect *)

Definition BASE_COLS : list string := COLS.

Definition NUMERIC_COLS : list string := ["No_of_Shares"; "Valuation"].

Record controls : Type := Controls {
  filters : filterset;
  debouncedFilters : filterset;
  sortBy : string;
  sortDir : string;
  valuationOrder : string;
  page : Z;
  pageSize : Z;
  offline : bool
}.

Record view : Type := View {
  rows : list row;
  totalCount : Z;
  loading : bool;
  fetchProgress : Z;
  error : string
}.

Record syncbar : Type := SyncBar {
  syncing : bool;
  syncMsg : string;
  syncProgress : Z;
  syncETA : string
}.

Record app_state : Type := AppState {
  ctl : controls;
  vw : view;
  bar : syncbar;
  pageCacheRef : gmap string (list row);
  idb : store
}.

(** What a rejected [await] carries: [e.response.data.error] and
    [e.message]. *)
Record js_error : Type := JsError {
  err_response_error : option string;
  err_message : option string
}.

Inductive outcome (A : Type) : Type :=
| Resolved (a : A)
| Rejected (e : js_error).

#[global] Arguments Resolved {A} a.
#[global] Arguments Rejected {A} e.

(** The two endpoints as the client sees them.  The payloads are
    [data?.count] and [data?.rows] when it is an array. *)
Record remote : Type := Remote {
  remote_count : query -> outcome (option Z);
  remote_comp : query -> outcome (option (list row))
}.

(** axios rejects every response outside 2xx. *)
Definition axios_get {A} (r : response A) : outcome (option A) :=
  match r with
  | Ok d => Resolved (Some d)
  | Fail status err =>
      Rejected (JsError (Some err)
                  (Some ("Request failed with status code " +:+ Number_toString status)))
  end.

(** The backend over table [t], reached with a valid bearer token, with an
    engine that meets the table in the order of [t] for every statement. *)
Definition server (t : table) : remote :=
  Remote (fun q => axios_get (get_comp_count t q))
         (fun q => axios_get (get_comp t q)).

(** [{...base, ...f}]. *)
Definition spread (base : query) (f : filterset) : query :=
  foldl (fun m kv => <[fst kv := snd kv]> m) base f.

Definition effSortDir (c : controls) : string :=
  if (str_truthy (valuationOrder c) && arr_includes NUMERIC_COLS (sortBy c))%bool
  then valuationOrder c
  else sortDir c.

(** [{ page, pageSize, sortBy, sortDir, ...f }]. *)
Definition page_params (pg ps : Z) (sb sd : string) (f : filterset) : query :=
  spread
    (<["sortDir" := sd]>
       (<["sortBy" := sb]>
          (<["pageSize" := Number_toString ps]>
             (<["page" := Number_toString pg]> ∅))))
    f.

(** [{ ...f, sortBy, sortDir }]. *)
Definition count_params (sb sd : string) (f : filterset) : query :=
  <["sortDir" := sd]> (<["sortBy" := sb]> (spread ∅ f)).

Definition cacheKey (c : controls) : string :=
  Number_toString (page c) +:+ "-" +:+ Number_toString (pageSize c) +:+ "-" +:+
  sortBy c +:+ "-" +:+ effSortDir c +:+ "-" +:+ JSON_stringify (debouncedFilters c).

(** [e?.response?.data?.error || e?.message || "Failed to fetch"]. *)
Definition error_text (e : js_error) : string :=
  match err_response_error e with
  | Some m => if str_truthy m then m else
      match err_message e with
      | Some m' => if str_truthy m' then m' else "Failed to fetch"
      | None => "Failed to fetch"
      end
  | None =>
      match err_message e with
      | Some m' => if str_truthy m' then m' else "Failed to fetch"
      | None => "Failed to fetch"
      end
  end.

(** The requests one run of an operation sends. *)
Inductive call : Type :=
| CallCount (q : query)
| CallComp (q : query)
| CallIdbCount (f : filterset)
| CallIdbPage (d : page_request).

(** The [catch] block of the page-load effect, then its [finally]. *)
Definition page_failed (s : app_state) (e : js_error) : app_state :=
  AppState (ctl s) (View [] 0 false 0 (error_text e)) (bar s) (pageCacheRef s) (idb s).

(** The errors IndexedDB raises, if any, when [getCountFromIDB] and when
    [getPageFromIDB] open the database. *)
Record device : Type := Device {
  count_fault : option js_error;
  page_fault : option js_error
}.

(** One run of the page-load effect that is not superseded while it waits
    ([cancelled] stays false), up to the state it leaves behind; the ticks of
    the progress timer in between are not kept. *)
Definition loadPage (net : remote) (dev : device) (s : app_state)
  : app_state * list call :=
  let c := ctl s in
  let key := cacheKey c in
  match (if offline c then None else pageCacheRef s !! key) with
  | Some cached =>
      (AppState c (View cached (totalCount (vw s)) false 100 EmptyString)
         (bar s) (pageCacheRef s) (idb s), [])
  | None =>
      if offline c then
        let d := PageRequest (page c) (pageSize c) (sortBy c) (effSortDir c)
                   (debouncedFilters c) in
        match count_fault dev with
        | Some e => (page_failed s e, [CallIdbCount (debouncedFilters c)])
        | None =>
            let total := getCountFromIDB (idb s) (debouncedFilters c) in
            match page_fault dev with
            | Some e =>
                (page_failed s e, [CallIdbCount (debouncedFilters c); CallIdbPage d])
            | None =>
                let pageRows := res_rows (getPageFromIDB (idb s) d) in
                (AppState c (View pageRows total false 100 EmptyString)
                   (bar s) (pageCacheRef s) (idb s),
                 [CallIdbCount (debouncedFilters c); CallIdbPage d])
            end
        end
      else
        let params :=
          page_params (page c) (pageSize c) (sortBy c) (effSortDir c)
            (debouncedFilters c) in
        match remote_count net params with
        | Rejected e => (page_failed s e, [CallCount params])
        | Resolved count =>
            match remote_comp net params with
            | Rejected e => (page_failed s e, [CallCount params; CallComp params])
            | Resolved data =>
                let rowsData := default [] data in
                (AppState c (View rowsData (default 0 count) false 100 EmptyString)
                   (bar s) (<[key := rowsData]> (pageCacheRef s)) (idb s),
                 [CallCount params; CallComp params])
            end
        end
  end.

(** ** App.jsx: [handleSyncToDevice] *)

Definition bulkSize : Z := 10000.

(** How the [while] loop of an operation is left: past its last statement,
    or by an exception on the way to the [catch] block.  Either way with
    the store as it stands and every batch received so far. *)
Inductive loop_exit : Type :=
| Completed (fetched : Z) (db : store) (batches : list (list row))
| Threw (e : js_error) (fetched : Z) (db : store) (batches : list (list row)).

Fixpoint sync_loop (fuel : nat) (net : remote) (c : controls)
  (total fetched p : Z) (db : store) (batches : list (list row))
  : option loop_exit :=
  match fuel with
  | O => None
  | S fuel' =>
      if fetched <? total then
        match remote_comp net
                (page_params p bulkSize (sortBy c) (effSortDir c) (filters c)) with
        | Rejected e => Some (Threw e fetched db batches)
        | Resolved data =>
            let batch := default [] data in
            let n := Z.of_nat (length batch) in
            if n =? 0 then Some (Completed fetched db (batches ++ [batch]))
            else
              let db' := upsertRows batch db in
              if n <? bulkSize
              then Some (Completed (fetched + n) db' (batches ++ [batch]))
              else sync_loop fuel' net c total (fetched + n) (p + 1) db'
                     (batches ++ [batch])
        end
      else Some (Completed fetched db batches)
  end.

Record sync_report : Type := SyncReport {
  rep_total : Z;
  rep_fetched : Z;
  rep_batches : list (list row)
}.

(** [e?.message || "Unknown error"]. *)
Definition message_or_unknown (e : js_error) : string :=
  match err_message e with
  | Some m => if str_truthy m then m else "Unknown error"
  | None => "Unknown error"
  end.

Definition with_sync (s : app_state) (b : syncbar) (db : store) : app_state :=
  AppState (ctl s) (vw s) b (pageCacheRef s) db.

(** [handleSyncToDevice], with the device's store readable and writable.
    [None] only when [fuel] iterations did not leave the loop. *)
Definition handleSyncToDevice (fuel : nat) (net : remote) (s : app_state)
  : option (app_state * sync_report) :=
  let c := ctl s in
  let db0 := clearAll (idb s) in
  match remote_count net (count_params (sortBy c) (effSortDir c) (filters c)) with
  | Rejected e =>
      Some (with_sync s (SyncBar false ("Sync failed: " +:+ message_or_unknown e) 0 EmptyString) db0,
            SyncReport 0 0 [])
  | Resolved countData =>
      let total := default 0 countData in
      if total =? 0 then
        Some (with_sync s (SyncBar false "Nothing to sync for these filters." 0 EmptyString) db0,
              SyncReport total 0 [])
      else
        match sync_loop fuel net c total 0 1 db0 [] with
        | None => None
        | Some (Completed fetched db batches) =>
            Some (with_sync s
                    (SyncBar false
                       ("Done. Cached " +:+ Number_toString fetched +:+ " rows to your device.")
                       100 EmptyString) db,
                  SyncReport total fetched batches)
        | Some (Threw e fetched db batches) =>
            Some (with_sync s
                    (SyncBar false ("Sync failed: " +:+ message_or_unknown e) 0 EmptyString) db,
                  SyncReport total fetched batches)
        end
  end.

(** ** App.jsx: [handleDownloadExcel] *)

Definition chunk : Z := 2000.

(** A [Set] of strings: insertion order, each element once. *)
Definition set_add (hs : list string) (k : string) : list string :=
  if arr_includes hs k then hs else hs ++ [k].

Definition set_of (l : list string) : list string := foldl set_add [] l.

(** [batch.forEach((r) => Object.keys(r || {}).forEach((k) => headersSeen.add(k)))]. *)
Definition see_headers (headersSeen : list string) (batch : list row) : list string :=
  foldl (fun hs r => foldl set_add hs (keys r)) headersSeen batch.

(** The loop of the offline branch. *)
Fixpoint export_offline_loop (fuel : nat) (db : store) (c : controls)
  (exportTotal got p : Z) (exportRows : list row) : option (list row) :=
  match fuel with
  | O => None
  | S fuel' =>
      if got <? exportTotal then
        let batch :=
          res_rows (getPageFromIDB db
                      (PageRequest p chunk (sortBy c) (effSortDir c) (filters c))) in
        let n := Z.of_nat (length batch) in
        if n =? 0 then Some exportRows
        else if n <? chunk then Some (exportRows ++ batch)
        else export_offline_loop fuel' db c exportTotal (got + n) (p + 1)
               (exportRows ++ batch)
      else Some exportRows
  end.

(** The loop of the server branch: the rows and [headersSeen], or the
    error that ended it. *)
Fixpoint export_remote_loop (fuel : nat) (net : remote) (c : controls)
  (p : Z) (exportRows : list row) (headersSeen : list string)
  : option (outcome (list row * list string)) :=
  match fuel with
  | O => None
  | S fuel' =>
      match remote_comp net
              (page_params p chunk (sortBy c) (effSortDir c) (filters c)) with
      | Rejected e => Some (Rejected e)
      | Resolved data =>
          let batch := default [] data in
          let n := Z.of_nat (length batch) in
          if n =? 0 then Some (Resolved (exportRows, headersSeen))
          else
            let headersSeen' := see_headers headersSeen batch in
            if n <? chunk then Some (Resolved (exportRows ++ batch, headersSeen'))
            else export_remote_loop fuel' net c (p + 1) (exportRows ++ batch) headersSeen'
      end
  end.

(** [headers.forEach((h) => { obj[h] = r?.[h] ?? ""; })]. *)
Definition normalize_row (headers : list string) (r : row) : row :=
  foldl (fun obj h => set_field obj h (nullish_or (get r h) (JStr EmptyString)))
        [] headers.

(** What is handed to the spreadsheet writer: the header row, one object
    per exported row, and the file name. *)
Record export_file : Type := ExportFile {
  exp_headers : list string;
  exp_normalized : list row;
  exp_filename : string
}.

Definition materialize (off : bool) (today : string)
  (exportRows : list row) (headersSeen : list string) : export_file :=
  let headers := set_of (BASE_COLS ++ headersSeen) in
  ExportFile headers (map (normalize_row headers) exportRows)
    ((if off then "comp_offline_" else "comp_filtered_") +:+ today +:+ ".xlsx").

Definition export_done (s : app_state) : app_state :=
  AppState (ctl s)
    (View (rows (vw s)) (totalCount (vw s)) false (fetchProgress (vw s)) (error (vw s)))
    (SyncBar false "Export done" 100 EmptyString)
    (pageCacheRef s) (idb s).

Definition export_failed (s : app_state) : app_state :=
  AppState (ctl s)
    (View (rows (vw s)) (totalCount (vw s)) false (fetchProgress (vw s)) (error (vw s)))
    (SyncBar false "Download failed" 0 EmptyString)
    (pageCacheRef s) (idb s).

(** [handleDownloadExcel], with the device's store readable; [today] is the
    date part of the clock.  The status messages are kept without their
    trailing pictograph.  [None] only when [fuel] iterations did not leave
    the loop; otherwise the state left behind and the file written, if
    any. *)
Definition handleDownloadExcel (fuel : nat) (net : remote) (today : string)
  (s : app_state) : option (app_state * option export_file) :=
  let c := ctl s in
  if offline c then
    let exportTotal := getCountFromIDB (idb s) (filters c) in
    match export_offline_loop fuel (idb s) c exportTotal 0 1 [] with
    | None => None
    | Some exportRows =>
        Some (export_done s,
              Some (materialize true today exportRows (set_of BASE_COLS)))
    end
  else
    match remote_count net (count_params (sortBy c) (effSortDir c) (filters c)) with
    | Rejected e => Some (export_failed s, None)
    | Resolved _ =>
        match export_remote_loop fuel net c 1 [] (set_of BASE_COLS) with
        | None => None
        | Some (Rejected e) => Some (export_failed s, None)
        | Some (Resolved (exportRows, headersSeen)) =>
            Some (export_done s,
                  Some (materialize false today exportRows headersSeen))
        end
    end.

(** ** App.jsx: the initial state and filter edits *)

Definition FILTER_COLS : list string :=
  filter (fun c => c <> "No_of_Shares" /\ c <> "Valuation") BASE_COLS.

(** [FILTER_COLS.reduce((a, k) => ((a[k] = ""), a), {})]. *)
Definition emptyFilters : filterset :=
  map (fun k => (k, EmptyString)) FILTER_COLS.

(** [{ ...p, [k]: v }] on a filter object. *)
Fixpoint assign (f : filterset) (k v : string) : filterset :=
  match f with
  | [] => [(k, v)]
  | (k', v') :: f' =>
      if String.eqb k' k then (k, v) :: f' else (k', v') :: assign f' k v
  end.

(** [setF(k, v)], once the debounce delay has passed. *)
Definition setF (c : controls) (k v : string) : controls :=
  Controls (assign (filters c) k v) (assign (filters c) k v)
    (sortBy c) (sortDir c) (valuationOrder c) 1 (pageSize c) (offline c).

(** The switch between server and device: [setOffline(b); setPage(1)]. *)
Definition setOffline (c : controls) (b : bool) : controls :=
  Controls (filters c) (debouncedFilters c) (sortBy c) (sortDir c)
    (valuationOrder c) 1 (pageSize c) b.

Definition DISPLAY_COLS : list string :=
  filter (fun c => c <> "Folio_Dpid") BASE_COLS.

(** [toggleSort(key)], called from the header cells of [DISPLAY_COLS]. *)
Definition toggleSort (c : controls) (key : string) : controls :=
  let pinned :=
    (arr_includes NUMERIC_COLS key && str_truthy (valuationOrder c))%bool in
  if String.eqb (sortBy c) key then
    Controls (filters c) (debouncedFilters c) (sortBy c)
      (if pinned then sortDir c
       else if String.eqb (sortDir c) "asc" then "desc" else "asc")
      (valuationOrder c) 1 (pageSize c) (offline c)
  else
    Controls (filters c) (debouncedFilters c) key
      (if pinned then sortDir c else "asc")
      (valuationOrder c) 1 (pageSize c) (offline c).

Definition clearSort (c : controls) : controls :=
  Controls (filters c) (debouncedFilters c) "Company_Name" "asc" EmptyString 1
    (pageSize c) (offline c).

(** The state [App] starts in, over whatever the device already holds. *)
Definition initial_state (db : store) : app_state :=
  AppState
    (Controls emptyFilters emptyFilters "Company_Name" "asc" EmptyString 1 20 false)
    (View [] 0 false 0 EmptyString)
    (SyncBar false EmptyString 0 EmptyString)
    ∅ db.

(** ** Sample data *)

Definition acme : row :=
  [("Folio_Dpid", JStr "F1"); ("Company_Name", JStr "Acme")].

Definition acme_unkeyed : row := [("Company_Name", JStr "Acme")].

(** A network that is down. *)
Definition network_error : js_error := JsError None (Some "Network Error").

Definition net_down : remote :=
  Remote (fun _ => Rejected network_error) (fun _ => Rejected network_error).

Definition device_ok : device := Device None None.

(** ** Vocabulary of the statements *)

(** The keys of a filter set are column names, as in [FILTER_COLS]. *)
Definition filter_keys_known (f : filterset) : bool :=
  forallb (fun kv => arr_includes BASE_COLS (fst kv)) f.

(** A valid query descriptor: [page >= 1], [pageSize] in [[1, 10000]],
    filters over known columns. *)
Definition valid_descriptor (d : page_request) : bool :=
  ((1 <=? pr_page d) && (1 <=? pr_pageSize d) && (pr_pageSize d <=? 10000)
   && filter_keys_known (pr_filters d))%bool.


(** Every element goes before, or ties with, its successor. *)
Definition sorted_by {A} (leb : A -> A -> bool) (l : list A) : Prop :=
  forall (i : nat) (a b : A), l !! i = Some a -> l !! S i = Some b -> leb a b = true.

(** The user moves to another descriptor: [setPage], [setF], [toggleSort]
    and the like replace the controls and leave the rest alone. *)
Definition with_ctl (s : app_state) (c : controls) : app_state :=
  AppState c (vw s) (bar s) (pageCacheRef s) (idb s).

(** A run of the page-load effect from state [s] meets error [e]: in the
    count phase or in the data phase, on the server or on the device. *)
Inductive fetch_fails (net : remote) (dev : device) (s : app_state)
  : js_error -> Prop :=
| remote_count_fails (e : js_error) :
    offline (ctl s) = false ->
    pageCacheRef s !! cacheKey (ctl s) = None ->
    remote_count net
      (page_params (page (ctl s)) (pageSize (ctl s)) (sortBy (ctl s))
         (effSortDir (ctl s)) (debouncedFilters (ctl s))) = Rejected e ->
    fetch_fails net dev s e
| remote_data_fails (e : js_error) (count : option Z) :
    offline (ctl s) = false ->
    pageCacheRef s !! cacheKey (ctl s) = None ->
    remote_count net
      (page_params (page (ctl s)) (pageSize (ctl s)) (sortBy (ctl s))
         (effSortDir (ctl s)) (debouncedFilters (ctl s))) = Resolved count ->
    remote_comp net
      (page_params (page (ctl s)) (pageSize (ctl s)) (sortBy (ctl s))
         (effSortDir (ctl s)) (debouncedFilters (ctl s))) = Rejected e ->
    fetch_fails net dev s e
| local_count_fails (e : js_error) :
    offline (ctl s) = true ->
    count_fault dev = Some e ->
    fetch_fails net dev s e
| local_data_fails (e : js_error) :
    offline (ctl s) = true ->
    count_fault dev = None ->
    page_fault dev = Some e ->
    fetch_fails net dev s e.

(** ** The full result of a query, before paging *)

(** Every row of the table that satisfies the clauses of the filters, in the
    order [GET /comp] asks the engine for. *)
Definition remote_view (t : table) (sb sd : string) (f : filterset) : list row :=
  sort_by
    (order_leb (if arr_includes COLS sb then sb else "Company_Name")
               (if String.eqb (toLowerCase sd) "desc" then "DESC" else "ASC"))
    (filter (fun r => satisfies (buildWhere (spread ∅ f)) r = true) t).

(** Every stored row that passes [rowMatches], in the order of the
    comparator of [getPageFromIDB]. *)
Definition local_view (db : store) (sb sd : string) (f : filterset) : list row :=
  sort_by (fun a b => compare_rows sb sd a b <=? 0)
          (filter (fun r => rowMatches r f = true) (cursor db)).

(** The pages [1 .. k]. *)
Definition page_numbers (k : nat) : list Z := seqZ 1 (Z.of_nat k).

(** The record [upsertRows] writes for row [r] found at position [i]. *)
Definition stored (r : row) (i : Z) : row := set_field r "rowKey" (makeKey r i).

(** The row carries a non-null [id] or a non-null [Folio_Dpid]. *)
Definition has_own_key (r : row) : bool :=
  match nullish (get r "id"), nullish (get r "Folio_Dpid") with
  | None, None => false
  | _, _ => true
  end.

(** The requests of one run went to IndexedDB only. *)
Definition local_call (c : call) : bool :=
  match c with
  | CallIdbCount _ | CallIdbPage _ => true
  | CallCount _ | CallComp _ => false
  end.

(** ** An engine that is free in the order of ties *)

(** SQL leaves the order of rows that tie under [ORDER BY] to the engine,
    statement by statement, and [GET /comp] adds no tie-break: what comes
    back is a window of some arrangement of the selected rows that is in
    order.  [server_in ts] is the backend over such an engine.  The
    statement of request [q] is answered over the table in the row order
    [ts q], so two chunks of one run may meet the ties in different orders;
    [server t] is the case of one order for every statement. *)
Definition server_in (ts : query -> table) : remote :=
  Remote (fun q => axios_get (get_comp_count (ts q) q))
         (fun q => axios_get (get_comp (ts q) q)).

(** Every [ts q] holds the rows of [t], in some order. *)
Definition arranges (ts : query -> table) (t : table) : Prop :=
  forall q, ts q ≡ₚ t.

(** No two different rows of [t] that the filters [f] select tie in the
    column by which a request for sort column [sb] is ordered. *)
Definition tie_free (t : table) (sb : string) (f : filterset) : Prop :=
  forall r r',
    r ∈ t -> r' ∈ t ->
    satisfies (buildWhere (spread ∅ f)) r = true ->
    satisfies (buildWhere (spread ∅ f)) r' = true ->
    sql_leb (cell r (if arr_includes COLS sb then sb else "Company_Name"))
            (cell r' (if arr_includes COLS sb then sb else "Company_Name")) = true ->
    sql_leb (cell r' (if arr_includes COLS sb then sb else "Company_Name"))
            (cell r (if arr_includes COLS sb then sb else "Company_Name")) = true ->
    r = r'.

(** The engine's ordering of cell values is total and transitive. *)
Definition total_preorder : Prop :=
  (forall a b, sql_leb a b = true \/ sql_leb b a = true)
  /\ (forall a b c, sql_leb a b = true -> sql_leb b c = true -> sql_leb a c = true).

(** ** App.jsx: column aliases, page arithmetic and the pager *)

Definition COL_KEYS : list (string * list string) :=
  [ ("Investor_First_Name", ["Investor_First_Name"]);
    ("Investor_Middle_Name", ["Investor_Middle_Name"]);
    ("Investor_Last_Name", ["Investor_Last_Name"]);
    ("Father_or_Husband_First Name",
     ["Father_or_Husband_First Name"; "Father_or_Husband_First_Name"]);
    ("Father_or_Husband_Middle_Name", ["Father_or_Husband_Middle_Name"]);
    ("Father_or_Husband_Last_Name", ["Father_or_Husband_Last_Name"]);
    ("Address", ["Address"]);
    ("Folio_Dpid", ["Folio_Dpid"]);
    ("Company_Name", ["Company_Name"]);
    ("No_of_Shares", ["No_of_Shares"; "No_of_share"; "no_of_shares"; "NO_OF_SHARES"]);
    ("Valuation", ["Valuation"; "Valutation"; "valuation"; "valutation"; "VALUATION"]);
    ("Case", ["Case"; "case"; "CASE"]) ].

(** [COL_KEYS[col]], for the own properties of the object. *)
Fixpoint alist_get {A} (l : list (string * A)) (k : string) : option A :=
  match l with
  | [] => None
  | (k', v) :: l' => if String.eqb k' k then Some v else alist_get l' k
  end.

(** The loop of [valueOf]: the first key under which the row holds
    something other than [undefined] and [null]. *)
Fixpoint first_present (r : row) (ks : list string) : jsval :=
  match ks with
  | [] => JStr EmptyString
  | k :: ks' =>
      match nullish (get r k) with
      | Some v => v
      | None => first_present r ks'
      end
  end.

Definition valueOf (r : row) (col : string) : jsval :=
  first_present r (default [col] (alist_get COL_KEYS col)).

(** [Math.ceil(a / b)] for integers [a] and [b > 0]. *)
Definition ceil_div (a b : Z) : Z := - ((- a) / b).

(** [Math.max(1, Math.ceil(totalCount / pageSize))], for the page sizes the
    selector offers (all positive). *)
Definition totalPages (count ps : Z) : Z := Z.max 1 (ceil_div count ps).

(** [Math.min(page, totalPages)]. *)
Definition curPage (pg tp : Z) : Z := Z.min pg tp.

(** The effect [if (page > totalPages) setPage(totalPages)]. *)
Definition clamp_page (pg tp : Z) : Z := if tp <? pg then tp else pg.

Inductive pager_item : Type :=
| PrevBtn (disabled : bool)
| PageBtn (n : Z) (active : bool)
| EllipsisItem
| NextBtn (disabled : bool).

Definition windowSize : Z := 7.

(** [startN] and [endN] of the number window. *)
Definition pager_window (tp cur : Z) : Z * Z :=
  let startN := Z.max 1 (cur - 3) in
  let endN := Z.min tp (startN + windowSize - 1) in
  let startN :=
    if endN - startN <? windowSize - 1 then Z.max 1 (endN - windowSize + 1)
    else startN in
  (startN, endN).

(** The [items] array of [Pager]. *)
Definition Pager (tp cur : Z) : list pager_item :=
  let '(startN, endN) := pager_window tp cur in
  [PrevBtn (cur =? 1)]
  ++ (if 1 <? startN
      then PageBtn 1 (cur =? 1) :: (if 2 <? startN then [EllipsisItem] else [])
      else [])
  ++ map (fun n => PageBtn n (cur =? n)) (seqZ startN (endN - startN + 1))
  ++ (if endN <? tp
      then (if endN <? tp - 1 then [EllipsisItem] else [])
           ++ [PageBtn tp (cur =? tp)]
      else [])
  ++ [NextBtn (cur =? tp)].

(** The page after a click on an item; a disabled button does nothing. *)
Definition click (tp : Z) (it : pager_item) (pg : Z) : Z :=
  match it with
  | PrevBtn disabled => if disabled then pg else Z.max 1 (pg - 1)
  | PageBtn n _ => n
  | EllipsisItem => pg
  | NextBtn disabled => if disabled then pg else Z.min tp (pg + 1)
  end.

(** [handleJump] on the text of the "Go to" field. *)
Definition handleJump (tp : Z) (input : string) (pg : Z) : Z :=
  match parseInt input with
  | Num num => if ((1 <=? num) && (num <=? tp))%bool then num else pg
  | NaN => pg
  end.

(** The page numbers on the buttons of the pager. *)
Definition page_buttons (items : list pager_item) : list Z :=
  omap (fun it => match it with PageBtn n _ => Some n | _ => None end) items.

(** ** Backend/index.js: users, tokens and the account endpoints *)

(** The libraries behind the account endpoints: the equality of the
    collation of [users.email], bcrypt, and jsonwebtoken under [JWT_SECRET]
    at the time of the call ([jwt_verify] gives [None] where
    [jwt.verify] throws). *)
Variable email_eq : string -> string -> bool.
Variable bcrypt_hash : string -> string -> string.
Variable bcrypt_compare : string -> string -> bool.

(** What a token carries, as far as the endpoints read it. *)
Record payload : Type := Payload {
  tk_action : option string;
  tk_userId : option Z;
  tk_uid : option Z;
  tk_email : option string;
  tk_role : option string
}.

Variable jwt_sign : payload -> string -> string.
Variable jwt_verify : string -> option payload.

Definition ADMIN_EMAIL : string := "saurabh@thewealthfinder.in".

Definition signJWT (p : payload) (expiresIn : string) : string := jwt_sign p expiresIn.

Definition verifyJWT (token : string) : option payload := jwt_verify token.

(** Two texts of equal length whose letters agree up to case. *)
Fixpoint ci_equal (s t : string) : bool :=
  match s, t with
  | EmptyString, EmptyString => true
  | String a s', String b t' =>
      (Ascii.eqb (lower_ascii a) (lower_ascii b) && ci_equal s' t')%bool
  | _, _ => false
  end.

(** [/pat$/i.test(s)] for a pattern of literal characters: some suffix of
    [s] is the pattern up to case. *)
Fixpoint matches_at_end (s pat : string) : bool :=
  (ci_equal s pat ||
   match s with
   | EmptyString => false
   | String _ s' => matches_at_end s' pat
   end)%bool.

(** A body or query field: [None] when absent. *)
Definition field_truthy (x : option string) : bool :=
  match x with
  | Some v => str_truthy v
  | None => false
  end.

(** [/@thewealthfinder\.in$/i.test(String(email || "").trim())]. *)
Definition isAllowedDomain (email : option string) : bool :=
  matches_at_end (trim (default EmptyString email)) "@thewealthfinder.in".

(** A row of table [users]. *)
Record user : Type := User {
  u_id : Z;
  u_name : string;
  u_email : string;
  u_password_hash : string;
  u_status : string
}.

(** Table [users] in row order, with its AUTO_INCREMENT counter. *)
Record userdb : Type := UserDb {
  users : list user;
  next_id : Z
}.

(** [SELECT ... FROM users WHERE email = ?]. *)
Definition users_by_email (db : userdb) (email : string) : list user :=
  filter (fun u => email_eq (u_email u) email = true) (users db).

(** [SELECT ... FROM users WHERE id = ?]; an [undefined] parameter is sent
    as NULL and selects nothing. *)
Definition users_by_id (db : userdb) (id : option Z) : list user :=
  match id with
  | Some i => filter (fun u => u_id u = i) (users db)
  | None => []
  end.

(** [UPDATE users SET status=... WHERE id=?]. *)
Definition set_status (db : userdb) (id : option Z) (status : string) : userdb :=
  match id with
  | Some i =>
      UserDb (map (fun u => if u_id u =? i
                            then User (u_id u) (u_name u) (u_email u) (u_password_hash u) status
                            else u) (users db))
             (next_id db)
  | None => db
  end.

(** [UPDATE users SET password_hash=? WHERE id=?]. *)
Definition set_password_hash (db : userdb) (id : Z) (h : string) : userdb :=
  UserDb (map (fun u => if u_id u =? id
                        then User (u_id u) (u_name u) (u_email u) h (u_status u)
                        else u) (users db))
         (next_id db).

(** [INSERT INTO users (name, email, password_hash, status) VALUES
    (?,?,?, 'pending')] and its [insertId]. *)
Definition insert_user (db : userdb) (name email h : string) : userdb * Z :=
  (UserDb (users db ++ [User (next_id db) name email h "pending"]) (next_id db + 1),
   next_id db).

(** [DELETE FROM users WHERE id = ?]. *)
Definition delete_user (db : userdb) (id : Z) : userdb :=
  UserDb (filter (fun u => u_id u <> id) (users db)) (next_id db).

(** A message handed to the mailer: recipient, subject and the links of its
    body. *)
Record mail : Type := Mail {
  m_to : string;
  m_subject : string;
  m_links : list string
}.

(** A [POST /signup] request: the three body fields, the public base URL
    of [getPublicBaseUrl(req)], the salt bcrypt draws, and whether the mailer
    accepts the message. *)
Record signup_request : Type := SignupRequest {
  su_name : option string;
  su_email : option string;
  su_password : option string;
  su_base : string;
  su_salt : string;
  su_mail_ok : bool
}.

(** The widths of [name VARCHAR(100)] and [email VARCHAR(150)] in the table
    of [ensureUsersTable]: in the strict SQL mode that the server starts in,
    an INSERT of a longer text is refused.  (A bcrypt hash is 60 characters,
    inside [VARCHAR(255)].) *)
Definition fits_columns (name email : string) : bool :=
  ((Z.of_nat (String.length name) <=? 100)
   && (Z.of_nat (String.length email) <=? 150))%bool.

Definition approve_token (userId : Z) : string :=
  signJWT (Payload (Some "approve") (Some userId) None None None) "3d".

Definition remove_token (userId : Z) : string :=
  signJWT (Payload (Some "remove") (Some userId) None None None) "3d".

(** [app.post("/signup", ...)]: the table afterwards, the response and the
    mail sent. *)
Definition post_signup (db : userdb) (rq : signup_request)
  : userdb * response string * list mail :=
  match su_name rq, su_email rq, su_password rq with
  | Some name, Some email, Some password =>
      if negb (str_truthy name && str_truthy email && str_truthy password)%bool
      then (db, Fail 400 "Missing name/email/password", [])
      else if negb (isAllowedDomain (Some email))
      then (db, Fail 400 "Only company emails ending with @thewealthfinder.in are allowed", [])
      else
        match users_by_email db email with
        | _ :: _ => (db, Fail 409 "Email already registered", [])
        | [] =>
            let password_hash := bcrypt_hash (su_salt rq) password in
            if negb (fits_columns name email)
            then (db, Fail 500 "Signup failed", [])
            else
            let '(db', userId) := insert_user db name email password_hash in
            let approveUrl := su_base rq +:+ "/approve?token=" +:+ approve_token userId in
            let removeUrl := su_base rq +:+ "/remove?token=" +:+ remove_token userId in
            (db', Ok "Signup received. Awaiting admin approval.",
             if su_mail_ok rq
             then [Mail ADMIN_EMAIL
                     ("New User Signup Pending Approval: " +:+ name +:+ " <" +:+ email +:+ ">")
                     [approveUrl; removeUrl]]
             else [])
        end
  | _, _, _ => (db, Fail 400 "Missing name/email/password", [])
  end.

Definition role_of (email : string) : string :=
  if String.eqb email ADMIN_EMAIL then "admin" else "user".

(** [app.post("/login", ...)]: the token and the role, or the refusal. *)
Definition post_login (db : userdb) (email password : option string)
  : response (string * string) :=
  match email, password with
  | Some email, Some password =>
      if negb (str_truthy email && str_truthy password)%bool
      then Fail 400 "Missing email/password"
      else
        match users_by_email db email with
        | [] => Fail 401 "Invalid credentials"
        | u :: _ =>
            if negb (bcrypt_compare password (u_password_hash u))
            then Fail 401 "Invalid credentials"
            else if negb (String.eqb (u_status u) "active")
            then Fail 403 "Account pending approval or removed"
            else
              let role := role_of (u_email u) in
              Ok (signJWT (Payload None None (Some (u_id u)) (Some (u_email u)) (Some role)) "1d",
                  role)
        end
  | _, _ => Fail 400 "Missing email/password"
  end.

(** [app.get("/approve", ...)] and [app.get("/remove", ...)]: the one-click
    links of the signup mail (the texts sent back are kept without their
    pictographs). *)
Definition get_approve (db : userdb) (token : option string) : userdb * response string :=
  match token with
  | Some tok =>
      match verifyJWT tok with
      | Some p =>
          if negb (match tk_action p with Some a => String.eqb a "approve" | None => false end)
          then (db, Fail 400 "Invalid or expired approval link.")
          else (set_status db (tk_userId p) "active",
                Ok "User approved. They can log in now.")
      | None => (db, Fail 400 "Invalid or expired approval link.")
      end
  | None => (db, Fail 400 "Invalid or expired approval link.")
  end.

Definition get_remove (db : userdb) (token : option string) : userdb * response string :=
  match token with
  | Some tok =>
      match verifyJWT tok with
      | Some p =>
          if negb (match tk_action p with Some a => String.eqb a "remove" | None => false end)
          then (db, Fail 400 "Invalid or expired removal link.")
          else (set_status db (tk_userId p) "removed", Ok "User removed.")
      | None => (db, Fail 400 "Invalid or expired removal link.")
      end
  | None => (db, Fail 400 "Invalid or expired removal link.")
  end.

(** The message of [sendResetEmail]; [front] is the front-end base URL. *)
Definition reset_mail (userId : Z) (email front : string) : mail :=
  Mail email "Reset your password"
    [front +:+ "/?resetToken=" +:+
     signJWT (Payload (Some "reset") None (Some userId) None None) "30m"].

(** [app.post("/password/forgot", ...)]. *)
Definition post_password_forgot (db : userdb) (email : option string)
  (front : string) (mail_ok : bool) : response unit * list mail :=
  match email with
  | Some email =>
      if negb (str_truthy email) then (Fail 400 "Email required", [])
      else
        match users_by_email db email with
        | [] => (Ok tt, [])
        | u :: _ =>
            if String.eqb (u_status u) "removed" then (Ok tt, [])
            else if mail_ok then (Ok tt, [reset_mail (u_id u) email front])
            else (Fail 500 "Failed to start reset", [])
        end
  | None => (Fail 400 "Email required", [])
  end.

(** [app.post("/password/reset", ...)]. *)
Definition post_password_reset (db : userdb) (token newPassword : option string)
  (salt : string) : userdb * response unit :=
  match token, newPassword with
  | Some tok, Some newPassword =>
      if negb (str_truthy tok && str_truthy newPassword)%bool
      then (db, Fail 400 "Missing token/newPassword")
      else
        match verifyJWT tok with
        | Some p =>
            match tk_action p, tk_uid p with
            | Some a, Some uid =>
                if (String.eqb a "reset" && negb (uid =? 0))%bool
                then (set_password_hash db uid (bcrypt_hash salt newPassword), Ok tt)
                else (db, Fail 400 "Invalid or expired token")
            | _, _ => (db, Fail 400 "Invalid or expired token")
            end
        | None => (db, Fail 400 "Invalid or expired token")
        end
  | _, _ => (db, Fail 400 "Missing token/newPassword")
  end.

(** [req.user] as [requireAuth] sets it. *)
Record req_user : Type := ReqUser {
  ru_uid : Z;
  ru_email : string;
  ru_role : string;
  ru_status : string
}.

(** [hdr.startsWith("Bearer ") ? hdr.slice(7) : null]. *)
Definition bearer_token (hdr : string) : option string :=
  if startsWith hdr "Bearer " then Some (String.substring 7 (String.length hdr - 7) hdr)
  else None.

(** [requireAuth]: [Ok] is the call of [next()]. *)
Definition requireAuth (db : userdb) (authorization : option string) : response req_user :=
  match bearer_token (default EmptyString authorization) with
  | Some token =>
      if negb (str_truthy token) then Fail 401 "Unauthorized"
      else
        match verifyJWT token with
        | Some p =>
            match users_by_id db (tk_uid p) with
            | [] => Fail 401 "User no longer exists"
            | u :: _ =>
                if negb (String.eqb (u_status u) "active")
                then Fail 403 "Account not active"
                else Ok (ReqUser (u_id u) (u_email u) (role_of (u_email u)) (u_status u))
            end
        | None => Fail 401 "Unauthorized"
        end
  | None => Fail 401 "Unauthorized"
  end.

(** [requireAdmin], after [requireAuth]. *)
Definition requireAdmin (ru : req_user) : response unit :=
  if String.eqb (ru_role ru) "admin" then Ok tt else Fail 403 "Forbidden".

(** [app.post("/admin/delete/:id", requireAuth, requireAdmin, ...)], for an
    [:id] that [Number] reads as the integer [id]. *)
Definition post_admin_delete (db : userdb) (authorization : option string) (id : Z)
  : userdb * response unit :=
  match requireAuth db authorization with
  | Fail st e => (db, Fail st e)
  | Ok ru =>
      match requireAdmin ru with
      | Fail st e => (db, Fail st e)
      | Ok _ =>
          match users_by_id db (Some id) with
          | [] => (db, Fail 404 "User not found")
          | u :: _ =>
              if String.eqb (u_email u) ADMIN_EMAIL
              then (db, Fail 400 "Cannot delete the primary admin account")
              else (delete_user db id, Ok tt)
          end
      end
  end.

(** The ids of table [users] are pairwise different and below the
    counter. *)
Definition users_wf (db : userdb) : Prop :=
  NoDup (map u_id (users db)) /\ Forall (fun u => u_id u < next_id db) (users db).

(** ** More sample data *)

Definition beta : row :=
  [("Folio_Dpid", JStr "F2"); ("Company_Name", JStr "Beta")].

Definition two_rows : table := [acme; beta].

Definition zeta : row :=
  [("Folio_Dpid", JStr "F0"); ("Company_Name", JStr "Zeta")].

(** An engine that meets the table backwards when it answers the first page
    of a request, and forwards for every other statement. *)
Definition backwards_on_first_page (q : query) : table :=
  if bool_decide (q !! "page" = Some "1") then reverse two_rows else two_rows.

(** The device after the two rows were synced, and the app switched to it. *)
Definition device_state : app_state :=
  with_ctl (initial_state (upsertRows two_rows ∅)) (setOffline (ctl (initial_state ∅)) true).

(** A collation that ignores letter case, a bcrypt with the salt in front,
    and a token service that has issued five tokens. *)
Definition email_eq_ci (a b : string) : bool :=
  String.eqb (toLowerCase a) (toLowerCase b).

Definition toy_hash (salt password : string) : string := salt +:+ "$" +:+ password.

Definition toy_compare (password h : string) : bool :=
  String.eqb h (toy_hash "salt" password).

Definition toy_sign (p : payload) (expiresIn : string) : string :=
  default "login" (tk_action p) +:+ "." +:+
  Number_toString (default 0 (match tk_userId p with
                              | Some i => Some i
                              | None => tk_uid p
                              end)).

Definition toy_verify (tok : string) : option payload :=
  if String.eqb tok "approve.1" then Some (Payload (Some "approve") (Some 1) None None None)
  else if String.eqb tok "remove.1" then Some (Payload (Some "remove") (Some 1) None None None)
  else if String.eqb tok "reset.1" then Some (Payload (Some "reset") None (Some 1) None None)
  else if String.eqb tok "login.1" then Some (Payload None None (Some 1) None None)
  else if String.eqb tok "login.2" then Some (Payload None None (Some 2) None None)
  else None.

(** A table with the admin and one more active account. *)
Definition two_users : userdb :=
  UserDb [User 1 "Saurabh" ADMIN_EMAIL (toy_hash "salt" "root") "active";
          User 2 "Asha" "asha@thewealthfinder.in" (toy_hash "salt" "pw") "active"]
         3.

(** * Properties *)

(** ** Lists, sorting and slicing *)

Lemma length_insert_by {A} (leb : A -> A -> bool) x l :
  length (insert_by leb x l) = S (length l).
Proof.
  induction l as [|y l IH]; simpl; [reflexivity|].
  destruct (leb x y); simpl; [reflexivity | now rewrite IH].
Qed.

Lemma length_sort_by {A} (leb : A -> A -> bool) l :
  length (sort_by leb l) = length l.
Proof.
  unfold sort_by. induction l as [|x l IH]; simpl; [reflexivity|].
  now rewrite length_insert_by, IH.
Qed.

Lemma insert_by_Permutation {A} (leb : A -> A -> bool) x l :
  insert_by leb x l ≡ₚ x :: l.
Proof.
  induction l as [|y l IH]; simpl; [reflexivity|].
  destruct (leb x y); [reflexivity|].
  rewrite IH. apply Permutation_swap.
Qed.

Lemma sort_by_Permutation {A} (leb : A -> A -> bool) l :
  sort_by leb l ≡ₚ l.
Proof.
  unfold sort_by. induction l as [|x l IH]; simpl; [reflexivity|].
  rewrite insert_by_Permutation. now constructor.
Qed.

Lemma length_js_slice {A} (l : list A) (s n : Z) :
  0 <= n -> Z.of_nat (length (js_slice l s (s + n))) <= n.
Proof.
  intros Hn. unfold js_slice. rewrite length_take.
  set (len := Z.of_nat (length l)).
  assert (0 <= len) by (unfold len; lia).
  destruct (s <? 0) eqn:Hs, (s + n <? 0) eqn:He; lia.
Qed.

Lemma foldl_count {A} (P : A -> bool) (l : list A) (a : Z) :
  foldl (fun count r => if P r then count + 1 else count) a l
  = a + Z.of_nat (length (filter (fun r => P r = true) l)).
Proof.
  revert a; induction l as [|x l IH]; intros a; simpl; [lia|].
  rewrite IH, filter_cons. destruct (P x) eqn:Hx.
  - rewrite decide_True by reflexivity. simpl. lia.
  - rewrite decide_False by discriminate. lia.
Qed.

Lemma foldl_push {A} (P : A -> bool) (l acc : list A) :
  foldl (fun all r => if P r then all ++ [r] else all) acc l
  = acc ++ filter (fun r => P r = true) l.
Proof.
  revert acc; induction l as [|x l IH]; intros acc; simpl.
  - now rewrite app_nil_r.
  - rewrite IH, filter_cons. destruct (P x) eqn:Hx.
    + rewrite decide_True by reflexivity. now rewrite <- app_assoc.
    + now rewrite decide_False by discriminate.
Qed.

Lemma length_filter_snd {K A} (P : A -> bool) (l : list (K * A)) :
  length (filter (fun r => P r = true) (map snd l))
  = length (filter (fun kv => P (snd kv) = true) l).
Proof.
  induction l as [|[k x] l IH]; simpl; [reflexivity|].
  rewrite !filter_cons. simpl. destruct (P x) eqn:Hx.
  - rewrite !decide_True by reflexivity. simpl. now rewrite IH.
  - rewrite !decide_False by discriminate. exact IH.
Qed.

(** ** The local cache store *)

Lemma cursor_length_filter (db : store) (P : row -> bool) :
  length (filter (fun r => P r = true) (cursor db))
  = length (filter (fun kv => P (snd kv) = true) (map_to_list db)).
Proof.
  unfold cursor. rewrite length_filter_snd.
  apply Permutation_length. apply filter_Permutation, sort_by_Permutation.
Qed.

(** C10.  For every store and every page request, the [totalCount] that
    [getPageFromIDB] returns is the value [getCountFromIDB] returns for the
    same filters, and both are the number of stored rows that satisfy
    [rowMatches], whatever the page, page size and sort parameters. *)
Theorem getPageFromIDB_totalCount_is_count (db : store) (d : page_request) :
  res_totalCount (getPageFromIDB db d) = getCountFromIDB db (pr_filters d)
  /\ getCountFromIDB db (pr_filters d)
     = Z.of_nat (length (filter (fun kv => rowMatches (snd kv) (pr_filters d) = true)
                           (map_to_list db))).
Proof.
  unfold getPageFromIDB, getCountFromIDB; simpl.
  rewrite length_sort_by, foldl_push, foldl_count; simpl.
  rewrite cursor_length_filter. split; lia.
Qed.

Lemma upsert_from_lookup (batch : list row) (i : Z) (db : store) (k : jsval) :
  upsert_from i batch db !! k
  = match upsert_from i batch ∅ !! k with
    | Some v => Some v
    | None => db !! k
    end.
Proof.
  revert i db; induction batch as [|r batch IH]; intros i db; simpl.
  - now rewrite lookup_empty.
  - rewrite IH. rewrite (IH _ (<[_ := _]> ∅)).
    destruct (upsert_from (i + 1) batch ∅ !! k); [reflexivity|].
    destruct (decide (makeKey r i = k)) as [->|Hne].
    + now rewrite !lookup_insert_eq.
    + now rewrite !lookup_insert_ne, lookup_empty by assumption.
Qed.

(** C6.  [upsertRows] is idempotent: for every batch and every prior state
    of the store, applying the batch twice in a row leaves exactly the store
    that applying it once leaves. *)
Theorem upsertRows_idempotent (batch : list row) (db : store) :
  upsertRows batch (upsertRows batch db) = upsertRows batch db.
Proof.
  apply map_eq; intros k. unfold upsertRows.
  rewrite upsert_from_lookup. rewrite (upsert_from_lookup batch 0 db).
  now destruct (upsert_from 0 batch ∅ !! k).
Qed.

(** C7, as the code has it.  Two derivations of the Row Key of one row
    agree whenever the row carries a non-null [id] or a non-null
    [Folio_Dpid] (the key is then that field, whatever the positions) or the
    two ordinal positions are equal. *)
Theorem makeKey_stable (r : row) (i j : Z) :
  nullish (get r "id") <> None \/ nullish (get r "Folio_Dpid") <> None \/ i = j ->
  makeKey r i = makeKey r j.
Proof.
  unfold makeKey. intros [H|[H|H]].
  - destruct (nullish (get r "id")); [reflexivity | contradiction].
  - destruct (nullish (get r "id")); [reflexivity|].
    destruct (nullish (get r "Folio_Dpid")); [reflexivity | contradiction].
  - now subst.
Qed.


(** ** Numbers on the wire: [String(n)] then [parseInt] *)

Ltac eval_digit :=
  repeat match goal with
  | |- context [Z.of_nat (nat_of_ascii ?c)] =>
      let v := eval vm_compute in (Z.of_nat (nat_of_ascii c)) in
      change (Z.of_nat (nat_of_ascii c)) with v
  end.

Lemma digits_acc_uint (d : Decimal.uint) (acc : positive) :
  digits_acc (NilEmpty.string_of_uint d) (Some (Zpos acc))
  = Some (Zpos (Pos.of_uint_acc d acc)).
Proof.
  revert acc; induction d; intros acc; simpl; [reflexivity | ..];
    rewrite <- IHd; do 2 f_equal; eval_digit; lia.
Qed.

Lemma digits_acc_uint_zero (d : Decimal.uint) :
  digits_acc (NilEmpty.string_of_uint d) (Some 0) = Some (Z.of_N (Pos.of_uint d)).
Proof.
  induction d; simpl; [reflexivity | exact IHd | ..];
    rewrite <- digits_acc_uint; reflexivity.
Qed.

Lemma digits_acc_uint_start (d : Decimal.uint) :
  d <> Decimal.Nil ->
  digits_acc (NilEmpty.string_of_uint d) None = Some (Z.of_N (Pos.of_uint d)).
Proof.
  destruct d; intros Hd; [contradiction | ..]; simpl;
    [apply digits_acc_uint_zero | rewrite <- digits_acc_uint; reflexivity ..].
Qed.

Lemma parseInt_uint (d : Decimal.uint) :
  d <> Decimal.Nil ->
  parseInt (NilEmpty.string_of_uint d) = Num (Z.of_N (Pos.of_uint d)).
Proof.
  intros Hd. pose proof (digits_acc_uint_start d Hd) as H.
  destruct d; [contradiction | ..]; unfold parseInt; simpl trimStart;
    cbv iota beta; simpl NilEmpty.string_of_uint in H; now rewrite H.
Qed.

Lemma parseInt_Number_toString (z : Z) :
  0 <= z -> parseInt (Number_toString z) = Num z.
Proof.
  intros Hz. destruct z as [|p|p]; [reflexivity | | lia].
  unfold Number_toString. simpl Z.to_int.
  pose proof (DecimalPos.Unsigned.to_uint_nonnil p) as Hn.
  unfold NilZero.string_of_int, NilZero.string_of_uint.
  destruct (Pos.to_uint p) eqn:E; [contradiction | ..];
    rewrite <- E; (rewrite parseInt_uint by (rewrite E; discriminate));
    now rewrite DecimalPos.Unsigned.of_to.
Qed.

(** ** Requests as the client builds them and the server reads them *)

Lemma arr_includes_elem (l : list string) (k : string) :
  arr_includes l k = true <-> k ∈ l.
Proof.
  unfold arr_includes. induction l as [|x l IH]; simpl.
  - split; [discriminate | intros H; inversion H].
  - rewrite orb_true_iff, IH, elem_of_cons, String.eqb_eq. reflexivity.
Qed.

Lemma COLS_not_reserved (k : string) :
  k ∈ COLS -> k <> "page" /\ k <> "pageSize" /\ k <> "sortBy" /\ k <> "sortDir".
Proof.
  unfold COLS. intros H.
  repeat (apply elem_of_cons in H as [->|H]; [repeat split; discriminate|]).
  inversion H.
Qed.

Lemma spread_lookup_agree (b1 b2 : query) (f : filterset) (k : string) :
  b1 !! k = b2 !! k -> spread b1 f !! k = spread b2 f !! k.
Proof.
  unfold spread. revert b1 b2; induction f as [|[k' v] f IH]; intros b1 b2 H; simpl.
  - exact H.
  - apply IH. destruct (decide (k' = k)) as [->|Hne].
    + now rewrite !lookup_insert_eq.
    + now rewrite !lookup_insert_ne by assumption.
Qed.

Lemma spread_lookup_other (base : query) (f : filterset) (k : string) :
  Forall (fun kv => fst kv <> k) f -> spread base f !! k = base !! k.
Proof.
  unfold spread. revert base; induction f as [|[k' v] f IH]; intros base H; simpl.
  - reflexivity.
  - inversion H as [|? ? Hk Hf]; subst. rewrite IH by assumption.
    now apply lookup_insert_ne.
Qed.

Lemma filter_keys_known_Forall (f : filterset) (k : string) :
  filter_keys_known f = true -> k ∉ COLS -> Forall (fun kv => fst kv <> k) f.
Proof.
  unfold filter_keys_known. intros H Hk. apply Forall_forall. intros kv Hin Heq.
  rewrite forallb_forall in H. apply Hk, arr_includes_elem. rewrite <- Heq.
  apply H. now apply list_elem_of_In.
Qed.

Lemma foldl_ext_elem {A B} (f g : A -> B -> A) (l : list B) (a : A) :
  (forall acc x, x ∈ l -> f acc x = g acc x) -> foldl f a l = foldl g a l.
Proof.
  revert a; induction l as [|x l IH]; intros a H; simpl; [reflexivity|].
  rewrite H by constructor. apply IH. intros acc y Hy. apply H. now constructor.
Qed.

Lemma buildWhere_ext (q q' : query) :
  (forall key, key ∈ COLS -> q !! key = q' !! key) -> buildWhere q = buildWhere q'.
Proof.
  intros H. unfold buildWhere. apply foldl_ext_elem. intros acc key Hk.
  now rewrite (H key Hk).
Qed.

Lemma buildWhere_page_params pg ps sb sd (f : filterset) :
  buildWhere (page_params pg ps sb sd f) = buildWhere (spread ∅ f).
Proof.
  apply buildWhere_ext. intros key Hk.
  destruct (COLS_not_reserved key Hk) as (H1 & H2 & H3 & H4).
  unfold page_params. apply spread_lookup_agree.
  now rewrite !lookup_insert_ne, lookup_empty by congruence.
Qed.

Lemma buildWhere_count_params sb sd (f : filterset) :
  buildWhere (count_params sb sd f) = buildWhere (spread ∅ f).
Proof.
  apply buildWhere_ext. intros key Hk.
  destruct (COLS_not_reserved key Hk) as (H1 & H2 & H3 & H4).
  unfold count_params. now rewrite !lookup_insert_ne by congruence.
Qed.

Lemma page_params_numbers pg ps sb sd (f : filterset) :
  filter_keys_known f = true ->
  page_params pg ps sb sd f !! "page" = Some (Number_toString pg)
  /\ page_params pg ps sb sd f !! "pageSize" = Some (Number_toString ps).
Proof.
  intros Hf. unfold page_params. split.
  - rewrite spread_lookup_other.
    + now rewrite !lookup_insert_ne, lookup_insert_eq by discriminate.
    + apply filter_keys_known_Forall; [assumption|].
      intros H. now destruct (COLS_not_reserved _ H) as (? & ? & ? & ?).
  - rewrite spread_lookup_other.
    + now rewrite !lookup_insert_ne, lookup_insert_eq by discriminate.
    + apply filter_keys_known_Forall; [assumption|].
      intros H. now destruct (COLS_not_reserved _ H) as (? & ? & ? & ?).
Qed.

(** The page a well-formed client request selects. *)
Lemma select_page_params (t : table) pg ps sb sd (f : filterset) :
  filter_keys_known f = true -> 1 <= pg -> 1 <= ps <= 10000 ->
  exists col dir,
    select_page t (plan (page_params pg ps sb sd f))
    = Some (take (Z.to_nat ps)
              (drop (Z.to_nat ((pg - 1) * ps))
                 (sort_by (order_leb col dir)
                    (filter (fun r => satisfies (buildWhere (spread ∅ f)) r = true) t)))).
Proof.
  intros Hf Hpg Hps.
  destruct (page_params_numbers pg ps sb sd f Hf) as [Hp Hs].
  unfold select_page, plan. cbn [pl_pageSize pl_offset pl_sortBy pl_sortDir pl_where].
  rewrite Hp, Hs. cbn [from_option]. unfold id.
  rewrite !parseInt_Number_toString by lia.
  cbn [Math_max Math_min num_sub num_mul].
  rewrite buildWhere_page_params.
  replace (Z.min (Z.max ps 1) 10000) with ps by lia.
  replace (Z.max pg 1) with pg by lia.
  eexists _, _. reflexivity.
Qed.

(** C3.  For every valid query descriptor, the page either adapter returns
    has at most [pageSize] rows: the backend answers the client's request
    with such a page, and so does [getPageFromIDB]. *)
Theorem fetchPage_length_le_pageSize (t : table) (db : store) (d : page_request) :
  valid_descriptor d = true ->
  (exists page_rows,
     remote_comp (server t)
       (page_params (pr_page d) (pr_pageSize d) (pr_sortBy d) (pr_sortDir d)
          (pr_filters d))
     = Resolved (Some page_rows)
     /\ Z.of_nat (length page_rows) <= pr_pageSize d)
  /\ Z.of_nat (length (res_rows (getPageFromIDB db d))) <= pr_pageSize d.
Proof.
  unfold valid_descriptor. rewrite !andb_true_iff, !Z.leb_le.
  intros [[[Hpg Hps1] Hps2] Hf]. split.
  - destruct (select_page_params t (pr_page d) (pr_pageSize d) (pr_sortBy d)
                (pr_sortDir d) (pr_filters d) Hf Hpg (conj Hps1 Hps2))
      as (col & dir & Hsel).
    unfold server, get_comp; cbn [remote_comp]. rewrite Hsel. cbn [axios_get].
    eexists; split; [reflexivity|]. rewrite length_take. lia.
  - unfold getPageFromIDB; cbn [res_rows]. apply length_js_slice. lia.
Qed.

(** ** Ordering *)

Lemma insert_by_Sorted {A} (leb : A -> A -> bool) (x : A) (l : list A) :
  (forall a b, leb a b = true \/ leb b a = true) ->
  Sorted (fun a b => leb a b = true) l ->
  Sorted (fun a b => leb a b = true) (insert_by leb x l).
Proof.
  intros Htot. induction 1 as [|y l Hs IH Hhd]; simpl.
  - repeat constructor.
  - destruct (leb x y) eqn:E.
    + repeat constructor; assumption.
    + constructor; [exact IH|].
      assert (Hyx : leb y x = true) by (destruct (Htot x y); congruence).
      destruct l as [|z l']; simpl; [now constructor|].
      destruct (leb x z); constructor; [assumption|].
      now inversion Hhd.
Qed.

Lemma sort_by_Sorted {A} (leb : A -> A -> bool) (l : list A) :
  (forall a b, leb a b = true \/ leb b a = true) ->
  Sorted (fun a b => leb a b = true) (sort_by leb l).
Proof.
  intros Htot. unfold sort_by. induction l as [|x l IH]; simpl.
  - constructor.
  - now apply insert_by_Sorted.
Qed.

Lemma Sorted_sorted_by {A} (leb : A -> A -> bool) (l : list A) :
  Sorted (fun a b => leb a b = true) l -> sorted_by leb l.
Proof.
  induction 1 as [|y l Hs IH Hhd]; intros i a b Ha Hb.
  - discriminate.
  - destruct i as [|i]; simpl in *.
    + injection Ha as <-. destruct l as [|z l']; [discriminate|].
      simpl in Hb. injection Hb as <-. now inversion Hhd.
    + eapply IH; eassumption.
Qed.

Lemma sorted_by_drop {A} (leb : A -> A -> bool) (n : nat) (l : list A) :
  sorted_by leb l -> sorted_by leb (drop n l).
Proof.
  intros H i a b Ha Hb. rewrite lookup_drop in Ha, Hb.
  apply (H (n + i)%nat); [assumption|].
  now replace (S (n + i)) with (n + S i)%nat by lia.
Qed.

Lemma sorted_by_take {A} (leb : A -> A -> bool) (n : nat) (l : list A) :
  sorted_by leb l -> sorted_by leb (take n l).
Proof.
  intros H i a b Ha Hb.
  apply lookup_take_Some in Ha as [Ha _]. apply lookup_take_Some in Hb as [Hb _].
  eapply H; eassumption.
Qed.

Lemma order_leb_total (col dir : string) :
  (forall a b, sql_leb a b = true \/ sql_leb b a = true) ->
  forall a b, order_leb col dir a b = true \/ order_leb col dir b a = true.
Proof.
  intros Htot a b. unfold order_leb. destruct (String.eqb dir "DESC"); apply Htot.
Qed.

(** The rows [GET /comp] answers with are in the order of the column and
    direction of its plan. *)
Lemma select_page_sorted (t : table) (p : comp_plan) (page_rows : list row) :
  (forall a b, sql_leb a b = true \/ sql_leb b a = true) ->
  select_page t p = Some page_rows ->
  sorted_by (order_leb (pl_sortBy p) (pl_sortDir p)) page_rows.
Proof.
  intros Htot. unfold select_page.
  destruct (pl_pageSize p); [discriminate|]. destruct (pl_offset p); [discriminate|].
  intros [= <-]. apply sorted_by_take, sorted_by_drop, Sorted_sorted_by.
  apply sort_by_Sorted, order_leb_total, Htot.
Qed.

(** ** The sort column *)


(** On the client the sort column is only ever the initial one or a header
    cell, so [getPageFromIDB] is called with a known column. *)
Lemma ui_sort_column_known (c : controls) (key : string) :
  sortBy c ∈ BASE_COLS -> key ∈ DISPLAY_COLS ->
  sortBy (toggleSort c key) ∈ BASE_COLS
  /\ sortBy (clearSort c) ∈ BASE_COLS
  /\ sortBy (ctl (initial_state ∅)) ∈ BASE_COLS.
Proof.
  intros Hc Hk. split; [|split].
  - unfold toggleSort. destruct (String.eqb (sortBy c) key); cbn [sortBy].
    + exact Hc.
    + unfold DISPLAY_COLS in Hk. now apply list_elem_of_filter in Hk as [_ Hk].
  - apply arr_includes_elem. reflexivity.
  - apply arr_includes_elem. reflexivity.
Qed.




(** X20.  The handler's normalisation on numeric input: both bounds hold, the
    direction is one of two keywords and the sort column is in the
    allow-list. *)
Lemma plan_numeric_bounds (q : query) (n m : Z) :
  parseInt (default "20" (q !! "pageSize")) = Num n ->
  parseInt (default "1" (q !! "page")) = Num m ->
  (exists ps pg, pl_pageSize (plan q) = Num ps /\ pl_page (plan q) = Num pg
                 /\ 1 <= ps <= 10000 /\ 1 <= pg)
  /\ (pl_sortDir (plan q) = "ASC" \/ pl_sortDir (plan q) = "DESC")
  /\ pl_sortBy (plan q) ∈ COLS.
Proof.
  intros Hn Hm. unfold plan; cbn [pl_pageSize pl_page pl_sortDir pl_sortBy].
  rewrite Hn, Hm. cbn [Math_max Math_min]. split; [|split].
  - eexists _, _. repeat split; lia.
  - destruct (q !! "sortDir") as [sd|]; [|now left].
    destruct (String.eqb (toLowerCase sd) "desc"); [now right | now left].
  - destruct (q !! "sortBy") as [sb|].
    + destruct (arr_includes COLS sb) eqn:E.
      * now apply arr_includes_elem.
      * now apply arr_includes_elem.
    + now apply arr_includes_elem.
Qed.

(** ** The page-load effect and its cache *)

Lemma error_text_nonempty (e : js_error) : error_text e <> EmptyString.
Proof.
  unfold error_text, str_truthy.
  destruct (err_response_error e) as [m|], (err_message e) as [m'|];
    repeat match goal with
    | |- context [String.eqb ?x EmptyString] =>
        let E := fresh "E" in
        destruct (String.eqb_spec x EmptyString) as [E|E]; cbn [negb]
    end; try assumption; discriminate.
Qed.

Lemma loadPage_failure (net : remote) (dev : device) (s : app_state) (e : js_error) :
  fetch_fails net dev s e -> fst (loadPage net dev s) = page_failed s e.
Proof.
  intros H. unfold loadPage. destruct H as [e Ho Hc Hr|e count Ho Hc Hr Hd|e Ho Hf|e Ho Hf Hp].
  - rewrite Ho, Hc, Hr. reflexivity.
  - rewrite Ho, Hc, Hr, Hd. reflexivity.
  - rewrite Ho, Hf. reflexivity.
  - rewrite Ho, Hf, Hp. reflexivity.
Qed.

(** C8.  When a run of the page-load effect fails, in its count phase or in
    its data phase, the visible rows become empty, the total becomes zero and
    a non-empty message is shown, while the page cache keeps exactly the
    entries it had: whatever descriptor the user then moves to, if the cache
    holds it, the next online run shows the cached rows and sends no
    request. *)
Theorem page_error_keeps_cache (net : remote) (dev : device) (s : app_state)
  (e : js_error) :
  fetch_fails net dev s e ->
  let s' := fst (loadPage net dev s) in
  rows (vw s') = []
  /\ totalCount (vw s') = 0
  /\ error (vw s') = error_text e
  /\ error (vw s') <> EmptyString
  /\ pageCacheRef s' = pageCacheRef s
  /\ forall (c : controls) (cached : list row) (net' : remote) (dev' : device),
       offline c = false ->
       pageCacheRef s !! cacheKey c = Some cached ->
       rows (vw (fst (loadPage net' dev' (with_ctl s' c)))) = cached
       /\ snd (loadPage net' dev' (with_ctl s' c)) = [].
Proof.
  intros H. rewrite (loadPage_failure net dev s e H). cbn zeta.
  unfold page_failed; cbn [vw rows totalCount error pageCacheRef].
  do 3 (split; [reflexivity|]).
  split; [apply error_text_nonempty|]. split; [reflexivity|].
  intros c cached net' dev' Hoff Hhit.
  unfold loadPage, with_ctl; cbn [ctl pageCacheRef]. rewrite Hoff, Hhit.
  split; reflexivity.
Qed.

(** ** Sync *)


Lemma server_count (t : table) sb sd (f : filterset) :
  remote_count (server t) (count_params sb sd f)
  = Resolved (Some (select_count t (buildWhere (spread ∅ f)))).
Proof.
  unfold server, get_comp_count; cbn [remote_count axios_get].
  now rewrite buildWhere_count_params.
Qed.



(** ** Export *)

Lemma elem_of_set_add (hs : list string) (k k' : string) :
  k' ∈ set_add hs k <-> k' ∈ hs \/ k' = k.
Proof.
  unfold set_add. destruct (arr_includes hs k) eqn:E.
  - apply arr_includes_elem in E. split; [now left|]. now intros [H| ->].
  - rewrite elem_of_app, list_elem_of_singleton. reflexivity.
Qed.

Lemma elem_of_foldl_set_add (l hs : list string) (k : string) :
  k ∈ foldl set_add hs l <-> k ∈ hs \/ k ∈ l.
Proof.
  revert hs; induction l as [|x l IH]; intros hs; simpl.
  - split; [now left|]. intros [H|H]; [assumption | inversion H].
  - rewrite IH, elem_of_set_add, elem_of_cons. clear - k. tauto.
Qed.

Lemma foldl_set_add_prefix (l hs : list string) :
  exists extra, foldl set_add hs l = hs ++ extra.
Proof.
  revert hs; induction l as [|x l IH]; intros hs; simpl.
  - exists []. now rewrite app_nil_r.
  - destruct (IH (set_add hs x)) as (extra & ->). unfold set_add.
    destruct (arr_includes hs x); [now exists extra|].
    exists (x :: extra). now rewrite <- app_assoc.
Qed.

Lemma elem_of_see_headers (batch : list row) (hs : list string) (k : string) :
  k ∈ see_headers hs batch <-> k ∈ hs \/ exists r, r ∈ batch /\ k ∈ keys r.
Proof.
  unfold see_headers. revert hs; induction batch as [|r batch IH]; intros hs; simpl.
  - split; [now left|]. intros [H|(r & H & _)]; [assumption | inversion H].
  - rewrite IH, elem_of_foldl_set_add. split.
    + intros [[H|H]|(r' & H & Hk)]; [now left | right | right].
      * exists r. split; [constructor | assumption].
      * exists r'. split; [now constructor | assumption].
    + intros [H|(r' & H & Hk)]; [now left; left|].
      apply elem_of_cons in H as [->|H]; [now left; right|].
      right. now exists r'.
Qed.

(** The header row starts with the known schema, in its order. *)
Lemma materialize_headers_schema_first off today exportRows headersSeen :
  exists extra,
    exp_headers (materialize off today exportRows headersSeen) = BASE_COLS ++ extra.
Proof.
  unfold materialize; cbn [exp_headers]. unfold set_of.
  rewrite foldl_app. apply foldl_set_add_prefix.
Qed.

Lemma materialize_headers_seen off today exportRows headersSeen (k : string) :
  k ∈ headersSeen -> k ∈ exp_headers (materialize off today exportRows headersSeen).
Proof.
  intros H. unfold materialize; cbn [exp_headers]. unfold set_of.
  apply elem_of_foldl_set_add. right. apply elem_of_app. now right.
Qed.

(** One output row per accumulated row. *)
Lemma materialize_one_row_each off today exportRows headersSeen :
  length (exp_normalized (materialize off today exportRows headersSeen))
  = length exportRows.
Proof. unfold materialize; cbn [exp_normalized]. apply length_map. Qed.

Lemma get_set_field (r : row) (k k' : string) (v : jsval) :
  get (set_field r k v) k' = if String.eqb k k' then Some v else get r k'.
Proof.
  induction r as [|[k0 v0] r IH]; simpl.
  - reflexivity.
  - destruct (String.eqb_spec k0 k) as [->|Hne]; simpl.
    + destruct (String.eqb k k'); reflexivity.
    + rewrite IH. destruct (String.eqb_spec k0 k') as [->|Hne'].
      * destruct (String.eqb_spec k k'); [congruence | reflexivity].
      * reflexivity.
Qed.

(** Each output row has, under every header, the row's value, or the empty
    string where the row has none (or [null]). *)
Lemma get_normalize_row (headers : list string) (r : row) (h : string) :
  h ∈ headers ->
  get (normalize_row headers r) h = Some (nullish_or (get r h) (JStr EmptyString)).
Proof.
  unfold normalize_row. generalize (@nil (string * jsval)) as acc.
  induction headers as [|h' headers IH] using rev_ind; intros acc Hin.
  - inversion Hin.
  - rewrite foldl_app; simpl. rewrite get_set_field.
    destruct (String.eqb_spec h' h) as [->|Hne]; [reflexivity|].
    apply IH. apply elem_of_app in Hin as [H|H]; [assumption|].
    apply list_elem_of_singleton in H. congruence.
Qed.

(** The server branch sees the keys of every row it accumulates. *)
Lemma export_remote_loop_headers (net : remote) (c : controls) (fuel : nat) :
  forall (p : Z) (rows0 : list row) (hs0 : list string)
         (rows1 : list row) (hs1 : list string),
    export_remote_loop fuel net c p rows0 hs0 = Some (Resolved (rows1, hs1)) ->
    (forall r k, r ∈ rows0 -> k ∈ keys r -> k ∈ hs0) ->
    forall r k, r ∈ rows1 -> k ∈ keys r -> k ∈ hs1.
Proof.
  induction fuel as [|fuel IH]; intros p rows0 hs0 rows1 hs1 H Hinv;
    simpl in H; [discriminate|].
  destruct (remote_comp net _) as [data|e]; [|discriminate].
  set (batch := default [] data) in *.
  assert (Hinv' : forall r k, r ∈ rows0 ++ batch -> k ∈ keys r ->
                              k ∈ see_headers hs0 batch).
  { intros r k Hr Hk. apply elem_of_see_headers.
    apply elem_of_app in Hr as [Hr|Hr]; [left; eauto | right; eauto]. }
  destruct (Z.of_nat (length batch) =? 0).
  - injection H as <- <-. exact Hinv.
  - destruct (Z.of_nat (length batch) <? chunk).
    + injection H as <- <-. exact Hinv'.
    + eapply IH; eassumption.
Qed.

(** What the server branch of the export delivers: a header row with the
    known schema first and every key of every exported row after it, one
    output row per exported row, each holding the row's value or the empty
    string under every header. *)
Lemma export_remote_file (fuel : nat) (net : remote) (today : string)
  (s s' : app_state) (file : export_file) :
  offline (ctl s) = false ->
  handleDownloadExcel fuel net today s = Some (s', Some file) ->
  exists exportRows extra,
    exp_headers file = BASE_COLS ++ extra
    /\ (forall r k, r ∈ exportRows -> k ∈ keys r -> k ∈ exp_headers file)
    /\ exp_normalized file = map (normalize_row (exp_headers file)) exportRows
    /\ (forall r h, r ∈ exportRows -> h ∈ exp_headers file ->
          get (normalize_row (exp_headers file) r) h
          = Some (nullish_or (get r h) (JStr EmptyString))).
Proof.
  intros Hoff H. unfold handleDownloadExcel in H. rewrite Hoff in H.
  destruct (remote_count net _); [|discriminate].
  destruct (export_remote_loop fuel net (ctl s) 1 [] (set_of BASE_COLS))
    as [[[exportRows headersSeen]|e]|] eqn:Hloop; try discriminate.
  injection H as <- <-.
  destruct (materialize_headers_schema_first false today exportRows headersSeen)
    as (extra & Hh).
  exists exportRows, extra. split; [exact Hh|]. split; [|split].
  - intros r k Hr Hk. apply materialize_headers_seen.
    eapply export_remote_loop_headers; [exact Hloop | | exact Hr | exact Hk].
    intros r0 k0 Hr0. inversion Hr0.
  - reflexivity.
  - intros r h _ Hh'. now apply get_normalize_row.
Qed.

(** The export reads: whatever it does, the local cache store and the page
    cache are afterwards what they were. *)
Lemma export_keeps_store_and_cache (fuel : nat) (net : remote) (today : string)
  (s s' : app_state) (file : option export_file) :
  handleDownloadExcel fuel net today s = Some (s', file) ->
  idb s' = idb s /\ pageCacheRef s' = pageCacheRef s.
Proof.
  unfold handleDownloadExcel. intros H.
  destruct (offline (ctl s)).
  - destruct (export_offline_loop _ _ _ _ _ _ _); [|discriminate].
    injection H as <- _. split; reflexivity.
  - destruct (remote_count net _).
    + destruct (export_remote_loop _ _ _ _ _ _) as [[[? ?]|?]|]; try discriminate;
        injection H as <- _; split; reflexivity.
    + injection H as <- _. split; reflexivity.
Qed.

(** ** Filters *)

Lemma append_cons (c : ascii) (t b : string) :
  String c t +:+ b = String c (t +:+ b).
Proof. reflexivity. Qed.

Lemma startsWith_spec (s t : string) :
  startsWith s t = true <-> exists b, s = t +:+ b.
Proof.
  revert s; induction t as [|c t IH]; intros s.
  - split; [intros _; now exists s | intros _; now destruct s].
  - destruct s as [|a s]; simpl.
    + split; [discriminate | intros (b & H); rewrite append_cons in H; discriminate].
    + destruct (Ascii.eqb_spec a c) as [->|Hne].
      * rewrite IH. split; intros (b & H); exists b;
          rewrite append_cons in *; congruence.
      * split; [discriminate | intros (b & H); rewrite append_cons in H; congruence].
Qed.

(** [includes] is the substring test. *)
Lemma includes_spec (s t : string) :
  includes s t = true <-> exists a b, s = a +:+ t +:+ b.
Proof.
  induction s as [|c s IH].
  - change (includes EmptyString t) with (startsWith EmptyString t || false)%bool.
    rewrite orb_false_r, startsWith_spec. split.
    + intros (b & H). now exists EmptyString, b.
    + intros (a & b & H). destruct a as [|c' a];
        [now exists b | rewrite append_cons in H; discriminate].
  - change (includes (String c s) t)
      with (startsWith (String c s) t || includes s t)%bool.
    rewrite orb_true_iff, IH, startsWith_spec. split.
    + intros [(b & H)|(a & b & H)].
      * now exists EmptyString, b.
      * exists (String c a), b. rewrite append_cons. now rewrite H.
    + intros (a & b & H). destruct a as [|c' a].
      * left. now exists b.
      * right. exists a, b. rewrite append_cons in H. congruence.
Qed.

(** What [rowMatches] decides: every pattern that is not the empty string
    occurs, lower-cased, in the lower-cased text of the row's value. *)
Lemma rowMatches_spec (r : row) (f : filterset) :
  rowMatches r f = true
  <-> forall k v, (k, v) ∈ f -> v <> EmptyString ->
        includes (toLowerCase (String_ (nullish_or (get r k) (JStr EmptyString))))
                 (toLowerCase v) = true.
Proof.
  induction f as [|[k0 v0] f IH]; simpl.
  - split; [intros _ k v H; inversion H | reflexivity].
  - unfold str_truthy. destruct (String.eqb_spec v0 EmptyString) as [->|Hne]; cbn [negb].
    + rewrite IH. split; intros H k v Hin Hv.
      * apply elem_of_cons in Hin as [[= -> ->]|Hin]; [contradiction | now apply H].
      * apply H; [now constructor | assumption].
    + destruct (includes _ (toLowerCase v0)) eqn:Hinc; cbn [negb].
      * rewrite IH. split; intros H k v Hin Hv.
        -- apply elem_of_cons in Hin as [[= -> ->]|Hin]; [assumption | now apply H].
        -- apply H; [now constructor | assumption].
      * split; [discriminate|]. intros H.
        rewrite <- Hinc. apply H; [constructor | assumption].
Qed.

Lemma elem_of_js_slice {A} (l : list A) (s e : Z) (x : A) :
  x ∈ js_slice l s e -> x ∈ l.
Proof.
  unfold js_slice. intros H.
  eapply subseteq_drop, subseteq_take, H.
Qed.

(** Every row a local page shows passed [rowMatches]. *)
Lemma local_page_rows_match (db : store) (d : page_request) (r : row) :
  r ∈ res_rows (getPageFromIDB db d) -> rowMatches r (pr_filters d) = true.
Proof.
  unfold getPageFromIDB; cbn [res_rows]. intros H.
  apply elem_of_js_slice in H. rewrite sort_by_Permutation, foldl_push in H.
  simpl in H. now apply list_elem_of_filter in H as [H _].
Qed.

(** Every row a backend page shows satisfies each clause of [buildWhere]. *)
Lemma remote_page_rows_satisfy (t : table) (q : query) (page_rows : list row) (r : row) :
  get_comp t q = Ok page_rows -> r ∈ page_rows -> satisfies (buildWhere q) r = true.
Proof.
  unfold get_comp, select_page.
  destruct (pl_pageSize (plan q)); [discriminate|].
  destruct (pl_offset (plan q)); [discriminate|].
  intros [= <-] H.
  apply subseteq_take, subseteq_drop in H.
  rewrite sort_by_Permutation in H.
  now apply list_elem_of_filter in H as [H _].
Qed.

(** ** Row keys and positions *)

Lemma append_cancel_l (s x y : string) : s +:+ x = s +:+ y -> x = y.
Proof. induction s as [|c s IH]; simpl; [trivial | intros [= H]; auto]. Qed.

Lemma Number_toString_inj (i j : Z) :
  0 <= i -> 0 <= j -> Number_toString i = Number_toString j -> i = j.
Proof.
  intros Hi Hj H.
  pose proof (parseInt_Number_toString i Hi) as Pi.
  pose proof (parseInt_Number_toString j Hj) as Pj.
  rewrite H in Pi. congruence.
Qed.

(** X21.  A row without [id] and without [Folio_Dpid] gets a different key at
    every position of a batch. *)
Lemma makeKey_position_dependent (r : row) (i j : Z) :
  nullish (get r "id") = None -> nullish (get r "Folio_Dpid") = None ->
  0 <= i -> 0 <= j -> i <> j ->
  makeKey r i <> makeKey r j.
Proof.
  intros Hid Hfo Hi Hj Hne. unfold makeKey. rewrite Hid, Hfo. intros [= H].
  repeat (apply append_cancel_l in H).
  apply Hne. now apply Number_toString_inj.
Qed.

(** ** Pages of a query *)

Lemma js_slice_window {A} (l : list A) (s n : Z) :
  0 <= s -> 0 <= n ->
  js_slice l s (s + n) = take (Z.to_nat n) (drop (Z.to_nat s) l).
Proof.
  intros Hs Hn. unfold js_slice.
  destruct (s <? 0) eqn:E1; [lia|]. destruct (s + n <? 0) eqn:E2; [lia|].
  set (len := Z.of_nat (length l)).
  destruct (Z.le_gt_cases s len) as [Hle|Hgt].
  - replace (Z.min s len) with s by lia.
    destruct (Z.le_gt_cases (s + n) len) as [Hle2|Hgt2].
    + replace (Z.min (s + n) len) with (s + n) by lia.
      now replace (Z.max (s + n - s) 0) with n by lia.
    + replace (Z.min (s + n) len) with len by lia.
      rewrite !take_ge; [reflexivity | |]; rewrite length_drop; unfold len in *; lia.
  - replace (Z.min s len) with len by lia.
    replace (Z.min (s + n) len) with len by lia.
    rewrite !drop_ge by (unfold len in *; lia). now rewrite !take_nil.
Qed.

Lemma local_page (db : store) (pg ps : Z) (sb sd : string) (f : filterset) :
  1 <= pg -> 0 <= ps ->
  res_rows (getPageFromIDB db (PageRequest pg ps sb sd f))
  = take (Z.to_nat ps) (drop (Z.to_nat ((pg - 1) * ps)) (local_view db sb sd f)).
Proof.
  intros Hpg Hps. unfold getPageFromIDB, local_view.
  cbn [res_rows pr_page pr_pageSize pr_sortBy pr_sortDir pr_filters].
  rewrite foldl_push. cbn [app]. apply js_slice_window; nia.
Qed.

Lemma local_count (db : store) (sb sd : string) (f : filterset) :
  getCountFromIDB db f = Z.of_nat (length (local_view db sb sd f)).
Proof.
  unfold getCountFromIDB, local_view. rewrite foldl_count, length_sort_by. lia.
Qed.

Lemma page_params_sort pg ps sb sd (f : filterset) :
  filter_keys_known f = true ->
  page_params pg ps sb sd f !! "sortBy" = Some sb
  /\ page_params pg ps sb sd f !! "sortDir" = Some sd.
Proof.
  intros Hf. unfold page_params. split.
  - rewrite spread_lookup_other.
    + now rewrite !lookup_insert_ne, lookup_insert_eq by discriminate.
    + apply filter_keys_known_Forall; [assumption|].
      intros H. now destruct (COLS_not_reserved _ H) as (? & ? & ? & ?).
  - rewrite spread_lookup_other.
    + now rewrite lookup_insert_eq.
    + apply filter_keys_known_Forall; [assumption|].
      intros H. now destruct (COLS_not_reserved _ H) as (? & ? & ? & ?).
Qed.

Lemma server_page (t : table) (pg ps : Z) (sb sd : string) (f : filterset) :
  filter_keys_known f = true -> 1 <= pg -> 1 <= ps <= 10000 ->
  remote_comp (server t) (page_params pg ps sb sd f)
  = Resolved (Some (take (Z.to_nat ps)
                      (drop (Z.to_nat ((pg - 1) * ps)) (remote_view t sb sd f)))).
Proof.
  intros Hf Hpg Hps.
  destruct (page_params_numbers pg ps sb sd f Hf) as [Hp Hs].
  destruct (page_params_sort pg ps sb sd f Hf) as [Hb Hd].
  unfold server, get_comp, select_page, plan, remote_view.
  cbn [remote_comp pl_pageSize pl_offset pl_sortBy pl_sortDir pl_where].
  rewrite Hp, Hs, Hb, Hd. cbn [from_option]. unfold id.
  rewrite !parseInt_Number_toString by lia.
  cbn [Math_max Math_min num_sub num_mul].
  rewrite buildWhere_page_params.
  replace (Z.min (Z.max ps 1) 10000) with ps by lia.
  replace (Z.max pg 1) with pg by lia.
  reflexivity.
Qed.

Lemma server_total (t : table) (sb sd sb' sd' : string) (f : filterset) :
  remote_count (server t) (count_params sb sd f)
  = Resolved (Some (Z.of_nat (length (remote_view t sb' sd' f)))).
Proof.
  rewrite server_count. unfold select_count, remote_view.
  now rewrite length_sort_by.
Qed.

Lemma pages_concat {A} (l : list A) (ps : Z) (k : nat) :
  0 <= ps ->
  concat (map (fun pg => take (Z.to_nat ps) (drop (Z.to_nat ((pg - 1) * ps)) l))
            (page_numbers k))
  = take (k * Z.to_nat ps) l.
Proof.
  intros Hps. unfold page_numbers. induction k as [|k IH].
  - reflexivity.
  - replace (Z.of_nat (S k)) with (Z.of_nat k + 1) by lia.
    rewrite seqZ_app by lia. rewrite map_app, concat_app, IH.
    cbn [seqZ]. change (seqZ (1 + Z.of_nat k) 1) with [1 + Z.of_nat k].
    cbn [map concat]. rewrite app_nil_r.
    replace (Z.to_nat ((1 + Z.of_nat k - 1) * ps)) with (k * Z.to_nat ps)%nat by nia.
    rewrite take_take_drop. f_equal. lia.
Qed.

Lemma cursor_Permutation (db : store) : cursor db ≡ₚ map snd (map_to_list db).
Proof. unfold cursor. now rewrite sort_by_Permutation. Qed.

Lemma local_view_Permutation (db : store) (sb sd : string) (f : filterset) :
  local_view db sb sd f
  ≡ₚ filter (fun r => rowMatches r f = true) (map snd (map_to_list db)).
Proof.
  unfold local_view. rewrite sort_by_Permutation. now rewrite cursor_Permutation.
Qed.

(** X3.  The length of a local page is what is left of the matching rows after
    the earlier pages, up to the page size; past the last row the page is
    empty. *)
Theorem getPageFromIDB_page_length (db : store) (pg ps : Z) (sb sd : string)
  (f : filterset) :
  1 <= pg -> 0 <= ps ->
  Z.of_nat (length (res_rows (getPageFromIDB db (PageRequest pg ps sb sd f))))
  = Z.min ps (Z.max 0 (getCountFromIDB db f - (pg - 1) * ps)).
Proof.
  intros Hpg Hps. rewrite local_page by assumption.
  rewrite (local_count db sb sd f), length_take, length_drop. nia.
Qed.

(** X4.  Walking the local pages [1 .. k] with one page size, far enough to
    cover the count, yields every stored row that passes the filters exactly
    once: no row is dropped and none is repeated between pages. *)
Theorem getPageFromIDB_pages_partition (db : store) (ps : Z) (k : nat)
  (sb sd : string) (f : filterset) :
  1 <= ps -> getCountFromIDB db f <= Z.of_nat k * ps ->
  concat (map (fun pg => res_rows (getPageFromIDB db (PageRequest pg ps sb sd f)))
            (page_numbers k))
  ≡ₚ filter (fun r => rowMatches r f = true) (map snd (map_to_list db)).
Proof.
  intros Hps Hk. rewrite <- (local_view_Permutation db sb sd f).
  rewrite (map_ext_in _
             (fun pg => take (Z.to_nat ps)
                          (drop (Z.to_nat ((pg - 1) * ps)) (local_view db sb sd f)))).
  - rewrite pages_concat by lia. rewrite take_ge; [reflexivity|].
    rewrite (local_count db sb sd f) in Hk. nia.
  - intros pg Hin. apply list_elem_of_In in Hin. unfold page_numbers in Hin.
    apply elem_of_seqZ in Hin. apply local_page; lia.
Qed.

(** ** Draining a source chunk by chunk *)

Lemma export_offline_loop_drains (db : store) (c : controls) (fuel : nat) :
  forall j : nat,
    Z.of_nat j * chunk <= Z.of_nat (length (local_view db (sortBy c) (effSortDir c) (filters c))) ->
    Z.of_nat (length (local_view db (sortBy c) (effSortDir c) (filters c)))
    - Z.of_nat j * chunk < Z.of_nat fuel ->
    export_offline_loop fuel db c
      (Z.of_nat (length (local_view db (sortBy c) (effSortDir c) (filters c))))
      (Z.of_nat j * chunk) (Z.of_nat j + 1)
      (take (j * Z.to_nat chunk) (local_view db (sortBy c) (effSortDir c) (filters c)))
    = Some (local_view db (sortBy c) (effSortDir c) (filters c)).
Proof.
  set (V := local_view db (sortBy c) (effSortDir c) (filters c)).
  induction fuel as [|fuel IH]; intros j Hle Hfuel; [lia|].
  cbn [export_offline_loop].
  rewrite local_page by (unfold chunk; lia). fold V.
  replace (Z.to_nat ((Z.of_nat j + 1 - 1) * chunk)) with (j * Z.to_nat chunk)%nat
    by (unfold chunk; lia).
  destruct (Z.of_nat j * chunk <? Z.of_nat (length V)) eqn:Hlt.
  - apply Z.ltb_lt in Hlt.
    set (batch := take (Z.to_nat chunk) (drop (j * Z.to_nat chunk) V)).
    assert (Hn : Z.of_nat (length batch)
                 = Z.min chunk (Z.of_nat (length V) - Z.of_nat j * chunk)).
    { unfold batch. rewrite length_take, length_drop. unfold chunk in *. lia. }
    destruct (Z.of_nat (length batch) =? 0) eqn:Hz; [unfold chunk in *; lia|].
    destruct (Z.of_nat (length batch) <? chunk) eqn:Hs.
    + f_equal. unfold batch. rewrite take_take_drop.
      apply take_ge. unfold chunk in *. lia.
    + apply Z.ltb_ge in Hs.
      replace (Z.of_nat j * chunk + Z.of_nat (length batch))
        with (Z.of_nat (S j) * chunk) by (unfold chunk in *; lia).
      replace (Z.of_nat j + 1 + 1) with (Z.of_nat (S j) + 1) by lia.
      replace (take (j * Z.to_nat chunk) V ++ batch)
        with (take (S j * Z.to_nat chunk) V).
      * apply IH; unfold chunk in *; lia.
      * unfold batch. rewrite take_take_drop. f_equal. lia.
  - apply Z.ltb_ge in Hlt. f_equal. apply take_ge. unfold chunk in *. lia.
Qed.

Lemma handleDownloadExcel_offline (fuel : nat) (net : remote) (today : string)
  (s : app_state) :
  offline (ctl s) = true ->
  getCountFromIDB (idb s) (filters (ctl s)) < Z.of_nat fuel ->
  handleDownloadExcel fuel net today s
  = Some (export_done s,
          Some (materialize true today
                  (local_view (idb s) (sortBy (ctl s)) (effSortDir (ctl s))
                     (filters (ctl s)))
                  (set_of BASE_COLS))).
Proof.
  intros Hoff Hfuel. unfold handleDownloadExcel. rewrite Hoff.
  rewrite (local_count (idb s) (sortBy (ctl s)) (effSortDir (ctl s))) in *.
  pose proof (export_offline_loop_drains (idb s) (ctl s) fuel 0) as H.
  change (Z.of_nat 0 * chunk) with 0 in H. change (Z.of_nat 0 + 1) with 1 in H.
  change (take (0 * Z.to_nat chunk) ?l) with (@nil row) in H.
  now rewrite H by lia.
Qed.

(** X6.  Offline, the export delivers every stored row that passes the filters,
    each once, in the order of the local sort, under the headers of the known
    schema; it needs no more iterations than there are rows. *)
Theorem offline_export_complete (fuel : nat) (net : remote) (today : string)
  (s : app_state) :
  offline (ctl s) = true ->
  getCountFromIDB (idb s) (filters (ctl s)) < Z.of_nat fuel ->
  exists file,
    handleDownloadExcel fuel net today s = Some (export_done s, Some file)
    /\ exp_headers file = BASE_COLS
    /\ exp_normalized file
       = map (normalize_row BASE_COLS)
           (local_view (idb s) (sortBy (ctl s)) (effSortDir (ctl s)) (filters (ctl s)))
    /\ Z.of_nat (length (exp_normalized file))
       = getCountFromIDB (idb s) (filters (ctl s)).
Proof.
  intros Hoff Hfuel. unfold handleDownloadExcel. rewrite Hoff.
  rewrite (local_count (idb s) (sortBy (ctl s)) (effSortDir (ctl s))) in *.
  pose proof (export_offline_loop_drains (idb s) (ctl s) fuel 0) as H.
  change (Z.of_nat 0 * chunk) with 0 in H. change (Z.of_nat 0 + 1) with 1 in H.
  change (take (0 * Z.to_nat chunk) ?l) with (@nil row) in H.
  rewrite H by lia.
  eexists. split; [reflexivity|]. split; [reflexivity|]. split; [reflexivity|].
  cbn [materialize exp_normalized]. now rewrite length_map.
Qed.

(** *** Statements answered in an order of the engine's choosing *)

Lemma order_leb_trans (col dir : string) :
  total_preorder -> Transitive (fun a b : row => order_leb col dir a b = true).
Proof.
  intros [_ Htr] a b c. unfold order_leb.
  destruct (String.eqb dir "DESC"); intros Hab Hbc; eapply Htr; eassumption.
Qed.

(** Where no two selected rows tie, the rows a statement selects come in
    one order only, however the engine meets the table. *)
Lemma remote_view_arranged (t t' : table) (sb sd : string) (f : filterset) :
  total_preorder -> t' ≡ₚ t -> tie_free t sb f ->
  remote_view t' sb sd f = remote_view t sb sd f.
Proof.
  intros Hpre Hperm Hfree. unfold remote_view.
  set (col := if arr_includes COLS sb then sb else "Company_Name").
  set (dir := if String.eqb (toLowerCase sd) "desc" then "DESC" else "ASC").
  set (P := fun r => satisfies (buildWhere (spread ∅ f)) r = true).
  pose proof (order_leb_trans col dir Hpre) as Htrans.
  apply (Sorted_unique_strong (fun a b : row => order_leb col dir a b = true)).
  - intros x1 x2 H1 H2 H12 H21.
    rewrite sort_by_Permutation in H1, H2.
    apply list_elem_of_filter in H1 as [P1 H1]. apply list_elem_of_filter in H2 as [P2 H2].
    rewrite Hperm in H1.
    unfold order_leb in H12, H21.
    destruct (String.eqb dir "DESC"); apply (Hfree x1 x2); assumption.
  - apply sort_by_Sorted, order_leb_total, Hpre.
  - apply sort_by_Sorted, order_leb_total, Hpre.
  - rewrite !sort_by_Permutation. now rewrite Hperm.
Qed.

Lemma server_in_page (ts : query -> table) (t : table) (pg ps : Z) (sb sd : string)
  (f : filterset) :
  total_preorder -> arranges ts t -> tie_free t sb f ->
  filter_keys_known f = true -> 1 <= pg -> 1 <= ps <= 10000 ->
  remote_comp (server_in ts) (page_params pg ps sb sd f)
  = Resolved (Some (take (Z.to_nat ps)
                      (drop (Z.to_nat ((pg - 1) * ps)) (remote_view t sb sd f)))).
Proof.
  intros Hpre Harr Hfree Hf Hpg Hps.
  change (remote_comp (server_in ts) (page_params pg ps sb sd f))
    with (remote_comp (server (ts (page_params pg ps sb sd f)))
            (page_params pg ps sb sd f)).
  rewrite server_page by assumption.
  now rewrite (remote_view_arranged t (ts _) sb sd f Hpre (Harr _) Hfree).
Qed.

Lemma server_in_total (ts : query -> table) (t : table) (sb sd sb' sd' : string)
  (f : filterset) :
  arranges ts t ->
  remote_count (server_in ts) (count_params sb sd f)
  = Resolved (Some (Z.of_nat (length (remote_view t sb' sd' f)))).
Proof.
  intros Harr.
  change (remote_count (server_in ts) (count_params sb sd f))
    with (remote_count (server (ts (count_params sb sd f))) (count_params sb sd f)).
  rewrite (server_total _ sb sd sb' sd'). do 3 f_equal.
  unfold remote_view. rewrite !length_sort_by. now rewrite (Harr _).
Qed.

(** *** The loop of [handleSyncToDevice] over a source that serves [V] *)

Lemma sync_loop_drains (net : remote) (c : controls) (V : list row) (fuel : nat) :
  (forall pg, 1 <= pg ->
     remote_comp net (page_params pg bulkSize (sortBy c) (effSortDir c) (filters c))
     = Resolved (Some (take (Z.to_nat bulkSize)
                         (drop (Z.to_nat ((pg - 1) * bulkSize)) V)))) ->
  forall (j : nat) (db : store) (batches : list (list row)),
    Z.of_nat j * bulkSize <= Z.of_nat (length V) ->
    Z.of_nat (length V) - Z.of_nat j * bulkSize < Z.of_nat fuel ->
    exists more,
      sync_loop fuel net c (Z.of_nat (length V))
        (Z.of_nat j * bulkSize) (Z.of_nat j + 1) db batches
      = Some (Completed (Z.of_nat (length V))
                (foldl (fun d b => upsertRows b d) db more)
                (batches ++ more))
      /\ concat more = drop (j * Z.to_nat bulkSize) V.
Proof.
  intros Hpage.
  induction fuel as [|fuel IH]; intros j db batches Hle Hfuel; [lia|].
  cbn [sync_loop].
  destruct (Z.of_nat j * bulkSize <? Z.of_nat (length V)) eqn:Hlt.
  - apply Z.ltb_lt in Hlt.
    rewrite Hpage by lia.
    replace (Z.to_nat ((Z.of_nat j + 1 - 1) * bulkSize))
      with (j * Z.to_nat bulkSize)%nat by (unfold bulkSize; lia).
    cbn [from_option]. unfold id.
    set (batch := take (Z.to_nat bulkSize) (drop (j * Z.to_nat bulkSize) V)).
    assert (Hn : Z.of_nat (length batch)
                 = Z.min bulkSize (Z.of_nat (length V) - Z.of_nat j * bulkSize)).
    { unfold batch. rewrite length_take, length_drop. unfold bulkSize in *. lia. }
    destruct (Z.of_nat (length batch) =? 0) eqn:Hz; [unfold bulkSize in *; lia|].
    destruct (Z.of_nat (length batch) <? bulkSize) eqn:Hs.
    + apply Z.ltb_lt in Hs. exists [batch]. split.
      * cbn [foldl]. do 2 f_equal. unfold bulkSize in *. lia.
      * cbn [concat]. rewrite app_nil_r. unfold batch.
        apply take_ge. rewrite length_drop. unfold bulkSize in *. lia.
    + apply Z.ltb_ge in Hs.
      replace (Z.of_nat j * bulkSize + Z.of_nat (length batch))
        with (Z.of_nat (S j) * bulkSize) by (unfold bulkSize in *; lia).
      replace (Z.of_nat j + 1 + 1) with (Z.of_nat (S j) + 1) by lia.
      destruct (IH (S j) (upsertRows batch db) (batches ++ [batch]))
        as (more & Hrun & Hcat); [unfold bulkSize in *; lia .. |].
      exists (batch :: more). split.
      * rewrite Hrun. cbn [foldl]. now rewrite <- app_assoc.
      * cbn [concat]. rewrite Hcat. unfold batch.
        replace (S j * Z.to_nat bulkSize)%nat
          with (j * Z.to_nat bulkSize + Z.to_nat bulkSize)%nat by lia.
        rewrite <- drop_drop. apply take_drop.
  - apply Z.ltb_ge in Hlt. exists []. split.
    + cbn [foldl]. rewrite app_nil_r. do 2 f_equal. unfold bulkSize in *. lia.
    + cbn [concat]. symmetry. apply drop_ge. unfold bulkSize in *. lia.
Qed.

Lemma handleSyncToDevice_served (net : remote) (V : list row) (s : app_state)
  (fuel : nat) :
  remote_count net
    (count_params (sortBy (ctl s)) (effSortDir (ctl s)) (filters (ctl s)))
  = Resolved (Some (Z.of_nat (length V))) ->
  (forall pg, 1 <= pg ->
     remote_comp net
       (page_params pg bulkSize (sortBy (ctl s)) (effSortDir (ctl s)) (filters (ctl s)))
     = Resolved (Some (take (Z.to_nat bulkSize)
                         (drop (Z.to_nat ((pg - 1) * bulkSize)) V)))) ->
  Z.of_nat (length V) < Z.of_nat fuel ->
  exists s' batches,
    handleSyncToDevice fuel net s
    = Some (s', SyncReport (Z.of_nat (length V)) (Z.of_nat (length V)) batches)
    /\ concat batches = V
    /\ idb s' = foldl (fun d b => upsertRows b d) ∅ batches
    /\ ctl s' = ctl s /\ pageCacheRef s' = pageCacheRef s /\ vw s' = vw s.
Proof.
  intros Hcount Hpage Hfuel.
  unfold handleSyncToDevice. rewrite Hcount.
  cbn [from_option]. unfold id.
  destruct (Z.of_nat (length V) =? 0) eqn:Hz.
  - apply Z.eqb_eq in Hz. eexists _, []. split; [rewrite Hz at 3; reflexivity|].
    split; [|repeat split].
    cbn [concat]. symmetry. apply length_zero_iff_nil. lia.
  - destruct (sync_loop_drains net (ctl s) V fuel Hpage 0 (clearAll (idb s)) [])
      as (more & Hrun & Hcat); [unfold bulkSize; lia | unfold bulkSize; lia |].
    change (Z.of_nat 0 * bulkSize) with 0 in Hrun.
    change (Z.of_nat 0 + 1) with 1 in Hrun.
    rewrite Hrun. eexists _, more. split; [reflexivity|].
    split; [exact Hcat | repeat split].
Qed.

(** What the two conditions on the engine give for one run of the client:
    the count and every chunk are read off one list, the rows selected from
    [t] in the order asked for. *)
Lemma server_in_serves (ts : query -> table) (t : table) (c : controls) (ps : Z) :
  total_preorder -> arranges ts t -> tie_free t (sortBy c) (filters c) ->
  filter_keys_known (filters c) = true -> 1 <= ps <= 10000 ->
  remote_count (server_in ts) (count_params (sortBy c) (effSortDir c) (filters c))
  = Resolved (Some (Z.of_nat (length (remote_view t (sortBy c) (effSortDir c)
                                        (filters c)))))
  /\ forall pg, 1 <= pg ->
       remote_comp (server_in ts)
         (page_params pg ps (sortBy c) (effSortDir c) (filters c))
       = Resolved (Some (take (Z.to_nat ps)
                           (drop (Z.to_nat ((pg - 1) * ps))
                              (remote_view t (sortBy c) (effSortDir c) (filters c))))).
Proof.
  intros Hpre Harr Hfree Hf Hps. split.
  - now apply server_in_total.
  - intros pg Hpg. now apply server_in_page.
Qed.

Lemma select_count_view (t : table) (sb sd : string) (f : filterset) :
  select_count t (buildWhere (spread ∅ f)) = Z.of_nat (length (remote_view t sb sd f)).
Proof. unfold select_count, remote_view. now rewrite length_sort_by. Qed.

Lemma handleSyncToDevice_over_engine (ts : query -> table) (t : table) (s : app_state)
  (fuel : nat) :
  total_preorder -> arranges ts t ->
  tie_free t (sortBy (ctl s)) (filters (ctl s)) ->
  filter_keys_known (filters (ctl s)) = true ->
  select_count t (buildWhere (spread ∅ (filters (ctl s)))) < Z.of_nat fuel ->
  exists s' batches,
    handleSyncToDevice fuel (server_in ts) s
    = Some (s', SyncReport
                  (select_count t (buildWhere (spread ∅ (filters (ctl s)))))
                  (select_count t (buildWhere (spread ∅ (filters (ctl s)))))
                  batches)
    /\ concat batches
       = remote_view t (sortBy (ctl s)) (effSortDir (ctl s)) (filters (ctl s))
    /\ idb s' = foldl (fun d b => upsertRows b d) ∅ batches
    /\ ctl s' = ctl s /\ pageCacheRef s' = pageCacheRef s /\ vw s' = vw s.
Proof.
  intros Hpre Harr Hfree Hf Hfuel.
  rewrite (select_count_view t (sortBy (ctl s)) (effSortDir (ctl s))) in *.
  destruct (server_in_serves ts t (ctl s) bulkSize Hpre Harr Hfree Hf)
    as [Hcount Hpage]; [unfold bulkSize; lia|].
  now apply handleSyncToDevice_served.
Qed.

(** X8.  Sync against a backend whose engine is free in the order of ties,
    for any table and any filters over known columns.  Where no two selected
    rows tie in the sort column, sync, given an iteration per selected row,
    finishes with [fetched = total], the number of selected rows; the chunks
    it received, joined, are exactly the selected rows, each once, in the
    order asked for; the store holds the chunks upserted one after the other
    into an emptied store; and the page cache and the visible page are left
    alone. *)
Theorem sync_fetches_every_matching_row (ts : query -> table) (t : table)
  (s : app_state) (fuel : nat) :
  total_preorder -> arranges ts t ->
  tie_free t (sortBy (ctl s)) (filters (ctl s)) ->
  filter_keys_known (filters (ctl s)) = true ->
  select_count t (buildWhere (spread ∅ (filters (ctl s)))) < Z.of_nat fuel ->
  exists s' batches,
    handleSyncToDevice fuel (server_in ts) s
    = Some (s', SyncReport
                  (select_count t (buildWhere (spread ∅ (filters (ctl s)))))
                  (select_count t (buildWhere (spread ∅ (filters (ctl s)))))
                  batches)
    /\ concat batches
       = remote_view t (sortBy (ctl s)) (effSortDir (ctl s)) (filters (ctl s))
    /\ remote_view t (sortBy (ctl s)) (effSortDir (ctl s)) (filters (ctl s))
       ≡ₚ filter (fun r => satisfies (buildWhere (spread ∅ (filters (ctl s)))) r = true) t
    /\ idb s' = foldl (fun d b => upsertRows b d) ∅ batches
    /\ pageCacheRef s' = pageCacheRef s /\ vw s' = vw s.
Proof.
  intros Hpre Harr Hfree Hf Hfuel.
  destruct (handleSyncToDevice_over_engine ts t s fuel Hpre Harr Hfree Hf Hfuel)
    as (s' & batches & Hrun & Hcat & Hidb & _ & Hcache & Hvw).
  exists s', batches. split; [exact Hrun|]. split; [exact Hcat|].
  split; [apply sort_by_Permutation|]. now repeat split.
Qed.

Lemma see_headers_app (hs : list string) (b1 b2 : list row) :
  see_headers (see_headers hs b1) b2 = see_headers hs (b1 ++ b2).
Proof. unfold see_headers. now rewrite foldl_app. Qed.

Lemma export_remote_loop_drains (net : remote) (c : controls) (V : list row)
  (fuel : nat) :
  (forall pg, 1 <= pg ->
     remote_comp net (page_params pg chunk (sortBy c) (effSortDir c) (filters c))
     = Resolved (Some (take (Z.to_nat chunk)
                         (drop (Z.to_nat ((pg - 1) * chunk)) V)))) ->
  forall (j : nat) (rows0 : list row) (hs : list string),
    Z.of_nat j * chunk <= Z.of_nat (length V) ->
    Z.of_nat (length V) - Z.of_nat j * chunk < Z.of_nat fuel ->
    export_remote_loop fuel net c (Z.of_nat j + 1) rows0 hs
    = Some (Resolved
              (rows0 ++ drop (j * Z.to_nat chunk) V,
               see_headers hs (drop (j * Z.to_nat chunk) V))).
Proof.
  intros Hpage.
  induction fuel as [|fuel IH]; intros j rows0 hs Hle Hfuel; [lia|].
  cbn [export_remote_loop].
  rewrite Hpage by lia.
  replace (Z.to_nat ((Z.of_nat j + 1 - 1) * chunk))
    with (j * Z.to_nat chunk)%nat by (unfold chunk; lia).
  cbn [from_option]. unfold id.
  set (batch := take (Z.to_nat chunk) (drop (j * Z.to_nat chunk) V)).
  assert (Hn : Z.of_nat (length batch)
               = Z.min chunk (Z.of_nat (length V) - Z.of_nat j * chunk)).
  { unfold batch. rewrite length_take, length_drop. unfold chunk in *. lia. }
  destruct (Z.of_nat (length batch) =? 0) eqn:Hz.
  - apply Z.eqb_eq in Hz.
    rewrite drop_ge by (unfold chunk in *; lia).
    now rewrite app_nil_r.
  - destruct (Z.of_nat (length batch) <? chunk) eqn:Hs.
    + apply Z.ltb_lt in Hs.
      assert (Hb : batch = drop (j * Z.to_nat chunk) V).
      { unfold batch. apply take_ge. rewrite length_drop. unfold chunk in *. lia. }
      now rewrite <- Hb.
    + apply Z.ltb_ge in Hs. apply Z.eqb_neq in Hz.
      replace (Z.of_nat j + 1 + 1) with (Z.of_nat (S j) + 1) by lia.
      rewrite IH by (unfold chunk in *; lia).
      assert (Hsplit : drop (j * Z.to_nat chunk) V
                       = batch ++ drop (S j * Z.to_nat chunk) V).
      { unfold batch.
        replace (S j * Z.to_nat chunk)%nat
          with (j * Z.to_nat chunk + Z.to_nat chunk)%nat by lia.
        rewrite <- drop_drop. symmetry. apply take_drop. }
      rewrite Hsplit, see_headers_app, <- app_assoc. reflexivity.
Qed.

Lemma handleDownloadExcel_over_engine (fuel : nat) (ts : query -> table) (t : table)
  (today : string) (s : app_state) :
  total_preorder -> arranges ts t ->
  tie_free t (sortBy (ctl s)) (filters (ctl s)) ->
  offline (ctl s) = false ->
  filter_keys_known (filters (ctl s)) = true ->
  select_count t (buildWhere (spread ∅ (filters (ctl s)))) < Z.of_nat fuel ->
  handleDownloadExcel fuel (server_in ts) today s
  = Some (export_done s,
          Some (materialize false today
                  (remote_view t (sortBy (ctl s)) (effSortDir (ctl s)) (filters (ctl s)))
                  (see_headers (set_of BASE_COLS)
                     (remote_view t (sortBy (ctl s)) (effSortDir (ctl s))
                        (filters (ctl s)))))).
Proof.
  intros Hpre Harr Hfree Hoff Hf Hfuel. set (c := ctl s) in *.
  rewrite (select_count_view t (sortBy c) (effSortDir c)) in Hfuel.
  destruct (server_in_serves ts t c chunk Hpre Harr Hfree Hf)
    as [Hcount Hpage]; [unfold chunk; lia|].
  unfold handleDownloadExcel. fold c. rewrite Hoff, Hcount.
  pose proof (export_remote_loop_drains (server_in ts) c _ fuel Hpage 0 []
                (set_of BASE_COLS)) as H.
  change (Z.of_nat 0 * chunk) with 0 in H. change (Z.of_nat 0 + 1) with 1 in H.
  change (drop (0 * Z.to_nat chunk) ?l) with l in H. cbn [app] in H.
  now rewrite H by lia.
Qed.

(** X7.  In server mode against a backend whose engine is free in the order
    of ties, for any table and any filters over known columns: where no two
    selected rows tie in the sort column, the export delivers every selected
    row, each once, in the order asked for, and its header row holds the
    keys of all of them; it needs no more iterations than there are rows,
    plus one. *)
Theorem server_export_complete (fuel : nat) (ts : query -> table) (t : table)
  (today : string) (s : app_state) :
  total_preorder -> arranges ts t ->
  tie_free t (sortBy (ctl s)) (filters (ctl s)) ->
  offline (ctl s) = false ->
  filter_keys_known (filters (ctl s)) = true ->
  select_count t (buildWhere (spread ∅ (filters (ctl s)))) < Z.of_nat fuel ->
  exists file,
    handleDownloadExcel fuel (server_in ts) today s = Some (export_done s, Some file)
    /\ exp_normalized file
       = map (normalize_row (exp_headers file))
           (remote_view t (sortBy (ctl s)) (effSortDir (ctl s)) (filters (ctl s)))
    /\ remote_view t (sortBy (ctl s)) (effSortDir (ctl s)) (filters (ctl s))
       ≡ₚ filter (fun r => satisfies (buildWhere (spread ∅ (filters (ctl s)))) r = true) t
    /\ (forall r k,
          r ∈ t -> satisfies (buildWhere (spread ∅ (filters (ctl s)))) r = true ->
          k ∈ keys r -> k ∈ exp_headers file)
    /\ Z.of_nat (length (exp_normalized file))
       = select_count t (buildWhere (spread ∅ (filters (ctl s)))).
Proof.
  intros Hpre Harr Hfree Hoff Hf Hfuel.
  rewrite (handleDownloadExcel_over_engine fuel ts t today s) by assumption.
  eexists. split; [reflexivity|]. split; [reflexivity|].
  split; [apply sort_by_Permutation|]. split.
  - intros r k Hr Hsat Hk. apply materialize_headers_seen.
    apply elem_of_see_headers. right. exists r. split; [|exact Hk].
    unfold remote_view. rewrite sort_by_Permutation.
    apply list_elem_of_filter. now split.
  - cbn [materialize exp_normalized]. rewrite length_map.
    now rewrite (select_count_view t (sortBy (ctl s)) (effSortDir (ctl s))).
Qed.

(** ** What [upsertRows] leaves in the store *)

Lemma upsert_from_other (batch : list row) (i : Z) (db : store) (k : jsval) :
  (forall (m : nat) (r' : row),
     batch !! m = Some r' -> makeKey r' (i + Z.of_nat m) <> k) ->
  upsert_from i batch db !! k = db !! k.
Proof.
  revert i db; induction batch as [|r0 batch IH]; intros i db H; [reflexivity|].
  cbn [upsert_from]. rewrite IH.
  - apply lookup_insert_ne. specialize (H 0%nat r0 eq_refl).
    now replace (i + Z.of_nat 0) with i in H by lia.
  - intros m r' Hm. specialize (H (S m) r' Hm).
    now replace (i + 1 + Z.of_nat m) with (i + Z.of_nat (S m)) by lia.
Qed.

Lemma upsert_from_last_write_wins (batch : list row) (i : Z) (db : store)
  (n : nat) (r : row) :
  batch !! n = Some r ->
  (forall (m : nat) (r' : row),
     (n < m)%nat -> batch !! m = Some r' ->
     makeKey r' (i + Z.of_nat m) <> makeKey r (i + Z.of_nat n)) ->
  upsert_from i batch db !! makeKey r (i + Z.of_nat n)
  = Some (stored r (i + Z.of_nat n)).
Proof.
  revert i db n; induction batch as [|r0 batch IH]; intros i db n Hn Hlater;
    [discriminate|].
  cbn [upsert_from]. destruct n as [|n].
  - injection Hn as ->. replace (i + Z.of_nat 0) with i in * by lia.
    rewrite upsert_from_other; [apply lookup_insert_eq|].
    intros m r' Hm. specialize (Hlater (S m) r' ltac:(lia) Hm).
    now replace (i + 1 + Z.of_nat m) with (i + Z.of_nat (S m)) by lia.
  - replace (i + Z.of_nat (S n)) with (i + 1 + Z.of_nat n) by lia.
    apply IH; [exact Hn|].
    intros m r' Hlt Hm. specialize (Hlater (S m) r' ltac:(lia) Hm).
    replace (i + Z.of_nat (S m)) with (i + 1 + Z.of_nat m) in Hlater by lia.
    now replace (i + Z.of_nat (S n)) with (i + 1 + Z.of_nat n) in Hlater by lia.
Qed.

(** X11.  Last write wins.  A row of the batch that no later row of the batch
    shares its key with is found, after [upsertRows], under its key, as the
    row itself with [rowKey] set to that key, whatever the store held
    before. *)
Theorem upsertRows_last_write_wins (batch : list row) (db : store)
  (n : nat) (r : row) :
  batch !! n = Some r ->
  (forall (m : nat) (r' : row),
     (n < m)%nat -> batch !! m = Some r' ->
     makeKey r' (Z.of_nat m) <> makeKey r (Z.of_nat n)) ->
  upsertRows batch db !! makeKey r (Z.of_nat n) = Some (stored r (Z.of_nat n))
  /\ get (stored r (Z.of_nat n)) "rowKey" = Some (makeKey r (Z.of_nat n))
  /\ forall col, col <> "rowKey" -> get (stored r (Z.of_nat n)) col = get r col.
Proof.
  intros Hn Hlater. split; [|split].
  - apply (upsert_from_last_write_wins batch 0 db n r Hn Hlater).
  - unfold stored. rewrite get_set_field. now rewrite String.eqb_refl.
  - intros col Hcol. unfold stored. rewrite get_set_field.
    destruct (String.eqb_spec "rowKey" col); [congruence | reflexivity].
Qed.

(** X12.  Entries under keys that no row of the batch takes are left as they
    were. *)
Theorem upsertRows_keeps_other_keys (batch : list row) (db : store) (k : jsval) :
  (forall (m : nat) (r' : row), batch !! m = Some r' -> makeKey r' (Z.of_nat m) <> k) ->
  upsertRows batch db !! k = db !! k.
Proof. intros H. apply (upsert_from_other batch 0 db k H). Qed.

Lemma size_upsert_from (batch : list row) (i : Z) (db : store) :
  (size (upsert_from i batch db) <= size db + length batch)%nat.
Proof.
  revert i db; induction batch as [|r0 batch IH]; intros i db; cbn [upsert_from length].
  - lia.
  - etransitivity; [apply IH|].
    destruct (db !! makeKey r0 i) eqn:E.
    + rewrite map_size_insert_Some by eauto. lia.
    + rewrite map_size_insert_None by assumption. lia.
Qed.

(** ** The device after a sync *)

Lemma makeKey_own_key (r : row) (i : Z) :
  has_own_key r = true -> makeKey r i = makeKey r 0.
Proof.
  unfold has_own_key, makeKey.
  destruct (nullish (get r "id")); [reflexivity|].
  destruct (nullish (get r "Folio_Dpid")); [reflexivity | discriminate].
Qed.

Lemma upsert_from_own_keys (batch : list row) (i : Z) (db : store) :
  Forall (fun r => has_own_key r = true) batch ->
  upsert_from i batch db
  = foldl (fun d r => <[makeKey r 0 := stored r 0]> d) db batch.
Proof.
  revert i db; induction batch as [|r batch IH]; intros i db H; [reflexivity|].
  inversion H as [|? ? Hr Hb]; subst. cbn [upsert_from foldl].
  rewrite IH by assumption. unfold stored. now rewrite (makeKey_own_key r i Hr).
Qed.

Lemma upsert_batches_own_keys (batches : list (list row)) (db : store) :
  Forall (fun r => has_own_key r = true) (concat batches) ->
  foldl (fun d b => upsertRows b d) db batches
  = foldl (fun d r => <[makeKey r 0 := stored r 0]> d) db (concat batches).
Proof.
  revert db; induction batches as [|b batches IH]; intros db H; [reflexivity|].
  cbn [concat] in *. apply Forall_app in H as [Hb Hrest].
  cbn [foldl]. rewrite foldl_app, IH by assumption.
  unfold upsertRows. now rewrite upsert_from_own_keys.
Qed.

Lemma map_to_list_puts (l : list row) (db : store) :
  NoDup (map (fun r => makeKey r 0) l) ->
  (forall r, r ∈ l -> db !! makeKey r 0 = None) ->
  map_to_list (foldl (fun d r => <[makeKey r 0 := stored r 0]> d) db l)
  ≡ₚ map (fun r => (makeKey r 0, stored r 0)) l ++ map_to_list db.
Proof.
  revert db; induction l as [|r l IH]; intros db Hnd Hfresh; [reflexivity|].
  cbn [map] in Hnd. apply NoDup_cons in Hnd as [Hr Hnd].
  cbn [foldl map]. rewrite IH; [| exact Hnd |].
  - rewrite map_to_list_insert by (apply Hfresh; constructor).
    symmetry. apply Permutation_middle.
  - intros r' Hr'. rewrite lookup_insert_ne.
    + apply Hfresh. now constructor.
    + intros Heq. apply Hr. rewrite Heq.
      apply list_elem_of_fmap. now exists r'.
Qed.

Lemma get_stored_other (r : row) (i : Z) (col : string) :
  col <> "rowKey" -> get (stored r i) col = get r col.
Proof.
  intros Hcol. unfold stored. rewrite get_set_field.
  destruct (String.eqb_spec "rowKey" col); [congruence | reflexivity].
Qed.

Lemma rowMatches_ext (r r' : row) (f : filterset) :
  (forall kv, kv ∈ f -> get r (fst kv) = get r' (fst kv)) ->
  rowMatches r f = rowMatches r' f.
Proof.
  induction f as [|[k v] f IH]; intros H; [reflexivity|].
  cbn [rowMatches]. pose proof (H (k, v) ltac:(constructor)) as Hk.
  cbn [fst] in Hk. rewrite Hk.
  rewrite IH; [reflexivity|]. intros kv Hkv. apply H. now constructor.
Qed.

Lemma rowMatches_stored (r : row) (i : Z) (f : filterset) :
  filter_keys_known f = true -> rowMatches (stored r i) f = rowMatches r f.
Proof.
  intros Hf. apply rowMatches_ext. intros kv Hkv. apply get_stored_other.
  intros Heq. unfold filter_keys_known in Hf. rewrite forallb_forall in Hf.
  specialize (Hf kv (proj1 (list_elem_of_In _ _) Hkv)).
  rewrite Heq in Hf. vm_compute in Hf. discriminate.
Qed.

Lemma length_filter_map {A B} (g : A -> B) (P : B -> bool) (l : list A) :
  length (filter (fun y => P y = true) (map g l))
  = length (filter (fun x => P (g x) = true) l).
Proof.
  induction l as [|x l IH]; [reflexivity|].
  cbn [map]. rewrite !filter_cons. destruct (P (g x)) eqn:E.
  - rewrite !decide_True by reflexivity. cbn [length]. now rewrite IH.
  - rewrite !decide_False by discriminate. exact IH.
Qed.

Lemma idb_after_sync (ts : query -> table) (t : table) (s : app_state) (fuel : nat) :
  total_preorder -> arranges ts t ->
  tie_free t (sortBy (ctl s)) (filters (ctl s)) ->
  filter_keys_known (filters (ctl s)) = true ->
  select_count t (buildWhere (spread ∅ (filters (ctl s)))) < Z.of_nat fuel ->
  Forall (fun r => has_own_key r = true) t ->
  NoDup (map (fun r => makeKey r 0) t) ->
  exists s' report,
    handleSyncToDevice fuel (server_in ts) s = Some (s', report)
    /\ ctl s' = ctl s
    /\ map_to_list (idb s')
       ≡ₚ map (fun r => (makeKey r 0, stored r 0))
            (filter (fun r => satisfies (buildWhere (spread ∅ (filters (ctl s)))) r = true) t).
Proof.
  intros Hpre Harr Hfree Hf Hfuel Hown Hnd.
  destruct (handleSyncToDevice_over_engine ts t s fuel Hpre Harr Hfree Hf Hfuel)
    as (s' & batches & Hrun & Hcat & Hidb & Hctl & _).
  exists s'. eexists. split; [exact Hrun|]. split; [exact Hctl|].
  set (V := remote_view t (sortBy (ctl s)) (effSortDir (ctl s)) (filters (ctl s))) in *.
  assert (HV : V ≡ₚ filter (fun r => satisfies (buildWhere (spread ∅ (filters (ctl s)))) r = true) t).
  { unfold V, remote_view. apply sort_by_Permutation. }
  assert (HownV : Forall (fun r => has_own_key r = true) V).
  { rewrite HV. apply Forall_forall. intros r Hr.
    apply list_elem_of_filter in Hr as [_ Hr].
    rewrite Forall_forall in Hown. now apply Hown. }
  assert (HndV : NoDup (map (fun r => makeKey r 0) V)).
  { rewrite HV. eapply sublist_NoDup; [exact Hnd|].
    apply fmap_sublist, sublist_filter. }
  rewrite Hidb, upsert_batches_own_keys by (rewrite Hcat; exact HownV).
  rewrite Hcat, map_to_list_puts; [| exact HndV | intros; apply lookup_empty].
  rewrite map_to_list_empty, app_nil_r. now rewrite HV.
Qed.

(** X9.  The device mirrors the table.  Take a backend whose engine is free
    in the order of ties and a table in which no two selected rows tie in
    the sort column.  When every row of the table carries an [id] or a
    [Folio_Dpid] and these keys are pairwise different, a finished sync
    leaves on the device exactly the rows selected by the sync's filters,
    each once, under its key and with [rowKey] added; the local count for
    any filters over known columns then counts, among those rows, the ones
    passing [rowMatches]. *)
Theorem sync_mirrors_matching_rows (ts : query -> table) (t : table) (s : app_state)
  (fuel : nat) (f' : filterset) :
  total_preorder -> arranges ts t ->
  tie_free t (sortBy (ctl s)) (filters (ctl s)) ->
  filter_keys_known (filters (ctl s)) = true ->
  select_count t (buildWhere (spread ∅ (filters (ctl s)))) < Z.of_nat fuel ->
  Forall (fun r => has_own_key r = true) t ->
  NoDup (map (fun r => makeKey r 0) t) ->
  filter_keys_known f' = true ->
  exists s' report,
    handleSyncToDevice fuel (server_in ts) s = Some (s', report)
    /\ map_to_list (idb s')
       ≡ₚ map (fun r => (makeKey r 0, stored r 0))
            (filter (fun r => satisfies (buildWhere (spread ∅ (filters (ctl s)))) r = true) t)
    /\ getCountFromIDB (idb s') f'
       = Z.of_nat (length
           (filter (fun r => rowMatches r f' = true)
              (filter (fun r => satisfies (buildWhere (spread ∅ (filters (ctl s)))) r = true) t))).
Proof.
  intros Hpre Harr Hfree Hf Hfuel Hown Hnd Hf'.
  destruct (idb_after_sync ts t s fuel Hpre Harr Hfree Hf Hfuel Hown Hnd)
    as (s' & report & Hrun & _ & Hidb).
  exists s', report. split; [exact Hrun|]. split; [exact Hidb|].
  unfold getCountFromIDB. rewrite foldl_count, cursor_length_filter.
  rewrite Z.add_0_l. f_equal. rewrite Hidb.
  rewrite (length_filter_map (fun r => (makeKey r 0, stored r 0))
             (fun kv => rowMatches (snd kv) f')).
  f_equal. apply list_filter_iff. intros r. cbn [snd].
  now rewrite rowMatches_stored.
Qed.

(** ** Sync, then export from the device *)

Lemma foldl_set_add_known (l hs : list string) :
  Forall (fun k => k ∈ hs) l -> foldl set_add hs l = hs.
Proof.
  induction l as [|k l IH]; intros H; [reflexivity|].
  inversion H as [|? ? Hk Hl]; subst. cbn [foldl]. unfold set_add at 2.
  apply arr_includes_elem in Hk. rewrite Hk. now apply IH.
Qed.

Lemma see_headers_known (batch : list row) (hs : list string) :
  Forall (fun r => forall k, k ∈ keys r -> k ∈ hs) batch ->
  see_headers hs batch = hs.
Proof.
  unfold see_headers. induction batch as [|r batch IH]; intros H; [reflexivity|].
  inversion H as [|? ? Hr Hb]; subst. cbn [foldl].
  rewrite foldl_set_add_known by (apply Forall_forall; exact Hr). now apply IH.
Qed.

Lemma normalize_row_ext (headers : list string) (r r' : row) :
  (forall h, h ∈ headers -> get r h = get r' h) ->
  normalize_row headers r = normalize_row headers r'.
Proof.
  unfold normalize_row. generalize (@nil (string * jsval)) as acc.
  induction headers as [|h headers IH]; intros acc H; [reflexivity|].
  cbn [foldl]. rewrite (H h) by constructor. apply IH.
  intros h' Hh'. apply H. now constructor.
Qed.

Lemma normalize_row_stored (r : row) (i : Z) :
  normalize_row BASE_COLS (stored r i) = normalize_row BASE_COLS r.
Proof.
  apply normalize_row_ext. intros h Hh. apply get_stored_other.
  intros ->. apply arr_includes_elem in Hh. vm_compute in Hh. discriminate.
Qed.

Lemma filter_map_all {A B} (g : A -> B) (P : B -> Prop)
  `{forall y, Decision (P y)} (l : list A) :
  (forall x, x ∈ l -> P (g x)) -> filter P (map g l) = map g l.
Proof.
  induction l as [|x l IH]; intros Hall; [reflexivity|].
  cbn [map]. rewrite filter_cons, decide_True by (apply Hall; constructor).
  f_equal. apply IH. intros y Hy. apply Hall. now constructor.
Qed.

(** X10.  Convergence.  Take a backend whose engine is free in the order of
    ties, a table in which no two selected rows tie in the sort column and
    whose rows carry pairwise different keys of their own and no column
    outside the known schema, and filters under which [rowMatches] accepts
    every row the backend selects (no pattern at all, for one).  Then
    exporting from the server, and syncing and then exporting from the
    device, write the same header row and the same output rows, up to their
    order. *)
Theorem sync_then_offline_export_agrees (ts : query -> table) (t : table)
  (s : app_state) (fuel : nat) (net : remote) (today : string) :
  total_preorder -> arranges ts t ->
  tie_free t (sortBy (ctl s)) (filters (ctl s)) ->
  offline (ctl s) = false ->
  filter_keys_known (filters (ctl s)) = true ->
  select_count t (buildWhere (spread ∅ (filters (ctl s)))) < Z.of_nat fuel ->
  Forall (fun r => has_own_key r = true) t ->
  NoDup (map (fun r => makeKey r 0) t) ->
  Forall (fun r => forall k, k ∈ keys r -> k ∈ BASE_COLS) t ->
  Forall (fun r => satisfies (buildWhere (spread ∅ (filters (ctl s)))) r = true ->
                   rowMatches r (filters (ctl s)) = true) t ->
  exists s1 report fileR sL fileL,
    handleDownloadExcel fuel (server_in ts) today s = Some (export_done s, Some fileR)
    /\ handleSyncToDevice fuel (server_in ts) s = Some (s1, report)
    /\ handleDownloadExcel fuel net today (with_ctl s1 (setOffline (ctl s1) true))
       = Some (sL, Some fileL)
    /\ exp_headers fileL = exp_headers fileR
    /\ exp_normalized fileL ≡ₚ exp_normalized fileR.
Proof.
  intros Hpre Harr Hfree Hoff Hf Hfuel Hown Hnd Hkeys Hagree.
  set (f := filters (ctl s)) in *.
  set (W := filter (fun r => satisfies (buildWhere (spread ∅ f)) r = true) t).
  set (V := remote_view t (sortBy (ctl s)) (effSortDir (ctl s)) f).
  assert (HV : V ≡ₚ W) by (unfold V, remote_view; apply sort_by_Permutation).
  assert (HW : forall r, r ∈ W -> r ∈ t /\ rowMatches r f = true).
  { intros r Hr. apply list_elem_of_filter in Hr as [Hsat Hr]. split; [exact Hr|].
    rewrite Forall_forall in Hagree. now apply Hagree. }
  destruct (idb_after_sync ts t s fuel Hpre Harr Hfree Hf Hfuel Hown Hnd)
    as (s1 & report & Hrun & Hctl & Hidb).
  fold f in Hidb. fold W in Hidb.
  set (sL0 := with_ctl s1 (setOffline (ctl s1) true)).
  assert (Hstored : map snd (map_to_list (idb s1)) ≡ₚ map (fun r => stored r 0) W).
  { rewrite Hidb, map_map. reflexivity. }
  assert (Hlocal : local_view (idb s1) (sortBy (ctl s)) (effSortDir (ctl s)) f
                   ≡ₚ map (fun r => stored r 0) W).
  { rewrite local_view_Permutation, Hstored.
    rewrite filter_map_all; [reflexivity|].
    intros r Hr. rewrite rowMatches_stored by exact Hf. now apply HW. }
  assert (HcountL : getCountFromIDB (idb s1) f < Z.of_nat fuel).
  { rewrite (local_count (idb s1) (sortBy (ctl s)) (effSortDir (ctl s)) f).
    rewrite Hlocal, length_map. unfold select_count in Hfuel. exact Hfuel. }
  exists s1, report. do 3 eexists.
  split; [apply (handleDownloadExcel_over_engine fuel ts t); assumption|].
  split; [exact Hrun|].
  split.
  { apply handleDownloadExcel_offline.
    - reflexivity.
    - unfold sL0, with_ctl, setOffline; cbn [ctl idb filters]. rewrite Hctl. exact HcountL. }
  assert (HhR : see_headers (set_of BASE_COLS) V = set_of BASE_COLS).
  { apply see_headers_known. rewrite HV. apply Forall_forall. intros r Hr k Hk.
    rewrite Forall_forall in Hkeys. apply (Hkeys r); [now apply HW | exact Hk]. }
  change (idb (with_ctl s1 (setOffline (ctl s1) true))) with (idb s1).
  change (sortBy (ctl (with_ctl s1 (setOffline (ctl s1) true))))
    with (sortBy (ctl s1)).
  change (effSortDir (ctl (with_ctl s1 (setOffline (ctl s1) true))))
    with (effSortDir (ctl s1)).
  change (filters (ctl (with_ctl s1 (setOffline (ctl s1) true))))
    with (filters (ctl s1)).
  rewrite Hctl. fold f. fold V.
  cbn [materialize exp_headers exp_normalized]. rewrite HhR.
  split; [reflexivity|].
  change (set_of (BASE_COLS ++ set_of BASE_COLS)) with BASE_COLS.
  rewrite Hlocal, HV, map_map.
  apply Permutation_refl'. apply map_ext. intros r. apply normalize_row_stored.
Qed.

(** ** Filters, once more *)

(** X1.  For filters over the known columns, [rowMatches] accepts a row exactly
    when every pattern that is not the empty string occurs, letter case
    aside, somewhere in the text of the row's value for that key (the empty
    text when the row has none). *)
Theorem rowMatches_substring (r : row) (f : filterset) :
  filter_keys_known f = true ->
  (rowMatches r f = true
   <-> forall k v, (k, v) ∈ f -> v <> EmptyString ->
         exists a b,
           toLowerCase (String_ (nullish_or (get r k) (JStr EmptyString)))
           = a +:+ toLowerCase v +:+ b).
Proof.
  intros _. rewrite rowMatches_spec. split; intros H k v Hin Hv.
  - apply includes_spec. now apply H.
  - apply includes_spec. now apply H.
Qed.

Lemma buildWhere_fold_elem (q : query) (l : list string) (acc : list like_clause)
  (c : like_clause) :
  c ∈ foldl
        (fun acc key =>
           match q !! key with
           | Some val =>
               if (str_truthy val && negb (String.eqb (trim val) EmptyString))%bool
               then acc ++ [LikeClause key ("%" +:+ val +:+ "%")]
               else acc
           | None => acc
           end) acc l
  <-> c ∈ acc
      \/ exists val, lc_column c ∈ l /\ q !! lc_column c = Some val
                     /\ trim val <> EmptyString
                     /\ lc_value c = "%" +:+ val +:+ "%".
Proof.
  revert acc; induction l as [|key l IH]; intros acc; cbn [foldl].
  - split; [now left|]. intros [H|(val & H & _)]; [exact H | inversion H].
  - rewrite IH. clear IH. destruct (q !! key) as [val|] eqn:Eq.
    + unfold str_truthy.
      destruct (String.eqb_spec val EmptyString) as [Ev|Ev];
        destruct (String.eqb_spec (trim val) EmptyString) as [Et|Et]; cbn [negb andb].
      * split; [intros [H|(v & Hc & Hq & Ht & Hv)]|intros [H|(v & Hc & Hq & Ht & Hv)]];
          [now left | right; exists v; repeat split; [now constructor | ..]; assumption
          | now left |].
        apply elem_of_cons in Hc as [Hc|Hc]; [|right; now exists v].
        rewrite Hc, Eq in Hq. congruence.
      * subst val. now contradiction Et.
      * split; [intros [H|(v & Hc & Hq & Ht & Hv)]|intros [H|(v & Hc & Hq & Ht & Hv)]];
          [now left | right; exists v; repeat split; [now constructor | ..]; assumption
          | now left |].
        apply elem_of_cons in Hc as [Hc|Hc]; [|right; now exists v].
        rewrite Hc, Eq in Hq. congruence.
      * split.
        -- intros [H|(v & Hc & Hq & Ht & Hv)].
           ++ apply elem_of_app in H as [H|H]; [now left|].
              apply list_elem_of_singleton in H. subst c. right. exists val.
              cbn [lc_column lc_value]. repeat split; [constructor | assumption ..].
           ++ right. exists v. repeat split; [now constructor | assumption ..].
        -- intros [H|(v & Hc & Hq & Ht & Hv)].
           ++ left. apply elem_of_app. now left.
           ++ apply elem_of_cons in Hc as [Hc|Hc]; [|right; now exists v].
              left. apply elem_of_app. right. apply list_elem_of_singleton.
              destruct c as [col pat]. cbn [lc_column lc_value] in *.
              subst col. rewrite Eq in Hq. injection Hq as <-. now subst pat.
    + split; [intros [H|(v & Hc & Hq & Ht & Hv)]|intros [H|(v & Hc & Hq & Ht & Hv)]];
        [now left | right; exists v; repeat split; [now constructor | ..]; assumption
        | now left |].
      apply elem_of_cons in Hc as [Hc|Hc]; [|right; now exists v].
      rewrite Hc, Eq in Hq. discriminate.
Qed.

(** X2.  The clauses of [buildWhere] are exactly: for each column of the
    allow-list that the request gives a value that is not blank after
    trimming, that column with the pattern [%value%] (the value untrimmed).
    No other request key reaches a clause. *)
Theorem buildWhere_clauses (q : query) (c : like_clause) :
  c ∈ buildWhere q
  <-> exists val, lc_column c ∈ COLS /\ q !! lc_column c = Some val
                  /\ trim val <> EmptyString
                  /\ lc_value c = "%" +:+ val +:+ "%".
Proof.
  unfold buildWhere. rewrite buildWhere_fold_elem. split.
  - intros [H|H]; [inversion H | exact H].
  - now right.
Qed.

(** ** The page-load effect, on success *)

(** X13.  Round trip through the page cache.  After a run in server mode that
    misses the cache and gets both answers, the rows shown are stored under
    the key of the descriptor, every other entry is as before, and running
    the effect again on the same descriptor shows the same rows without a
    request, whatever has become of the network. *)
Theorem page_cache_round_trip (net : remote) (dev : device) (s : app_state)
  (count : option Z) (data : option (list row)) :
  offline (ctl s) = false ->
  pageCacheRef s !! cacheKey (ctl s) = None ->
  remote_count net
    (page_params (page (ctl s)) (pageSize (ctl s)) (sortBy (ctl s))
       (effSortDir (ctl s)) (debouncedFilters (ctl s))) = Resolved count ->
  remote_comp net
    (page_params (page (ctl s)) (pageSize (ctl s)) (sortBy (ctl s))
       (effSortDir (ctl s)) (debouncedFilters (ctl s))) = Resolved data ->
  let s1 := fst (loadPage net dev s) in
  rows (vw s1) = default [] data
  /\ totalCount (vw s1) = default 0 count
  /\ pageCacheRef s1 !! cacheKey (ctl s) = Some (rows (vw s1))
  /\ (forall k, k <> cacheKey (ctl s) -> pageCacheRef s1 !! k = pageCacheRef s !! k)
  /\ forall net' dev',
       rows (vw (fst (loadPage net' dev' s1))) = rows (vw s1)
       /\ snd (loadPage net' dev' s1) = [].
Proof.
  intros Hoff Hmiss Hcount Hdata. unfold loadPage at 1.
  rewrite Hoff, Hmiss, Hcount, Hdata. cbn zeta. cbn [fst vw rows totalCount pageCacheRef].
  split; [reflexivity|]. split; [reflexivity|].
  split; [apply lookup_insert_eq|].
  split; [intros k Hk; now apply lookup_insert_ne|].
  intros net' dev'. unfold loadPage. cbn [ctl pageCacheRef].
  rewrite Hoff, lookup_insert_eq. split; reflexivity.
Qed.

(** X14.  Offline, a run of the page-load effect neither reads nor writes the page
    cache and sends nothing to the server: its outcome is the same over any
    network, and the rows and the total it shows, when the device answers,
    are those of [getPageFromIDB] and [getCountFromIDB]. *)
Theorem offline_load_is_local (net net' : remote) (dev : device) (s : app_state) :
  offline (ctl s) = true ->
  loadPage net dev s = loadPage net' dev s
  /\ pageCacheRef (fst (loadPage net dev s)) = pageCacheRef s
  /\ forallb local_call (snd (loadPage net dev s)) = true
  /\ (count_fault dev = None -> page_fault dev = None ->
      rows (vw (fst (loadPage net dev s)))
      = res_rows (getPageFromIDB (idb s)
                    (PageRequest (page (ctl s)) (pageSize (ctl s)) (sortBy (ctl s))
                       (effSortDir (ctl s)) (debouncedFilters (ctl s))))
      /\ totalCount (vw (fst (loadPage net dev s)))
         = getCountFromIDB (idb s) (debouncedFilters (ctl s))).
Proof.
  intros Hoff. unfold loadPage. rewrite Hoff.
  destruct (count_fault dev) as [e|]; [repeat split; discriminate|].
  destruct (page_fault dev) as [e|]; [repeat split; discriminate|].
  repeat split.
Qed.

(** X15.  Client and backend together.  In server mode, for a page number of at
    least 1, a page size between 1 and 10000 and filters over known columns,
    a run that misses the cache shows the requested window of the matching
    rows of the table, in the order asked for, and their number as the
    total. *)
Theorem server_load_shows_requested_window (t : table) (dev : device) (s : app_state) :
  offline (ctl s) = false ->
  pageCacheRef s !! cacheKey (ctl s) = None ->
  filter_keys_known (debouncedFilters (ctl s)) = true ->
  1 <= page (ctl s) -> 1 <= pageSize (ctl s) <= 10000 ->
  let V := remote_view t (sortBy (ctl s)) (effSortDir (ctl s))
             (debouncedFilters (ctl s)) in
  rows (vw (fst (loadPage (server t) dev s)))
  = take (Z.to_nat (pageSize (ctl s)))
      (drop (Z.to_nat ((page (ctl s) - 1) * pageSize (ctl s))) V)
  /\ totalCount (vw (fst (loadPage (server t) dev s))) = Z.of_nat (length V)
  /\ error (vw (fst (loadPage (server t) dev s))) = EmptyString.
Proof.
  intros Hoff Hmiss Hf Hpg Hps V. unfold loadPage. rewrite Hoff, Hmiss.
  rewrite server_page by assumption.
  assert (Hc : remote_count (server t)
                 (page_params (page (ctl s)) (pageSize (ctl s)) (sortBy (ctl s))
                    (effSortDir (ctl s)) (debouncedFilters (ctl s)))
               = Resolved (Some (Z.of_nat (length V)))).
  { unfold server, get_comp_count; cbn [remote_count axios_get].
    rewrite buildWhere_page_params. unfold select_count, V, remote_view.
    now rewrite length_sort_by. }
  rewrite Hc. repeat split.
Qed.

(** ** Column aliases *)

Lemma COL_KEYS_canonical_first (col : string) (ks : list string) :
  alist_get COL_KEYS col = Some ks -> exists ks', ks = col :: ks'.
Proof.
  unfold COL_KEYS. cbn [alist_get].
  repeat match goal with
  | |- context [String.eqb ?a col] =>
      destruct (String.eqb_spec a col) as [<-|_];
        [intros [= <-]; eexists; reflexivity|]
  end.
  discriminate.
Qed.

Lemma first_present_source (r : row) (ks : list string) :
  first_present r ks = JStr EmptyString
  \/ exists k, k ∈ ks /\ get r k = Some (first_present r ks).
Proof.
  induction ks as [|k ks IH]; cbn [first_present]; [now left|].
  destruct (get r k) as [[|z|x]|] eqn:E; cbn [nullish].
  - destruct IH as [IH|(k' & Hk' & IH)]; [now left|].
    right. exists k'. split; [now constructor | exact IH].
  - right. exists k. split; [constructor | exact E].
  - right. exists k. split; [constructor | exact E].
  - destruct IH as [IH|(k' & Hk' & IH)]; [now left|].
    right. exists k'. split; [now constructor | exact IH].
Qed.

Lemma first_present_not_null (r : row) (ks : list string) :
  first_present r ks <> JNull.
Proof.
  induction ks as [|k ks IH]; cbn [first_present]; [discriminate|].
  destruct (get r k) as [[|z|x]|]; cbn [nullish]; try assumption; discriminate.
Qed.

(** X16.  [valueOf] resolves a column of the schema through its aliases: a value
    the row holds under the column's own name wins; otherwise the result is
    the value under one of the accepted spellings, or the empty string; it
    is never [null]. *)
Theorem valueOf_resolves (r : row) (col : string) :
  col ∈ BASE_COLS ->
  (forall v, nullish (get r col) = Some v -> valueOf r col = v)
  /\ (valueOf r col = JStr EmptyString
      \/ exists k, k ∈ default [col] (alist_get COL_KEYS col)
                   /\ get r k = Some (valueOf r col))
  /\ valueOf r col <> JNull.
Proof.
  intros _. unfold valueOf. split; [|split].
  - intros v Hv. destruct (alist_get COL_KEYS col) as [ks|] eqn:E.
    + destruct (COL_KEYS_canonical_first col ks E) as (ks' & ->).
      cbn [from_option id first_present]. unfold id. now rewrite Hv.
    + cbn [from_option first_present]. now rewrite Hv.
  - apply first_present_source.
  - apply first_present_not_null.
Qed.

(** ** Page arithmetic and the pager *)

Lemma ceil_div_bounds (a b : Z) :
  0 < b -> a <= ceil_div a b * b /\ (ceil_div a b - 1) * b < a.
Proof.
  intros Hb. unfold ceil_div.
  pose proof (Z.mul_div_le (- a) b Hb).
  pose proof (Z.mul_succ_div_gt (- a) b Hb). nia.
Qed.

(** X5.  The pager's page range is exactly the range of non-empty local pages:
    with a positive page size, page [pg >= 1] of [getPageFromIDB] holds a
    row if and only if there are matching rows and [pg] is at most
    [totalPages] of their count. *)
Theorem totalPages_bounds_nonempty_pages (db : store) (pg ps : Z) (sb sd : string)
  (f : filterset) :
  0 < ps -> 1 <= pg ->
  res_rows (getPageFromIDB db (PageRequest pg ps sb sd f)) <> []
  <-> 0 < getCountFromIDB db f /\ pg <= totalPages (getCountFromIDB db f) ps.
Proof.
  intros Hps Hpg. rewrite local_page by lia.
  rewrite (local_count db sb sd f).
  set (V := local_view db sb sd f). unfold totalPages.
  destruct (ceil_div_bounds (Z.of_nat (length V)) ps Hps) as [Hup Hlo].
  rewrite <- length_zero_iff_nil, length_take, length_drop. split.
  - intros H. split; [lia|]. nia.
  - intros [Hpos Hle]. nia.
Qed.

Lemma pager_window_facts (tp cur : Z) :
  1 <= tp -> 1 <= cur <= tp ->
  1 <= fst (pager_window tp cur) <= cur
  /\ cur <= snd (pager_window tp cur) <= tp
  /\ snd (pager_window tp cur) - fst (pager_window tp cur) <= 6.
Proof.
  intros Htp Hcur. unfold pager_window, windowSize.
  destruct (Z.min tp (Z.max 1 (cur - 3) + 7 - 1) - Z.max 1 (cur - 3) <? 7 - 1) eqn:E;
    cbn [fst snd]; lia.
Qed.

Lemma page_buttons_app (l1 l2 : list pager_item) :
  page_buttons (l1 ++ l2) = page_buttons l1 ++ page_buttons l2.
Proof. unfold page_buttons. apply omap_app. Qed.

Lemma page_buttons_numbers (g : Z -> bool) (l : list Z) :
  page_buttons (map (fun n => PageBtn n (g n)) l) = l.
Proof.
  unfold page_buttons. induction l as [|n l IH]; [reflexivity|].
  cbn. f_equal. exact IH.
Qed.

Lemma page_buttons_Pager (tp cur : Z) :
  page_buttons (Pager tp cur)
  = (if 1 <? fst (pager_window tp cur) then [1] else [])
    ++ seqZ (fst (pager_window tp cur))
            (snd (pager_window tp cur) - fst (pager_window tp cur) + 1)
    ++ (if snd (pager_window tp cur) <? tp then [tp] else []).
Proof.
  unfold Pager. destruct (pager_window tp cur) as [a b]. cbn [fst snd].
  rewrite !page_buttons_app, page_buttons_numbers.
  destruct (1 <? a), (2 <? a), (b <? tp), (b <? tp - 1); reflexivity.
Qed.

Lemma PageBtn_elem (items : list pager_item) (n : Z) (a : bool) :
  PageBtn n a ∈ items -> n ∈ page_buttons items.
Proof.
  intros H. unfold page_buttons. apply list_elem_of_omap.
  exists (PageBtn n a). now split.
Qed.

Lemma Pager_buttons_range (tp cur : Z) :
  1 <= tp -> 1 <= cur <= tp ->
  True /\ forall n, n ∈ page_buttons (Pager tp cur) -> 1 <= n <= tp.
Proof.
  intros Htp Hcur.
  destruct (pager_window_facts tp cur Htp Hcur) as (Ha & Hb & Hw).
  split; [exact I|]. intros n. rewrite page_buttons_Pager.
  rewrite !elem_of_app, elem_of_seqZ.
  destruct (Z.ltb_spec 1 (fst (pager_window tp cur))),
           (Z.ltb_spec (snd (pager_window tp cur)) tp);
    rewrite ?list_elem_of_singleton, ?elem_of_nil; lia.
Qed.

(** X17.  What the pager offers.  With at least one page and the current page in
    range, the numbered buttons show pairwise different pages, all in range,
    among them the first, the last and the current page, at most nine in
    all; and a button is marked active exactly when it is the current
    page's. *)
Theorem Pager_buttons (tp cur : Z) :
  1 <= tp -> 1 <= cur <= tp ->
  NoDup (page_buttons (Pager tp cur))
  /\ (forall n, n ∈ page_buttons (Pager tp cur) -> 1 <= n <= tp)
  /\ cur ∈ page_buttons (Pager tp cur)
  /\ 1 ∈ page_buttons (Pager tp cur)
  /\ tp ∈ page_buttons (Pager tp cur)
  /\ (length (page_buttons (Pager tp cur)) <= 9)%nat
  /\ forall n a, PageBtn n a ∈ Pager tp cur -> (a = true <-> n = cur).
Proof.
  intros Htp Hcur.
  destruct (pager_window_facts tp cur Htp Hcur) as (Ha & Hb & Hw).
  rewrite page_buttons_Pager.
  set (a := fst (pager_window tp cur)) in *.
  set (b := snd (pager_window tp cur)) in *.
  assert (Hin : forall n,
            n ∈ (if 1 <? a then [1] else []) ++ seqZ a (b - a + 1)
                ++ (if b <? tp then [tp] else [])
            <-> (1 < a /\ n = 1) \/ a <= n <= b \/ (b < tp /\ n = tp)).
  { intros n. rewrite !elem_of_app, elem_of_seqZ.
    destruct (Z.ltb_spec 1 a), (Z.ltb_spec b tp);
      rewrite ?list_elem_of_singleton, ?elem_of_nil; lia. }
  split; [|split; [|split; [|split; [|split; [|split]]]]].
  - apply NoDup_app. split; [|split].
    + destruct (1 <? a); [apply NoDup_singleton | apply NoDup_nil_2].
    + intros n H1 H2. destruct (Z.ltb_spec 1 a); [|inversion H1].
      apply list_elem_of_singleton in H1. subst n.
      apply elem_of_app in H2 as [H2|H2].
      * apply elem_of_seqZ in H2. lia.
      * destruct (Z.ltb_spec b tp); [|inversion H2].
        apply list_elem_of_singleton in H2. lia.
    + apply NoDup_app. split; [apply NoDup_seqZ|]. split.
      * intros n H1 H2. apply elem_of_seqZ in H1.
        destruct (Z.ltb_spec b tp); [|inversion H2].
        apply list_elem_of_singleton in H2. lia.
      * destruct (b <? tp); [apply NoDup_singleton | apply NoDup_nil_2].
  - intros n Hn. apply Hin in Hn. lia.
  - apply Hin. lia.
  - apply Hin. lia.
  - apply Hin. lia.
  - rewrite !length_app, length_seqZ.
    destruct (1 <? a), (b <? tp); cbn [length]; lia.
  - intros n act H. unfold Pager in H. fold a b in H.
    assert (Hpw : pager_window tp cur = (a, b)) by (unfold a, b; now destruct (pager_window tp cur)).
    rewrite Hpw in H.
    assert (Hact : act = (cur =? n)).
    { rewrite !elem_of_app in H.
      destruct H as [H|[H|[H|[H|H]]]].
      - apply list_elem_of_singleton in H. discriminate.
      - destruct (1 <? a); [|inversion H].
        apply elem_of_cons in H as [[= -> ->]|H]; [reflexivity|].
        destruct (2 <? a); [|inversion H].
        apply list_elem_of_singleton in H. discriminate.
      - apply list_elem_of_fmap in H as (m & [= -> ->] & _). reflexivity.
      - destruct (b <? tp); [|inversion H].
        apply elem_of_app in H as [H|H].
        + destruct (b <? tp - 1); [|inversion H].
          apply list_elem_of_singleton in H. discriminate.
        + apply list_elem_of_singleton in H. now injection H as -> ->.
      - apply list_elem_of_singleton in H. discriminate. }
    subst act. rewrite Z.eqb_eq. split; congruence.
Qed.

(** X18.  Every way the pager changes the page keeps it in range: the clamp after
    the total shrinks, which leaves the page that is shown; and from there a
    click on any item of the pager, or a jump to whatever is typed into the
    "Go to" field. *)
Theorem pager_actions_stay_in_range (tp pg : Z) :
  1 <= tp -> 1 <= pg ->
  (forall it, it ∈ Pager tp (curPage pg tp) ->
              1 <= click tp it (curPage pg tp) <= tp)
  /\ (forall input, 1 <= handleJump tp input (curPage pg tp) <= tp)
  /\ 1 <= clamp_page pg tp <= tp
  /\ clamp_page pg tp = curPage pg tp.
Proof.
  intros Htp Hpg. unfold curPage, clamp_page.
  assert (Hcur : 1 <= Z.min pg tp <= tp) by lia.
  split; [|split; [|split]].
  - intros [d|n act| |d] Hit; cbn [click].
    + destruct d; lia.
    + apply PageBtn_elem in Hit.
      now apply (proj2 (Pager_buttons_range tp (Z.min pg tp) Htp Hcur)).
    + lia.
    + destruct d; lia.
  - intros input. unfold handleJump. destruct (parseInt input) as [|num]; [lia|].
    destruct (Z.leb_spec 1 num), (Z.leb_spec num tp); cbn [andb]; lia.
  - destruct (Z.ltb_spec tp pg); lia.
  - destruct (Z.ltb_spec tp pg); lia.
Qed.

(** ** Sorting from the header *)

(** X19.  A click on a header makes that column the sort column, shows page
    1 and leaves the filters, the page size, the mode and the valuation
    order alone.  Unless a valuation order is chosen and the column is
    numeric, the click sets the direction: the other one on the current
    column, ascending on any other.  While a valuation order is chosen, a
    click on a numeric column, current or not, leaves the direction alone
    and that order in effect.  Two clicks on the current column bring back
    the sort the user had. *)
Theorem toggleSort_twice_restores (c : controls) (key : string) :
  sortDir c = "asc" \/ sortDir c = "desc" ->
  sortBy (toggleSort c key) = key
  /\ page (toggleSort c key) = 1
  /\ (filters (toggleSort c key) = filters c
      /\ pageSize (toggleSort c key) = pageSize c
      /\ offline (toggleSort c key) = offline c
      /\ valuationOrder (toggleSort c key) = valuationOrder c)
  /\ ((arr_includes NUMERIC_COLS key && str_truthy (valuationOrder c))%bool = false ->
      (sortBy c = key ->
       sortDir (toggleSort c key) <> sortDir c
       /\ (sortDir (toggleSort c key) = "asc" \/ sortDir (toggleSort c key) = "desc"))
      /\ (sortBy c <> key -> sortDir (toggleSort c key) = "asc"))
  /\ (arr_includes NUMERIC_COLS key = true -> valuationOrder c <> EmptyString ->
      sortDir (toggleSort c key) = sortDir c
      /\ effSortDir (toggleSort c key) = valuationOrder c)
  /\ (sortBy c = key ->
      sortBy (toggleSort (toggleSort c key) key) = sortBy c
      /\ sortDir (toggleSort (toggleSort c key) key) = sortDir c
      /\ effSortDir (toggleSort (toggleSort c key) key) = effSortDir c).
Proof.
  intros Hdir.
  assert (Hby : sortBy (toggleSort c key) = key).
  { unfold toggleSort. destruct (String.eqb_spec (sortBy c) key); cbn [sortBy]; auto. }
  split; [exact Hby|].
  split; [unfold toggleSort; now destruct (String.eqb (sortBy c) key)|].
  split; [unfold toggleSort; now destruct (String.eqb (sortBy c) key)|].
  split; [|split].
  - intros Hfree. unfold toggleSort. rewrite Hfree. split.
    + intros Hkey. apply String.eqb_eq in Hkey. rewrite Hkey. cbn [sortDir].
      destruct Hdir as [-> | ->]; cbn; split; auto; discriminate.
    + intros Hkey. apply String.eqb_neq in Hkey. now rewrite Hkey.
  - intros Hnum Hval.
    assert (Hpin : (arr_includes NUMERIC_COLS key && str_truthy (valuationOrder c))%bool
                   = true).
    { rewrite Hnum. unfold str_truthy.
      now destruct (String.eqb_spec (valuationOrder c) EmptyString). }
    assert (Hd : sortDir (toggleSort c key) = sortDir c).
    { unfold toggleSort. rewrite Hpin. now destruct (String.eqb (sortBy c) key). }
    split; [exact Hd|].
    assert (Hv : valuationOrder (toggleSort c key) = valuationOrder c).
    { unfold toggleSort. now destruct (String.eqb (sortBy c) key). }
    unfold effSortDir. rewrite Hv, Hby.
    apply andb_true_iff in Hpin as [_ Ht]. now rewrite Ht, Hnum.
  - intros Hkey. subst key. unfold toggleSort, effSortDir.
    rewrite String.eqb_refl. cbn [sortBy sortDir valuationOrder page].
    rewrite String.eqb_refl. cbn [sortBy sortDir valuationOrder page].
    unfold str_truthy.
    destruct (arr_includes NUMERIC_COLS (sortBy c));
      destruct (String.eqb_spec (valuationOrder c) EmptyString) as [Ev|Ev];
      cbn [andb negb];
      destruct Hdir as [-> | ->]; cbn; repeat split; congruence.
Qed.

(** ** Accounts *)

Lemma ci_equal_spec (s t : string) :
  ci_equal s t = true <-> toLowerCase s = toLowerCase t.
Proof.
  revert t; induction s as [|a s IH]; intros [|b t]; cbn [ci_equal toLowerCase];
    try (split; [discriminate | intros [=]]); [now split|].
  rewrite andb_true_iff, IH. split.
  - intros [Hab ->]. apply Ascii.eqb_eq in Hab. now rewrite Hab.
  - intros [= Hab Hst]. split; [now apply Ascii.eqb_eq | exact Hst].
Qed.

Lemma matches_at_end_spec (s pat : string) :
  matches_at_end s pat = true
  <-> exists pre suf, s = pre +:+ suf /\ toLowerCase suf = toLowerCase pat.
Proof.
  induction s as [|a s IH].
  - change (matches_at_end EmptyString pat) with (ci_equal EmptyString pat || false)%bool.
    rewrite orb_false_r, ci_equal_spec. split.
    + intros H. now exists EmptyString, EmptyString.
    + intros (pre & suf & Hs & H). destruct pre as [|c pre];
        [change (EmptyString +:+ suf) with suf in Hs; now subst suf
        | rewrite append_cons in Hs; discriminate].
  - change (matches_at_end (String a s) pat)
      with (ci_equal (String a s) pat || matches_at_end s pat)%bool.
    rewrite orb_true_iff, IH, ci_equal_spec. split.
    + intros [H|(pre & suf & Hs & H)].
      * now exists EmptyString, (String a s).
      * exists (String a pre), suf. rewrite append_cons. now rewrite Hs.
    + intros (pre & suf & Hs & H). destruct pre as [|c pre].
      * left. change (EmptyString +:+ suf) with suf in Hs. now subst suf.
      * right. rewrite append_cons in Hs. injection Hs as -> ->. now exists pre, suf.
Qed.

(** X22.  The domain gate of signup passes exactly the addresses that, once
    trimmed, end in [@thewealthfinder.in], letter case aside. *)
Theorem isAllowedDomain_spec (email : string) :
  isAllowedDomain (Some email) = true
  <-> exists pre suf, trim email = pre +:+ suf
                      /\ toLowerCase suf = "@thewealthfinder.in".
Proof. unfold isAllowedDomain. cbn [from_option]. apply matches_at_end_spec. Qed.

Lemma set_status_ids (db : userdb) (id : option Z) (st : string) :
  map u_id (users (set_status db id st)) = map u_id (users db)
  /\ next_id (set_status db id st) = next_id db.
Proof.
  destruct id as [i|]; [|now split]. cbn [set_status users next_id]. split; [|reflexivity].
  rewrite map_map. apply map_ext. intros u. now destruct (u_id u =? i).
Qed.

Lemma Forall_ids (n : Z) (l : list user) :
  Forall (fun u => u_id u < n) l <-> Forall (fun y => y < n) (map u_id l).
Proof.
  induction l as [|u l IH]; cbn [map]; [split; constructor|].
  rewrite !Forall_cons, IH. reflexivity.
Qed.

Lemma users_wf_same_ids (db db' : userdb) :
  map u_id (users db') = map u_id (users db) -> next_id db' = next_id db ->
  users_wf db -> users_wf db'.
Proof.
  intros Hids Hn [Hnd Hlt]. split; [now rewrite Hids|].
  rewrite Hn. apply Forall_ids. rewrite Hids. now apply Forall_ids.
Qed.

Lemma users_wf_insert (db : userdb) (name email h : string) :
  users_wf db -> users_wf (fst (insert_user db name email h)).
Proof.
  intros [Hnd Hlt]. unfold users_wf, insert_user; cbn [fst users next_id]. split.
  - rewrite map_app. apply NoDup_app. split; [exact Hnd|]. split.
    + intros x Hx Hx'. cbn in Hx'. apply list_elem_of_singleton in Hx'. subst x.
      apply list_elem_of_fmap in Hx as (u & Hu & Hin).
      rewrite Forall_forall in Hlt. specialize (Hlt u Hin). lia.
    + cbn. apply NoDup_singleton.
  - apply Forall_app. split.
    + eapply Forall_impl; [exact Hlt|]. cbn. intros u Hu. lia.
    + constructor; [cbn; lia | constructor].
Qed.

Lemma users_wf_delete (db : userdb) (id : Z) :
  users_wf db -> users_wf (delete_user db id).
Proof.
  intros [Hnd Hlt]. unfold users_wf, delete_user. cbn [users next_id]. split.
  - eapply sublist_NoDup; [exact Hnd|]. apply fmap_sublist, sublist_filter.
  - apply Forall_forall. intros u Hu. apply list_elem_of_filter in Hu as [_ Hu].
    rewrite Forall_forall in Hlt. now apply Hlt.
Qed.

Lemma users_wf_password (db : userdb) (id : Z) (h : string) :
  users_wf db -> users_wf (set_password_hash db id h).
Proof.
  apply users_wf_same_ids; [|reflexivity]. cbn [set_password_hash users].
  rewrite map_map. apply map_ext. intros u. now destruct (u_id u =? id).
Qed.

(** X23.  Every account endpoint that writes to table [users] keeps its ids
    pairwise different and below the counter. *)
Theorem endpoints_keep_ids_unique (db : userdb) :
  users_wf db ->
  (forall rq, users_wf (fst (fst (post_signup db rq))))
  /\ (forall token, users_wf (fst (get_approve db token)))
  /\ (forall token, users_wf (fst (get_remove db token)))
  /\ (forall token newPassword salt,
        users_wf (fst (post_password_reset db token newPassword salt)))
  /\ (forall authorization id, users_wf (fst (post_admin_delete db authorization id))).
Proof.
  intros Hwf. split; [|split; [|split; [|split]]].
  - intros rq. unfold post_signup.
    destruct (su_name rq), (su_email rq), (su_password rq); try exact Hwf.
    destruct (negb _); [exact Hwf|]. destruct (negb _); [exact Hwf|].
    destruct (users_by_email db _); [|exact Hwf].
    destruct (negb _); [exact Hwf|].
    apply (users_wf_insert db _ _ _ Hwf).
  - intros [tok|]; [|exact Hwf]. unfold get_approve.
    destruct (verifyJWT tok) as [p|]; [|exact Hwf].
    destruct (negb _); [exact Hwf|]. cbn [fst].
    eapply users_wf_same_ids; [apply set_status_ids | apply set_status_ids | exact Hwf].
  - intros [tok|]; [|exact Hwf]. unfold get_remove.
    destruct (verifyJWT tok) as [p|]; [|exact Hwf].
    destruct (negb _); [exact Hwf|]. cbn [fst].
    eapply users_wf_same_ids; [apply set_status_ids | apply set_status_ids | exact Hwf].
  - intros [tok|] [np|] salt; try exact Hwf. unfold post_password_reset.
    destruct (negb _); [exact Hwf|].
    destruct (verifyJWT tok) as [p|]; [|exact Hwf].
    destruct (tk_action p), (tk_uid p); try exact Hwf.
    destruct (_ && _)%bool; [|exact Hwf]. now apply users_wf_password.
  - intros authorization id. unfold post_admin_delete.
    destruct (requireAuth db authorization) as [ru|]; [|exact Hwf].
    destruct (requireAdmin ru); [|exact Hwf].
    destruct (users_by_id db (Some id)); [exact Hwf|].
    destruct (String.eqb _ _); [exact Hwf|]. now apply users_wf_delete.
Qed.

Lemma users_by_email_set_status (db : userdb) (id : option Z) (st email : string) :
  users_by_email (set_status db id st) email
  = map (fun u => if match id with Some i => u_id u =? i | None => false end
                  then User (u_id u) (u_name u) (u_email u) (u_password_hash u) st
                  else u)
        (users_by_email db email).
Proof.
  unfold users_by_email. destruct id as [i|]; cbn [set_status users].
  - induction (users db) as [|u l IH]; [reflexivity|].
    cbn [map]. rewrite !filter_cons.
    destruct (u_id u =? i) eqn:E; cbn [u_email];
      destruct (decide (email_eq (u_email u) email = true)); cbn [map];
      rewrite ?E, IH; reflexivity.
  - induction (filter _ (users db)) as [|u l IH]; [reflexivity|].
    cbn [map]. now rewrite <- IH.
Qed.

(** X24.  From signup to the first login.  A signup with all three fields, a name
    and an address within the widths of their columns, an address of the
    allowed domain and no account under that address adds the account as
    pending: logging in with the same address and password is
    refused with status 403.  Once the approval link of the signup mail is
    followed, the same login is granted a token, with the role read off the
    stored address. *)
Theorem signup_then_approve_then_login (db : userdb) (name email password : string)
  (base salt : string) (mail_ok : bool) :
  name <> EmptyString -> email <> EmptyString -> password <> EmptyString ->
  isAllowedDomain (Some email) = true ->
  fits_columns name email = true ->
  users_by_email db email = [] ->
  email_eq email email = true ->
  bcrypt_compare password (bcrypt_hash salt password) = true ->
  verifyJWT (approve_token (next_id db))
  = Some (Payload (Some "approve") (Some (next_id db)) None None None) ->
  let rq := SignupRequest (Some name) (Some email) (Some password) base salt mail_ok in
  let db1 := fst (fst (post_signup db rq)) in
  let db2 := fst (get_approve db1 (Some (approve_token (next_id db)))) in
  snd (fst (post_signup db rq)) = Ok "Signup received. Awaiting admin approval."
  /\ (mail_ok = true ->
      exists m, snd (post_signup db rq) = [m] /\ m_to m = ADMIN_EMAIL
                /\ base +:+ "/approve?token=" +:+ approve_token (next_id db) ∈ m_links m)
  /\ post_login db1 (Some email) (Some password)
     = Fail 403 "Account pending approval or removed"
  /\ snd (get_approve db1 (Some (approve_token (next_id db))))
     = Ok "User approved. They can log in now."
  /\ post_login db2 (Some email) (Some password)
     = Ok (signJWT (Payload None None (Some (next_id db)) (Some email)
                      (Some (role_of email))) "1d",
           role_of email).
Proof.
  intros Hn He Hp Hdom Hfit Hnew Hrefl Hbc Hjwt rq db1 db2.
  assert (Ht : forall x, x <> EmptyString -> str_truthy x = true).
  { intros x Hx. unfold str_truthy. now destruct (String.eqb_spec x EmptyString). }
  assert (Hsign : post_signup db rq
                  = (fst (insert_user db name email (bcrypt_hash salt password)),
                     Ok "Signup received. Awaiting admin approval.",
                     if mail_ok
                     then [Mail ADMIN_EMAIL
                             ("New User Signup Pending Approval: " +:+ name +:+ " <" +:+ email +:+ ">")
                             [base +:+ "/approve?token=" +:+ approve_token (next_id db);
                              base +:+ "/remove?token=" +:+ remove_token (next_id db)]]
                     else [])).
  { unfold post_signup, rq.
    cbn [su_name su_email su_password su_base su_salt su_mail_ok].
    rewrite (Ht _ Hn), (Ht _ He), (Ht _ Hp), Hdom, Hnew, Hfit. reflexivity. }
  assert (Hdb1 : db1 = fst (insert_user db name email (bcrypt_hash salt password))).
  { unfold db1. now rewrite Hsign. }
  assert (Hmatch1 : users_by_email db1 email
                    = [User (next_id db) name email (bcrypt_hash salt password) "pending"]).
  { rewrite Hdb1. unfold users_by_email, insert_user in *. cbn [fst users].
    rewrite filter_app, Hnew, filter_cons, filter_nil. cbn [u_email app].
    now rewrite decide_True by exact Hrefl. }
  split; [now rewrite Hsign|]. split; [|split; [|split]].
  - intros ->. rewrite Hsign. cbn [snd]. eexists. split; [reflexivity|].
    split; [reflexivity|]. cbn [m_links]. constructor.
  - unfold post_login. rewrite (Ht _ He), (Ht _ Hp), Hmatch1.
    cbn [andb negb u_password_hash u_status]. now rewrite Hbc.
  - unfold get_approve. now rewrite Hjwt.
  - unfold db2, get_approve. rewrite Hjwt. cbn [tk_action tk_userId negb fst].
    change (String.eqb "approve" "approve") with true. cbn [negb fst].
    unfold post_login. rewrite (Ht _ He), (Ht _ Hp).
    rewrite users_by_email_set_status, Hmatch1.
    cbn [andb negb map u_id]. rewrite Z.eqb_refl.
    cbn [u_password_hash u_status u_email u_id]. rewrite Hbc. reflexivity.
Qed.

(** X25.  Removal bites at once.  After the removal link for a user is followed,
    no bearer token gets that user past [requireAuth], however valid the
    token still is. *)
Theorem removed_user_is_locked_out (db : userdb) (tok : string) (p : payload) (id : Z)
  (authorization : option string) (ru : req_user) :
  verifyJWT tok = Some p ->
  tk_action p = Some "remove" ->
  tk_userId p = Some id ->
  requireAuth (fst (get_remove db (Some tok))) authorization = Ok ru ->
  ru_uid ru <> id.
Proof.
  intros Hv Ha Hid. unfold get_remove. rewrite Hv, Ha, Hid.
  change (String.eqb "remove" "remove") with true. cbn [negb fst].
  unfold requireAuth.
  destruct (bearer_token _) as [token|]; [|discriminate].
  destruct (negb (str_truthy token)); [discriminate|].
  destruct (verifyJWT token) as [q|]; [|discriminate].
  destruct (tk_uid q) as [uid|]; cbn [users_by_id]; [|discriminate].
  cbn [set_status users].
  destruct (filter _ _) as [|u l] eqn:E; [discriminate|].
  assert (Hu : u ∈ filter (fun u => u_id u = uid)
                 (map (fun u => if u_id u =? id
                                then User (u_id u) (u_name u) (u_email u)
                                       (u_password_hash u) "removed"
                                else u) (users db))) by (rewrite E; constructor).
  apply list_elem_of_filter in Hu as [Huid Hu].
  apply list_elem_of_fmap in Hu as (v & Hv' & _).
  destruct (String.eqb_spec (u_status u) "active") as [Hact|Hact]; cbn [negb];
    [|discriminate].
  intros [= <-]. cbn [ru_uid]. intros Heq.
  destruct (Z.eqb_spec (u_id v) id) as [Hvid|Hvid]; subst u; cbn in *;
    [discriminate | congruence].
Qed.

Lemma same_id_same_user (l : list user) (u v : user) :
  NoDup (map u_id l) -> u ∈ l -> v ∈ l -> u_id u = u_id v -> u = v.
Proof.
  induction l as [|w l IH]; intros Hnd Hu Hv Heq; [inversion Hu|].
  cbn [map] in Hnd. apply NoDup_cons in Hnd as [Hw Hnd].
  apply elem_of_cons in Hu as [->|Hu]; apply elem_of_cons in Hv as [->|Hv].
  - reflexivity.
  - exfalso. apply Hw. rewrite Heq. apply list_elem_of_fmap. now exists v.
  - exfalso. apply Hw. rewrite <- Heq. apply list_elem_of_fmap. now exists u.
  - now apply IH.
Qed.

(** X26.  The primary admin cannot be deleted.  In a table with pairwise
    different ids, whoever calls [POST /admin/delete/:id] and whatever the
    id, every account under the admin address is still there afterwards. *)
Theorem admin_delete_spares_primary_admin (db : userdb) (authorization : option string)
  (id : Z) (u : user) :
  users_wf db ->
  u ∈ users db -> u_email u = ADMIN_EMAIL ->
  u ∈ users (fst (post_admin_delete db authorization id)).
Proof.
  intros [Hnd _] Hu Hadmin. unfold post_admin_delete.
  destruct (requireAuth db authorization) as [ru|]; [|exact Hu].
  destruct (requireAdmin ru); [|exact Hu].
  destruct (users_by_id db (Some id)) as [|v l] eqn:E; [exact Hu|].
  destruct (String.eqb_spec (u_email v) ADMIN_EMAIL) as [Hv|Hv]; [exact Hu|].
  cbn [fst delete_user users]. apply list_elem_of_filter. split; [|exact Hu].
  intros Hid. apply Hv.
  assert (Hvin : v ∈ users_by_id db (Some id)) by (rewrite E; constructor).
  cbn [users_by_id] in Hvin. apply list_elem_of_filter in Hvin as [Hvid Hvin].
  rewrite <- (same_id_same_user (users db) u v Hnd Hu Hvin) by congruence.
  exact Hadmin.
Qed.

(** X27.  No write without the right credential.  The approval and removal links
    change the table only for a token that verifies with their own action;
    a password is reset only for a verified token of action [reset]; and an
    account is deleted only for a caller whom [requireAuth] admits as the
    active holder of the admin address. *)
Theorem table_changes_need_credentials (db : userdb) :
  (forall token, fst (get_approve db token) <> db ->
     exists tok p, token = Some tok /\ verifyJWT tok = Some p
                   /\ tk_action p = Some "approve")
  /\ (forall token, fst (get_remove db token) <> db ->
        exists tok p, token = Some tok /\ verifyJWT tok = Some p
                      /\ tk_action p = Some "remove")
  /\ (forall token newPassword salt,
        fst (post_password_reset db token newPassword salt) <> db ->
        exists tok p, token = Some tok /\ verifyJWT tok = Some p
                      /\ tk_action p = Some "reset")
  /\ (forall authorization id,
        fst (post_admin_delete db authorization id) <> db ->
        exists ru, requireAuth db authorization = Ok ru
                   /\ ru_email ru = ADMIN_EMAIL /\ ru_status ru = "active").
Proof.
  split; [|split; [|split]].
  - intros [tok|] H; [|contradiction]. unfold get_approve in H.
    destruct (verifyJWT tok) as [p|] eqn:Ev; [|contradiction].
    destruct (tk_action p) as [a|] eqn:Ea; [|contradiction].
    destruct (String.eqb_spec a "approve") as [->|Hne]; [|contradiction].
    now exists tok, p.
  - intros [tok|] H; [|contradiction]. unfold get_remove in H.
    destruct (verifyJWT tok) as [p|] eqn:Ev; [|contradiction].
    destruct (tk_action p) as [a|] eqn:Ea; [|contradiction].
    destruct (String.eqb_spec a "remove") as [->|Hne]; [|contradiction].
    now exists tok, p.
  - intros [tok|] [np|] salt H; try contradiction. unfold post_password_reset in H.
    destruct (negb _); [contradiction|].
    destruct (verifyJWT tok) as [p|] eqn:Ev; [|contradiction].
    destruct (tk_action p) as [a|] eqn:Ea; [|contradiction].
    destruct (tk_uid p) as [uid|]; [|contradiction].
    destruct (String.eqb_spec a "reset") as [->|Hne]; [|contradiction].
    now exists tok, p.
  - intros authorization id H. unfold post_admin_delete in H.
    destruct (requireAuth db authorization) as [ru|] eqn:Er; [|contradiction].
    unfold requireAdmin in H.
    destruct (String.eqb_spec (ru_role ru) "admin") as [Hrole|Hrole]; [|contradiction].
    exists ru. split; [reflexivity|].
    unfold requireAuth in Er.
    destruct (bearer_token _) as [token|]; [|discriminate].
    destruct (negb (str_truthy token)); [discriminate|].
    destruct (verifyJWT token) as [q|]; [|discriminate].
    destruct (users_by_id db (tk_uid q)) as [|v l]; [discriminate|].
    destruct (String.eqb_spec (u_status v) "active") as [Hact|Hact]; cbn [negb] in Er;
      [|discriminate].
    injection Er as <-. cbn [ru_email ru_status ru_role] in *. split; [|exact Hact].
    unfold role_of in Hrole.
    destruct (String.eqb_spec (u_email v) ADMIN_EMAIL); [assumption | discriminate].
Qed.

(** X28.  A login is granted only to an account of the table that the address
    selects, whose stored hash accepts the password and whose status is
    [active]; the role is [admin] exactly for the admin address. *)
Theorem login_grants_only_active_accounts (db : userdb) (email password : option string)
  (token role : string) :
  post_login db email password = Ok (token, role) ->
  exists e pw u,
    email = Some e /\ password = Some pw
    /\ u ∈ users db /\ email_eq (u_email u) e = true
    /\ bcrypt_compare pw (u_password_hash u) = true
    /\ u_status u = "active"
    /\ (role = "admin" <-> u_email u = ADMIN_EMAIL).
Proof.
  unfold post_login. destruct email as [e|], password as [pw|]; try discriminate.
  destruct (negb _); [discriminate|].
  destruct (users_by_email db e) as [|u l] eqn:E; [discriminate|].
  destruct (bcrypt_compare pw (u_password_hash u)) eqn:Hbc; cbn [negb]; [|discriminate].
  destruct (String.eqb_spec (u_status u) "active") as [Hact|Hact]; cbn [negb];
    [|discriminate].
  intros [= _ <-]. exists e, pw, u.
  assert (Hu : u ∈ users_by_email db e) by (rewrite E; constructor).
  apply list_elem_of_filter in Hu as [Heq Hu].
  repeat split; try assumption.
  - unfold role_of. destruct (String.eqb_spec (u_email u) ADMIN_EMAIL);
      [trivial | discriminate].
  - intros Hadm. unfold role_of. now rewrite Hadm.
Qed.

(** X29.  The answer to "forgot password" does not tell whether an address is
    registered: with a working mailer, every non-empty address gets the same
    answer over any two tables; and no mail goes out for an address that is
    unknown or whose account is removed. *)
Theorem forgot_password_reveals_nothing (db db' : userdb) (email front : string) :
  email <> EmptyString ->
  fst (post_password_forgot db (Some email) front true)
  = fst (post_password_forgot db' (Some email) front true)
  /\ (users_by_email db email = [] ->
      snd (post_password_forgot db (Some email) front true) = [])
  /\ (forall u l, users_by_email db email = u :: l -> u_status u = "removed" ->
      snd (post_password_forgot db (Some email) front true) = []).
Proof.
  intros He. unfold post_password_forgot, str_truthy.
  destruct (String.eqb_spec email EmptyString) as [|_]; [contradiction|]. cbn [negb].
  split; [|split].
  - destruct (users_by_email db email) as [|u l], (users_by_email db' email) as [|u' l'];
      repeat match goal with
      | |- context [String.eqb ?a "removed"] => destruct (String.eqb a "removed")
      end; reflexivity.
  - intros ->. reflexivity.
  - intros u l -> ->. reflexivity.
Qed.

End Engine.

(** * The statements on concrete inputs *)

Lemma str_leb_total (s t : string) : str_leb s t = true \/ str_leb t s = true.
Proof.
  revert t; induction s as [|a s IH]; intros [|b t]; simpl; auto.
  destruct (Nat.ltb_spec (nat_of_ascii a) (nat_of_ascii b)); [now left|].
  destruct (Nat.ltb_spec (nat_of_ascii b) (nat_of_ascii a)); [now right|].
  apply IH.
Qed.

Lemma sql_leb_ci_total (a b : jsval) :
  sql_leb_ci a b = true \/ sql_leb_ci b a = true.
Proof.
  destruct a as [|x|s], b as [|y|t]; simpl; auto.
  - destruct (Z.leb_spec x y); [now left | right; apply Z.leb_le; lia].
  - apply str_leb_total.
Qed.

(** C1, where the two adapters part.  The user types two blanks into the
    Company filter.  The backend drops the pattern ([buildWhere] trims before
    it tests) and returns the row; [getPageFromIDB], over the same row synced
    to the device, keeps the pattern ([rowMatches] tests only for the empty
    string) and returns nothing.  This holds whatever the engine's [LIKE],
    its ordering and the browser's collation are. *)
Theorem blank_pattern_splits_the_adapters
  (sql_like : string -> jsval -> bool) (sql_leb : jsval -> jsval -> bool)
  (localeCompare : string -> string -> Z) :
  let f := filters (setF (ctl (initial_state ∅)) "Company_Name" "  ") in
  buildWhere (page_params 1 20 "Company_Name" "asc" f) = []
  /\ remote_comp (server sql_like sql_leb [acme])
       (page_params 1 20 "Company_Name" "asc" f)
     = Resolved (Some [acme])
  /\ rowMatches acme f = false
  /\ getPageFromIDB localeCompare (upsertRows [acme] ∅)
       (PageRequest 1 20 "Company_Name" "asc" f)
     = PageResult [] 0.
Proof. repeat split; vm_compute; reflexivity. Qed.

(** C4, where the clamp gives way.  For [GET /comp?pageSize=abc] the handler
    plans with [pageSize = NaN] (and so [offset = NaN]): [Math.max(NaN, 1)]
    is [NaN].  The request ends in status 500.  The same happens to [page]. *)
Theorem plan_keeps_NaN
  (sql_like : string -> jsval -> bool) (sql_leb : jsval -> jsval -> bool)
  (t : list row) :
  pl_pageSize (plan {["pageSize" := "abc"]}) = NaN
  /\ pl_offset (plan {["pageSize" := "abc"]}) = NaN
  /\ get_comp sql_like sql_leb t {["pageSize" := "abc"]}
     = Fail 500 "Failed to fetch comp"
  /\ pl_page (plan {["page" := "abc"]}) = NaN.
Proof. repeat split; vm_compute; reflexivity. Qed.

(** C7 as stated fails: a row without [id] and without [Folio_Dpid] gets one
    key at position 0 and another at position 1. *)
Lemma makeKey_differs_across_positions :
  makeKey acme_unkeyed 0 = JStr "Acme---0"
  /\ makeKey acme_unkeyed 1 = JStr "Acme---1"
  /\ makeKey acme_unkeyed 0 <> makeKey acme_unkeyed 1.
Proof.
  split; [reflexivity|]. split; [reflexivity|].
  vm_compute. discriminate.
Qed.

Lemma makeKey_stable_witness :
  (nullish (get acme "id") <> None \/ nullish (get acme "Folio_Dpid") <> None
   \/ 0 = 7)
  /\ makeKey acme 0 = makeKey acme 7.
Proof.
  assert (H : nullish (get acme "id") <> None
              \/ nullish (get acme "Folio_Dpid") <> None \/ 0 = 7)
    by (right; left; vm_compute; discriminate).
  split; [exact H | exact (makeKey_stable acme 0 7 H)].
Defined.

(** C9, where the device branch falls short.  Exporting offline from a
    device that holds one synced row: the row read back carries the key
    [rowKey], yet the header row is the known schema and nothing more, since
    only the server branch adds what it sees to [headersSeen]. *)
Theorem offline_export_omits_observed_keys
  (localeCompare : string -> string -> Z) (net : remote) (today : string) :
  let s := with_ctl (initial_state (upsertRows [acme] ∅))
             (setOffline (ctl (initial_state ∅)) true) in
  exists s' file,
    handleDownloadExcel localeCompare 2 net today s = Some (s', Some file)
    /\ cursor (idb s) = [set_field acme "rowKey" (JStr "F1")]
    /\ length (exp_normalized file) = 1%nat
    /\ exp_headers file = BASE_COLS
    /\ "rowKey" ∉ exp_headers file.
Proof.
  eexists _, _. split; [vm_compute; reflexivity|].
  split; [vm_compute; reflexivity|].
  split; [reflexivity|]. split; [reflexivity|].
  cbn [exp_headers]. intros H. apply arr_includes_elem in H.
  vm_compute in H. discriminate.
Qed.

Lemma fetchPage_length_le_pageSize_witness :
  let d := PageRequest 2 20 "Company_Name" "asc" (filters (setF (ctl (initial_state ∅)) "Company_Name" "ac")) in
  valid_descriptor d = true
  /\ ((exists page_rows,
         remote_comp (server sql_like_ci sql_leb_ci [acme; acme_unkeyed])
           (page_params (pr_page d) (pr_pageSize d) (pr_sortBy d) (pr_sortDir d)
              (pr_filters d))
         = Resolved (Some page_rows)
         /\ Z.of_nat (length page_rows) <= pr_pageSize d)
      /\ Z.of_nat (length (res_rows (getPageFromIDB localeCompare_codeunit
                                       (upsertRows [acme; acme_unkeyed] ∅) d)))
         <= pr_pageSize d).
Proof.
  intros d.
  assert (H : valid_descriptor d = true) by (vm_compute; reflexivity).
  split; [exact H|].
  exact (fetchPage_length_le_pageSize sql_like_ci sql_leb_ci localeCompare_codeunit
           [acme; acme_unkeyed] (upsertRows [acme; acme_unkeyed] ∅) d H).
Defined.




Lemma page_error_keeps_cache_witness :
  let c2 := Controls emptyFilters emptyFilters "Company_Name" "asc" EmptyString 2 20 false in
  let s := AppState (ctl (initial_state ∅)) (View [acme] 1 false 100 EmptyString)
             (bar (initial_state ∅))
             {[cacheKey stringify_plain c2 := [acme_unkeyed]]} ∅ in
  let s' := fst (loadPage localeCompare_codeunit stringify_plain net_down device_ok s) in
  fetch_fails stringify_plain net_down device_ok s network_error
  /\ rows (vw s') = []
  /\ totalCount (vw s') = 0
  /\ error (vw s') = "Network Error"
  /\ pageCacheRef s' = pageCacheRef s
  /\ rows (vw (fst (loadPage localeCompare_codeunit stringify_plain net_down device_ok
                      (with_ctl s' c2)))) = [acme_unkeyed]
  /\ snd (loadPage localeCompare_codeunit stringify_plain net_down device_ok
            (with_ctl s' c2)) = [].
Proof.
  intros c2 s s'.
  assert (H : fetch_fails stringify_plain net_down device_ok s network_error).
  { apply remote_count_fails; vm_compute; reflexivity. }
  split; [exact H|].
  destruct (page_error_keeps_cache localeCompare_codeunit stringify_plain
              net_down device_ok s network_error H) as (H1 & H2 & H3 & _ & H5 & H6).
  destruct (H6 c2 [acme_unkeyed] net_down device_ok) as [H7 H8];
    [reflexivity | vm_compute; reflexivity |].
  exact (conj H1 (conj H2 (conj H3 (conj H5 (conj H7 H8))))).
Defined.


(** * The further statements on concrete inputs *)

Lemma getPageFromIDB_page_length_witness :
  Z.of_nat (length (res_rows (getPageFromIDB localeCompare_codeunit
                                (upsertRows two_rows ∅)
                                (PageRequest 2 1 "Company_Name" "asc" emptyFilters))))
  = Z.min 1 (Z.max 0 (getCountFromIDB (upsertRows two_rows ∅) emptyFilters - (2 - 1) * 1)).
Proof. apply getPageFromIDB_page_length; lia. Defined.

Lemma getPageFromIDB_pages_partition_witness :
  concat (map (fun pg => res_rows (getPageFromIDB localeCompare_codeunit
                                     (upsertRows two_rows ∅)
                                     (PageRequest pg 1 "Company_Name" "asc" emptyFilters)))
            (page_numbers 2))
  ≡ₚ filter (fun r => rowMatches r emptyFilters = true)
       (map snd (map_to_list (upsertRows two_rows ∅))).
Proof. apply getPageFromIDB_pages_partition; [lia | vm_compute; discriminate]. Defined.

Lemma totalPages_bounds_nonempty_pages_witness :
  res_rows (getPageFromIDB localeCompare_codeunit (upsertRows two_rows ∅)
              (PageRequest 2 1 "Company_Name" "asc" emptyFilters)) <> []
  <-> 0 < getCountFromIDB (upsertRows two_rows ∅) emptyFilters
      /\ 2 <= totalPages (getCountFromIDB (upsertRows two_rows ∅) emptyFilters) 1.
Proof. apply totalPages_bounds_nonempty_pages; lia. Defined.

Lemma offline_export_complete_witness :
  exists file,
    handleDownloadExcel localeCompare_codeunit 3 net_down "2025-01-01" device_state
    = Some (export_done device_state, Some file)
    /\ exp_headers file = BASE_COLS
    /\ exp_normalized file
       = map (normalize_row BASE_COLS)
           (local_view localeCompare_codeunit (idb device_state)
              (sortBy (ctl device_state)) (effSortDir (ctl device_state))
              (filters (ctl device_state)))
    /\ Z.of_nat (length (exp_normalized file))
       = getCountFromIDB (idb device_state) (filters (ctl device_state)).
Proof. apply offline_export_complete; [reflexivity | vm_compute; reflexivity]. Defined.

(** The sample ordering of cell values is total and transitive, the sample
    engine rearranges the sample table, and Acme and Beta do not tie. *)
Lemma str_leb_trans (s t u : string) :
  str_leb s t = true -> str_leb t u = true -> str_leb s u = true.
Proof.
  revert t u; induction s as [|a s IH]; intros [|b t] [|c u]; cbn [str_leb];
    try reflexivity; try discriminate.
  destruct (Nat.ltb_spec (nat_of_ascii a) (nat_of_ascii b)) as [Hab|Hab];
    destruct (Nat.ltb_spec (nat_of_ascii b) (nat_of_ascii c)) as [Hbc|Hbc];
    destruct (Nat.ltb_spec (nat_of_ascii a) (nat_of_ascii c)) as [Hac|Hac];
    try reflexivity; try lia; intros H1 H2.
  - destruct (Nat.ltb_spec (nat_of_ascii c) (nat_of_ascii b)); [discriminate | lia].
  - destruct (Nat.ltb_spec (nat_of_ascii b) (nat_of_ascii a)); [discriminate | lia].
  - destruct (Nat.ltb_spec (nat_of_ascii b) (nat_of_ascii a)) as [|Hba]; [discriminate|].
    destruct (Nat.ltb_spec (nat_of_ascii c) (nat_of_ascii b)) as [|Hcb]; [discriminate|].
    destruct (Nat.ltb_spec (nat_of_ascii c) (nat_of_ascii a)); [lia|].
    now apply (IH t u).
Qed.

Lemma sql_leb_ci_preorder : total_preorder sql_leb_ci.
Proof.
  split; [exact sql_leb_ci_total|].
  intros [|x|s] [|y|t] [|z|u]; cbn [sql_leb_ci]; try reflexivity; try discriminate.
  - intros H1 H2. apply Z.leb_le in H1, H2. apply Z.leb_le. lia.
  - apply str_leb_trans.
Qed.

Lemma backwards_on_first_page_arranges : arranges backwards_on_first_page two_rows.
Proof.
  intros q. unfold backwards_on_first_page.
  destruct (bool_decide _); [apply reverse_Permutation | reflexivity].
Qed.

Lemma two_rows_tie_free (f : list (string * string)) :
  tie_free sql_like_ci sql_leb_ci two_rows "Company_Name" f.
Proof.
  intros r r' Hr Hr' _ _ H1 H2.
  apply elem_of_cons in Hr as [->|Hr]; [|apply list_elem_of_singleton in Hr as ->];
    (apply elem_of_cons in Hr' as [->|Hr']; [|apply list_elem_of_singleton in Hr' as ->]);
    try reflexivity; vm_compute in H1, H2; discriminate.
Qed.

Lemma server_export_complete_witness :
  exists file,
    handleDownloadExcel localeCompare_codeunit 3
      (server_in sql_like_ci sql_leb_ci backwards_on_first_page)
      "2025-01-01" (initial_state ∅)
    = Some (export_done (initial_state ∅), Some file)
    /\ exp_normalized file
       = map (normalize_row (exp_headers file))
           (remote_view sql_like_ci sql_leb_ci two_rows
              (sortBy (ctl (initial_state ∅))) (effSortDir (ctl (initial_state ∅)))
              (filters (ctl (initial_state ∅))))
    /\ remote_view sql_like_ci sql_leb_ci two_rows
         (sortBy (ctl (initial_state ∅))) (effSortDir (ctl (initial_state ∅)))
         (filters (ctl (initial_state ∅)))
       ≡ₚ filter (fun r => satisfies sql_like_ci
                             (buildWhere (spread ∅ (filters (ctl (initial_state ∅))))) r
                           = true) two_rows
    /\ (forall r k,
          r ∈ two_rows ->
          satisfies sql_like_ci
            (buildWhere (spread ∅ (filters (ctl (initial_state ∅))))) r = true ->
          k ∈ keys r -> k ∈ exp_headers file)
    /\ Z.of_nat (length (exp_normalized file))
       = select_count sql_like_ci two_rows
           (buildWhere (spread ∅ (filters (ctl (initial_state ∅))))).
Proof.
  apply server_export_complete;
    [exact sql_leb_ci_preorder | exact backwards_on_first_page_arranges
    | apply two_rows_tie_free | reflexivity | reflexivity | vm_compute; reflexivity].
Defined.

Lemma sync_fetches_every_matching_row_witness :
  exists s' batches,
    handleSyncToDevice 3 (server_in sql_like_ci sql_leb_ci backwards_on_first_page)
      (initial_state ∅)
    = Some (s', SyncReport
                  (select_count sql_like_ci two_rows
                     (buildWhere (spread ∅ (filters (ctl (initial_state ∅))))))
                  (select_count sql_like_ci two_rows
                     (buildWhere (spread ∅ (filters (ctl (initial_state ∅))))))
                  batches)
    /\ concat batches
       = remote_view sql_like_ci sql_leb_ci two_rows (sortBy (ctl (initial_state ∅)))
           (effSortDir (ctl (initial_state ∅))) (filters (ctl (initial_state ∅)))
    /\ remote_view sql_like_ci sql_leb_ci two_rows (sortBy (ctl (initial_state ∅)))
         (effSortDir (ctl (initial_state ∅))) (filters (ctl (initial_state ∅)))
       ≡ₚ filter (fun r => satisfies sql_like_ci
                             (buildWhere (spread ∅ (filters (ctl (initial_state ∅))))) r
                           = true) two_rows
    /\ idb s' = foldl (fun d b => upsertRows b d) ∅ batches
    /\ pageCacheRef s' = pageCacheRef (initial_state ∅) /\ vw s' = vw (initial_state ∅).
Proof.
  apply sync_fetches_every_matching_row;
    [exact sql_leb_ci_preorder | exact backwards_on_first_page_arranges
    | apply two_rows_tie_free | reflexivity | vm_compute; reflexivity].
Defined.

Lemma two_rows_own_keys : Forall (fun r => has_own_key r = true) two_rows.
Proof. repeat constructor. Qed.

Lemma two_rows_keys_differ : NoDup (map (fun r => makeKey r 0) two_rows).
Proof. apply (bool_decide_unpack _). vm_compute. exact I. Qed.

Lemma sync_mirrors_matching_rows_witness :
  exists s' report,
    handleSyncToDevice 3 (server_in sql_like_ci sql_leb_ci backwards_on_first_page)
      (initial_state ∅)
    = Some (s', report)
    /\ map_to_list (idb s')
       ≡ₚ map (fun r => (makeKey r 0, stored r 0))
            (filter (fun r => satisfies sql_like_ci
                                (buildWhere (spread ∅ (filters (ctl (initial_state ∅))))) r
                              = true) two_rows)
    /\ getCountFromIDB (idb s') [("Company_Name", "be")]
       = Z.of_nat (length
           (filter (fun r => rowMatches r [("Company_Name", "be")] = true)
              (filter (fun r => satisfies sql_like_ci
                                  (buildWhere (spread ∅ (filters (ctl (initial_state ∅))))) r
                                = true) two_rows))).
Proof.
  apply sync_mirrors_matching_rows;
    [exact sql_leb_ci_preorder | exact backwards_on_first_page_arranges
    | apply two_rows_tie_free | reflexivity | vm_compute; reflexivity | exact two_rows_own_keys
    | exact two_rows_keys_differ | reflexivity].
Defined.

Lemma two_rows_known_columns :
  Forall (fun r => forall k, k ∈ keys r -> k ∈ BASE_COLS) two_rows.
Proof.
  unfold two_rows. apply Forall_forall. intros r Hr k Hk.
  apply arr_includes_elem.
  repeat (apply elem_of_cons in Hr as [->|Hr]); [| |inversion Hr]; cbn in Hk;
    repeat (apply elem_of_cons in Hk as [->|Hk]; [reflexivity|]);
    inversion Hk.
Qed.

Lemma sync_then_offline_export_agrees_witness :
  exists s1 report fileR sL fileL,
    handleDownloadExcel localeCompare_codeunit 3
      (server_in sql_like_ci sql_leb_ci backwards_on_first_page) "2025-01-01"
      (initial_state ∅)
    = Some (export_done (initial_state ∅), Some fileR)
    /\ handleSyncToDevice 3 (server_in sql_like_ci sql_leb_ci backwards_on_first_page)
         (initial_state ∅)
       = Some (s1, report)
    /\ handleDownloadExcel localeCompare_codeunit 3 net_down "2025-01-01"
         (with_ctl s1 (setOffline (ctl s1) true))
       = Some (sL, Some fileL)
    /\ exp_headers fileL = exp_headers fileR
    /\ exp_normalized fileL ≡ₚ exp_normalized fileR.
Proof.
  apply (sync_then_offline_export_agrees _ _ _ backwards_on_first_page two_rows);
    [exact sql_leb_ci_preorder | exact backwards_on_first_page_arranges
    | apply two_rows_tie_free | reflexivity | reflexivity | vm_compute; reflexivity
    | exact two_rows_own_keys | exact two_rows_keys_differ | exact two_rows_known_columns
    | repeat constructor].
Defined.

Lemma upsertRows_last_write_wins_witness :
  upsertRows two_rows ∅ !! makeKey acme 0 = Some (stored acme 0)
  /\ get (stored acme 0) "rowKey" = Some (makeKey acme 0)
  /\ forall col, col <> "rowKey" -> get (stored acme 0) col = get acme col.
Proof.
  apply (upsertRows_last_write_wins two_rows ∅ 0 acme); [reflexivity|].
  intros m r' Hm Hr'. destruct m as [|[|m]]; [lia | | discriminate].
  injection Hr' as <-. vm_compute. discriminate.
Defined.

Lemma upsertRows_keeps_other_keys_witness :
  upsertRows [acme] (upsertRows [beta] ∅) !! JStr "F2"
  = upsertRows [beta] ∅ !! JStr "F2".
Proof.
  apply upsertRows_keeps_other_keys.
  intros m r' Hr'. destruct m as [|m]; [|discriminate].
  injection Hr' as <-. vm_compute. discriminate.
Defined.

Lemma page_cache_round_trip_witness :
  let net := server sql_like_ci sql_leb_ci two_rows in
  let s := initial_state ∅ in
  let s1 := fst (loadPage localeCompare_codeunit stringify_plain net device_ok s) in
  rows (vw s1) = default [] (Some two_rows)
  /\ totalCount (vw s1) = default 0 (Some 2)
  /\ pageCacheRef s1 !! cacheKey stringify_plain (ctl s) = Some (rows (vw s1))
  /\ (forall k, k <> cacheKey stringify_plain (ctl s) ->
                pageCacheRef s1 !! k = pageCacheRef s !! k)
  /\ forall net' dev',
       rows (vw (fst (loadPage localeCompare_codeunit stringify_plain net' dev' s1)))
       = rows (vw s1)
       /\ snd (loadPage localeCompare_codeunit stringify_plain net' dev' s1) = [].
Proof.
  intros net s.
  apply (page_cache_round_trip localeCompare_codeunit stringify_plain net device_ok s
           (Some 2) (Some two_rows));
    [reflexivity | apply lookup_empty | vm_compute; reflexivity | vm_compute; reflexivity].
Defined.

Lemma offline_load_is_local_witness :
  let net := server sql_like_ci sql_leb_ci two_rows in
  let load n := loadPage localeCompare_codeunit stringify_plain n device_ok device_state in
  load net_down = load net
  /\ pageCacheRef (fst (load net_down)) = pageCacheRef device_state
  /\ forallb local_call (snd (load net_down)) = true
  /\ (count_fault device_ok = None -> page_fault device_ok = None ->
      rows (vw (fst (load net_down)))
      = res_rows (getPageFromIDB localeCompare_codeunit (idb device_state)
                    (PageRequest (page (ctl device_state)) (pageSize (ctl device_state))
                       (sortBy (ctl device_state)) (effSortDir (ctl device_state))
                       (debouncedFilters (ctl device_state))))
      /\ totalCount (vw (fst (load net_down)))
         = getCountFromIDB (idb device_state) (debouncedFilters (ctl device_state))).
Proof.
  intros net load.
  apply (offline_load_is_local localeCompare_codeunit stringify_plain net_down net
           device_ok device_state).
  reflexivity.
Defined.

Lemma server_load_shows_requested_window_witness :
  let s := initial_state ∅ in
  let V := remote_view sql_like_ci sql_leb_ci two_rows (sortBy (ctl s)) (effSortDir (ctl s))
             (debouncedFilters (ctl s)) in
  let s1 := fst (loadPage localeCompare_codeunit stringify_plain
                   (server sql_like_ci sql_leb_ci two_rows) device_ok s) in
  rows (vw s1)
  = take (Z.to_nat (pageSize (ctl s)))
      (drop (Z.to_nat ((page (ctl s) - 1) * pageSize (ctl s))) V)
  /\ totalCount (vw s1) = Z.of_nat (length V)
  /\ error (vw s1) = EmptyString.
Proof.
  intros s.
  apply (server_load_shows_requested_window sql_like_ci sql_leb_ci localeCompare_codeunit
           stringify_plain two_rows device_ok s);
    [reflexivity | apply lookup_empty | reflexivity | vm_compute; discriminate
    | split; vm_compute; discriminate].
Defined.

Lemma rowMatches_substring_witness :
  rowMatches acme [("Company_Name", "CM")] = true
  <-> forall k v, (k, v) ∈ [("Company_Name", "CM")] -> v <> EmptyString ->
        exists a b,
          toLowerCase (String_ (nullish_or (get acme k) (JStr EmptyString)))
          = a +:+ toLowerCase v +:+ b.
Proof. apply rowMatches_substring. reflexivity. Defined.

Lemma valueOf_resolves_witness :
  let r : row := [("Valutation", JNum 7)] in
  (forall v, nullish (get r "Valuation") = Some v -> valueOf r "Valuation" = v)
  /\ (valueOf r "Valuation" = JStr EmptyString
      \/ exists k, k ∈ default ["Valuation"] (alist_get COL_KEYS "Valuation")
                   /\ get r k = Some (valueOf r "Valuation"))
  /\ valueOf r "Valuation" <> JNull.
Proof.
  intros r. apply valueOf_resolves. apply arr_includes_elem. reflexivity.
Defined.

Lemma Pager_buttons_witness :
  NoDup (page_buttons (Pager 10 5))
  /\ (forall n, n ∈ page_buttons (Pager 10 5) -> 1 <= n <= 10)
  /\ 5 ∈ page_buttons (Pager 10 5)
  /\ 1 ∈ page_buttons (Pager 10 5)
  /\ 10 ∈ page_buttons (Pager 10 5)
  /\ (length (page_buttons (Pager 10 5)) <= 9)%nat
  /\ forall n a, PageBtn n a ∈ Pager 10 5 -> (a = true <-> n = 5).
Proof. apply Pager_buttons; lia. Defined.

Lemma pager_actions_stay_in_range_witness :
  (forall it, it ∈ Pager 10 (curPage 12 10) -> 1 <= click 10 it (curPage 12 10) <= 10)
  /\ (forall input, 1 <= handleJump 10 input (curPage 12 10) <= 10)
  /\ 1 <= clamp_page 12 10 <= 10
  /\ clamp_page 12 10 = curPage 12 10.
Proof. apply pager_actions_stay_in_range; lia. Defined.

Lemma toggleSort_twice_restores_witness :
  let c := ctl (initial_state ∅) in
  let cv := Controls emptyFilters emptyFilters "Company_Name" "asc" "desc" 1 20 false in
  ((sortDir c = "asc" \/ sortDir c = "desc")
   /\ (sortDir cv = "asc" \/ sortDir cv = "desc"))
  /\ sortDir (toggleSort c "Company_Name") <> "asc"
  /\ sortDir (toggleSort (toggleSort c "Company_Name") "Company_Name") = "asc"
  /\ sortBy (toggleSort cv "Valuation") = "Valuation"
  /\ sortDir (toggleSort cv "Valuation") = "asc"
  /\ effSortDir (toggleSort cv "Valuation") = "desc".
Proof.
  intros c cv.
  assert (H : sortDir c = "asc" \/ sortDir c = "desc") by (left; reflexivity).
  assert (Hv : sortDir cv = "asc" \/ sortDir cv = "desc") by (left; reflexivity).
  split; [exact (conj H Hv)|].
  destruct (toggleSort_twice_restores c "Company_Name" H)
    as (_ & _ & _ & Hflip & _ & Htwice).
  destruct (toggleSort_twice_restores cv "Valuation" Hv)
    as (Hby & _ & _ & _ & Hpin & _).
  destruct (Hflip eq_refl) as [Hcur _]. destruct (Hcur eq_refl) as [Hne _].
  destruct (Htwice eq_refl) as (_ & Hback & _).
  destruct Hpin as [Hd He]; [reflexivity | discriminate |].
  exact (conj Hne (conj Hback (conj Hby (conj Hd He)))).
Defined.

Lemma plan_numeric_bounds_witness :
  let q : query := {["pageSize" := "50000"]} in
  (exists ps pg, pl_pageSize (plan q) = Num ps /\ pl_page (plan q) = Num pg
                 /\ 1 <= ps <= 10000 /\ 1 <= pg)
  /\ (pl_sortDir (plan q) = "ASC" \/ pl_sortDir (plan q) = "DESC")
  /\ pl_sortBy (plan q) ∈ COLS.
Proof.
  intros q. apply (plan_numeric_bounds q 50000 1); vm_compute; reflexivity.
Defined.

Lemma makeKey_position_dependent_witness :
  makeKey acme_unkeyed 0 <> makeKey acme_unkeyed 1.
Proof.
  apply makeKey_position_dependent; [reflexivity | reflexivity | lia | lia | lia].
Defined.

(** The sample accounts. *)
Lemma two_users_wf : users_wf two_users.
Proof. split; [apply (bool_decide_unpack _); vm_compute; exact I | repeat constructor]. Qed.

Lemma endpoints_keep_ids_unique_witness :
  (forall rq, users_wf (fst (fst (post_signup email_eq_ci toy_hash toy_sign two_users rq))))
  /\ (forall token, users_wf (fst (get_approve toy_verify two_users token)))
  /\ (forall token, users_wf (fst (get_remove toy_verify two_users token)))
  /\ (forall token newPassword salt,
        users_wf (fst (post_password_reset toy_hash toy_verify two_users token
                         newPassword salt)))
  /\ (forall authorization id,
        users_wf (fst (post_admin_delete toy_verify two_users authorization id))).
Proof. apply endpoints_keep_ids_unique. exact two_users_wf. Defined.

Lemma signup_then_approve_then_login_witness :
  let db := UserDb [] 1 in
  let email := "asha@thewealthfinder.in" in
  let rq := SignupRequest (Some "Asha") (Some email) (Some "pw") "http://h" "salt" true in
  let db1 := fst (fst (post_signup email_eq_ci toy_hash toy_sign db rq)) in
  let db2 := fst (get_approve toy_verify db1 (Some (approve_token toy_sign 1))) in
  snd (fst (post_signup email_eq_ci toy_hash toy_sign db rq))
  = Ok "Signup received. Awaiting admin approval."
  /\ (true = true ->
      exists m, snd (post_signup email_eq_ci toy_hash toy_sign db rq) = [m]
                /\ m_to m = ADMIN_EMAIL
                /\ "http://h" +:+ "/approve?token=" +:+ approve_token toy_sign 1 ∈ m_links m)
  /\ post_login email_eq_ci toy_compare toy_sign db1 (Some email) (Some "pw")
     = Fail 403 "Account pending approval or removed"
  /\ snd (get_approve toy_verify db1 (Some (approve_token toy_sign 1)))
     = Ok "User approved. They can log in now."
  /\ post_login email_eq_ci toy_compare toy_sign db2 (Some email) (Some "pw")
     = Ok (signJWT toy_sign (Payload None None (Some 1) (Some email) (Some (role_of email)))
             "1d",
           role_of email).
Proof.
  intros db email.
  apply (signup_then_approve_then_login email_eq_ci toy_hash toy_compare toy_sign toy_verify
           db "Asha" email "pw" "http://h" "salt" true);
    try discriminate; reflexivity.
Defined.

Lemma removed_user_is_locked_out_witness :
  exists ru,
    requireAuth toy_verify (fst (get_remove toy_verify two_users (Some "remove.1")))
      (Some "Bearer login.2") = Ok ru
    /\ ru_uid ru <> 1.
Proof.
  eexists. split; [reflexivity|].
  apply (removed_user_is_locked_out toy_verify two_users "remove.1"
           (Payload (Some "remove") (Some 1) None None None) 1 (Some "Bearer login.2"));
    reflexivity.
Defined.

Lemma admin_delete_spares_primary_admin_witness :
  User 1 "Saurabh" ADMIN_EMAIL (toy_hash "salt" "root") "active"
  ∈ users (fst (post_admin_delete toy_verify two_users (Some "Bearer login.1") 1)).
Proof.
  apply admin_delete_spares_primary_admin;
    [exact two_users_wf | apply list_elem_of_here | reflexivity].
Defined.

Lemma login_grants_only_active_accounts_witness :
  exists e pw u,
    Some "asha@thewealthfinder.in" = Some e /\ Some "pw" = Some pw
    /\ u ∈ users two_users /\ email_eq_ci (u_email u) e = true
    /\ toy_compare pw (u_password_hash u) = true
    /\ u_status u = "active"
    /\ ("user" = "admin" <-> u_email u = ADMIN_EMAIL).
Proof.
  apply (login_grants_only_active_accounts email_eq_ci toy_compare toy_sign two_users
           (Some "asha@thewealthfinder.in") (Some "pw") "login.2" "user").
  reflexivity.
Defined.

Lemma forgot_password_reveals_nothing_witness :
  let email := "asha@thewealthfinder.in" in
  fst (post_password_forgot email_eq_ci toy_sign two_users (Some email) "http://f" true)
  = fst (post_password_forgot email_eq_ci toy_sign (UserDb [] 1) (Some email) "http://f" true)
  /\ (users_by_email email_eq_ci two_users email = [] ->
      snd (post_password_forgot email_eq_ci toy_sign two_users (Some email) "http://f" true)
      = [])
  /\ (forall u l, users_by_email email_eq_ci two_users email = u :: l ->
      u_status u = "removed" ->
      snd (post_password_forgot email_eq_ci toy_sign two_users (Some email) "http://f" true)
      = []).
Proof. intros email. apply forgot_password_reveals_nothing. discriminate. Defined.
